(** * Credential lifecycle of the VibeCodersKit MCP server

    A shallow embedding of [src/auth.ts], [src/api.ts] and [src/login.ts]:
    the token store, the refresh operation, the authenticated request
    client and the device-authorization poll loop, together with the part
    of the JavaScript runtime they rely on (strings, JSON, dates, the file
    system, [fetch]); and of their callers in [src/tools/status.ts] (the
    status and logout tools) and [src/index.ts] (the resource handlers). *)

From Stdlib Require Import ZArith List String Ascii Bool Lia.
Import ListNotations.
Local Open Scope Z_scope.
Local Set Warnings "-register-all".

(** ** JavaScript strings

    A JavaScript string is a sequence of UTF-16 code units; a code unit is
    a natural number below 65536. *)

Definition jsstring := list N.

Local Open Scope N_scope.

(** ASCII literals of the source, as code units. *)
Definition js (s : string) : jsstring :=
  map N_of_ascii (list_ascii_of_string s).

Fixpoint str_eqb (a b : jsstring) : bool :=
  match a, b with
  | [], [] => true
  | x :: a', y :: b' => (x =? y) && str_eqb a' b'
  | _, _ => false
  end.

Definition dquote : N := 34.
Definition backslash : N := 92.

Definition is_digit (c : N) : bool := (48 <=? c) && (c <=? 57).
Definition digit_val (c : N) : Z := Z.of_N (c - 48).
Definition digit_chr (d : Z) : N := Z.to_N d + 48.

Definition hex_val (c : N) : option N :=
  if is_digit c then Some (c - 48)
  else if (97 <=? c) && (c <=? 102) then Some (c - 87)
  else if (65 <=? c) && (c <=? 70) then Some (c - 55)
  else None.

(** Lower-case hexadecimal digit, as [QuoteJSONString] emits it. *)
Definition hex_chr (d : N) : N := if d <? 10 then d + 48 else d + 87.

(** Value of a run of decimal digits, most significant first. *)
Fixpoint digits_val (acc : Z) (ds : jsstring) : Z :=
  match ds with
  | [] => acc
  | d :: ds' => digits_val (10 * acc + digit_val d)%Z ds'
  end.

(** Longest prefix of decimal digits and what follows it. *)
Fixpoint span_digits (s : jsstring) : jsstring * jsstring :=
  match s with
  | c :: r => if is_digit c then let (ds, r') := span_digits r in (c :: ds, r')
              else ([], s)
  | [] => ([], [])
  end.

(** Decimal digits of a non-negative integer, through the Standard
    Library's [Decimal.uint]. *)
Fixpoint uint_chars (u : Decimal.uint) : jsstring :=
  match u with
  | Decimal.Nil => []
  | Decimal.D0 u' => 48 :: uint_chars u'
  | Decimal.D1 u' => 49 :: uint_chars u'
  | Decimal.D2 u' => 50 :: uint_chars u'
  | Decimal.D3 u' => 51 :: uint_chars u'
  | Decimal.D4 u' => 52 :: uint_chars u'
  | Decimal.D5 u' => 53 :: uint_chars u'
  | Decimal.D6 u' => 54 :: uint_chars u'
  | Decimal.D7 u' => 55 :: uint_chars u'
  | Decimal.D8 u' => 56 :: uint_chars u'
  | Decimal.D9 u' => 57 :: uint_chars u'
  end.

Definition nat_chars (z : Z) : jsstring := uint_chars (N.to_uint (Z.to_N z)).

Local Close Scope N_scope.

(** ** Numbers

    A finite number is kept as the exact decimal [m * 10^e] its literal
    denotes, in normal form ([m = 0] with [e = 0], or [m] not a multiple of
    ten); [NaN] is the only non-finite value kept.  IEEE-754 rounding and
    the infinities are outside this model: every number the program
    computes here ends in [TimeClip], which sends the infinities and [NaN]
    to the same invalid date. *)

Inductive number :=
| NaN
| Dec (m e : Z).

Fixpoint strip_zeros (fuel : nat) (m e : Z) : Z * Z :=
  match fuel with
  | O => (m, e)
  | S f => if (m mod 10 =? 0) then strip_zeros f (m / 10) (e + 1) else (m, e)
  end.

Definition dec_norm (m e : Z) : number :=
  if m =? 0 then Dec 0 0
  else let (m', e') := strip_zeros (Z.to_nat (Z.log2 (Z.abs m))) m e in Dec m' e'.

Definition num_of_Z (z : Z) : number := dec_norm z 0.

Definition num_mul (a b : number) : number :=
  match a, b with
  | Dec m1 e1, Dec m2 e2 => dec_norm (m1 * m2) (e1 + e2)
  | _, _ => NaN
  end.

Definition num_add (a b : number) : number :=
  match a, b with
  | Dec m1 e1, Dec m2 e2 =>
      let e := Z.min e1 e2 in
      dec_norm (m1 * 10 ^ (e1 - e) + m2 * 10 ^ (e2 - e)) e
  | _, _ => NaN
  end.

(** [ToIntegerOrInfinity] on a finite number: truncation towards zero. *)
Definition num_trunc (m e : Z) : Z :=
  if 0 <=? e then m * 10 ^ e else Z.quot m (10 ^ (- e)).

(** [Number::toString] (radix 10) of the specification, on the digits [s],
    their count [k] and the position [n] of the decimal point. *)
Definition zeros (n : Z) : jsstring := repeat 48%N (Z.to_nat n).

Definition num_to_string (x : number) : jsstring :=
  match x with
  | NaN => js "NaN"
  | Dec m e =>
      if m =? 0 then js "0"
      else
        let sign := if m <? 0 then js "-" else [] in
        let ds := nat_chars (Z.abs m) in
        let k := Z.of_nat (List.length ds) in
        let n := e + k in
        sign ++
        (if (k <=? n) && (n <=? 21) then ds ++ zeros (n - k)
         else if (0 <? n) && (n <=? 21) then
           firstn (Z.to_nat n) ds ++ js "." ++ skipn (Z.to_nat n) ds
         else if (-6 <? n) && (n <=? 0) then js "0." ++ zeros (- n) ++ ds
         else
           let ex := (if n - 1 <? 0 then js "-" else js "+")
                       ++ nat_chars (Z.abs (n - 1)) in
           match ds with
           | [d] => [d] ++ js "e" ++ ex
           | d :: ds' => [d] ++ js "." ++ ds' ++ js "e" ++ ex
           | [] => []
           end)
  end.

(** ** Values

    What [JSON.parse] can return, plus [undefined], which reading a missing
    property yields and an object literal can hold.  An object is the list
    of its own properties in enumeration order. *)

Inductive value :=
| VUndef
| VNull
| VBool (b : bool)
| VNum (n : number)
| VStr (s : jsstring)
| VArr (l : list value)
| VObj (o : list (jsstring * value)).

Definition obj (V : Type) := list (jsstring * V).

(** A canonical array index: ["0"], or digits without a leading zero,
    below [2^32 - 1]. *)
Definition array_index (k : jsstring) : option Z :=
  match k with
  | [] => None
  | c :: r =>
      if forallb is_digit k && ((negb (c =? 48)%N) || match r with [] => true | _ => false end)
      then (if (Z.of_nat (List.length k) <=? 10) && (digits_val 0 k <? 4294967295)
            then Some (digits_val 0 k) else None)
      else None
  end.

(** Whether a new key [k] is enumerated before the existing key [k']:
    array indices come first, in ascending order; other keys keep creation
    order. *)
Definition key_before (k k' : jsstring) : bool :=
  match array_index k, array_index k' with
  | Some i, Some i' => i <? i'
  | Some _, None => true
  | None, _ => false
  end.

Fixpoint obj_get {V} (o : obj V) (k : jsstring) : option V :=
  match o with
  | [] => None
  | (k', v) :: o' => if str_eqb k k' then Some v else obj_get o' k
  end.

(** [CreateDataProperty]: an existing key keeps its place. *)
Fixpoint obj_set {V} (o : obj V) (k : jsstring) (v : V) : obj V :=
  match o with
  | [] => [(k, v)]
  | (k', v') :: o' =>
      if str_eqb k k' then (k, v) :: o'
      else if key_before k k' then (k, v) :: (k', v') :: o'
      else (k', v') :: obj_set o' k v
  end.

(** [{...a, ...b}]: the properties of [b] layered over those of [a]. *)
Definition obj_assign {V} (a b : obj V) : obj V :=
  fold_left (fun o kv => obj_set o (fst kv) (snd kv)) b a.

(** ** JSON.parse

    The grammar of ECMA-404 as [JSON.parse] reads it.  The functions return
    the parsed item and the rest of the text; [None] is a [SyntaxError]. *)

Module JSON.

Local Open Scope N_scope.

Definition is_ws (c : N) : bool :=
  (c =? 9) || (c =? 10) || (c =? 13) || (c =? 32).

Fixpoint skip_ws (s : jsstring) : jsstring :=
  match s with
  | c :: r => if is_ws c then skip_ws r else s
  | [] => []
  end.

Definition hex4 (a b c d : N) : option N :=
  match hex_val a, hex_val b, hex_val c, hex_val d with
  | Some x, Some y, Some z, Some w => Some (((x * 16 + y) * 16 + z) * 16 + w)
  | _, _, _, _ => None
  end.

(** The character a single-letter escape stands for. *)
Definition unescape (e : N) : option N :=
  if e =? 34 then Some 34          (* quote *)
  else if e =? 92 then Some 92     (* backslash *)
  else if e =? 47 then Some 47     (* slash *)
  else if e =? 98 then Some 8      (* b: backspace *)
  else if e =? 102 then Some 12    (* f: form feed *)
  else if e =? 110 then Some 10    (* n: line feed *)
  else if e =? 114 then Some 13    (* r: carriage return *)
  else if e =? 116 then Some 9     (* t: tab *)
  else None.

Definition opt_cons (c : N) (r : option (jsstring * jsstring))
  : option (jsstring * jsstring) :=
  match r with
  | Some (s, rest) => Some (c :: s, rest)
  | None => None
  end.

(** The characters of a string literal, after its opening quote, up to
    and including its closing quote. *)
Fixpoint parse_chars (s : jsstring) : option (jsstring * jsstring) :=
  match s with
  | [] => None
  | c :: r =>
      if c =? dquote then Some ([], r)
      else if c =? backslash then
        match r with
        | [] => None
        | e :: r' =>
            if e =? 117 then
              match r' with
              | h1 :: h2 :: h3 :: h4 :: r'' =>
                  match hex4 h1 h2 h3 h4 with
                  | Some u => opt_cons u (parse_chars r'')
                  | None => None
                  end
              | _ => None
              end
            else
              match unescape e with
              | Some u => opt_cons u (parse_chars r')
              | None => None
              end
        end
      else if c <? 32 then None
      else opt_cons c (parse_chars r)
  end.

(** A number literal: an optional minus sign, an integer part (a lone
    zero, or digits without a leading zero), an optional fraction (a dot
    and at least one digit), an optional exponent (e or E, an optional
    sign, at least one digit). *)
Definition parse_number (s : jsstring) : option (number * jsstring) :=
  let (neg, s1) := match s with
                   | 45 :: r => (true, r)
                   | _ => (false, s)
                   end in
  let (ip, s2) := span_digits s1 in
  match ip with
  | [] => None
  | d :: ip' =>
      if (d =? 48) && negb (match ip' with [] => true | _ => false end) then
        (* the integer part is a lone zero or has no leading zero: after
           a leading zero the grammar stops, and no context accepts the
           digit that follows *)
        None
      else
        let fr := match s2 with
                  | 46 :: r => let (fp, s3) := span_digits r in
                               match fp with
                               | [] => None
                               | _ => Some (fp, s3)
                               end
                  | _ => Some ([], s2)
                  end in
        match fr with
        | None => None
        | Some (fp, s3) =>
            let ex := match s3 with
                      | c :: r =>
                          if (c =? 101) || (c =? 69) then
                            let (eneg, r1) := match r with
                                              | 45 :: r' => (true, r')
                                              | 43 :: r' => (false, r')
                                              | _ => (false, r)
                                              end in
                            let (ep, s4) := span_digits r1 in
                            match ep with
                            | [] => None
                            | _ => Some (((if eneg then -1 else 1) * digits_val 0 ep)%Z, s4)
                            end
                          else Some (0%Z, s3)
                      | [] => Some (0%Z, s3)
                      end in
            match ex with
            | None => None
            | Some (e, s4) =>
                let m := digits_val 0 (ip ++ fp) in
                Some (dec_norm (if neg then - m else m)%Z
                               (e - Z.of_nat (List.length fp))%Z, s4)
            end
        end
  end.

Definition build_obj (ms : list (jsstring * value)) : value :=
  VObj (obj_assign [] ms).

(** The rest of [s] after the character [c], if [s] starts with it. *)
Definition after (c : N) (s : jsstring) : option jsstring :=
  match s with
  | c' :: r => if c' =? c then Some r else None
  | [] => None
  end.

(** The rest of [s] after the word [p], if [s] starts with it. *)
Fixpoint after_word (p s : jsstring) : option jsstring :=
  match p with
  | [] => Some s
  | x :: p' => match after x s with
               | Some r => after_word p' r
               | None => None
               end
  end.

Fixpoint parse_value (fuel : nat) (s : jsstring) : option (value * jsstring) :=
  match fuel with
  | O => None
  | S f =>
      match skip_ws s with
      | [] => None
      | c :: r =>
          if c =? dquote then
            match parse_chars r with
            | Some (str, r') => Some (VStr str, r')
            | None => None
            end
          else if c =? 91 then           (* [ *)
            match after 93 (skip_ws r) with
            | Some r' => Some (VArr [], r')
            | None => match parse_elems f r with
                      | Some (vs, r') => Some (VArr vs, r')
                      | None => None
                      end
            end
          else if c =? 123 then          (* { *)
            match after 125 (skip_ws r) with
            | Some r' => Some (VObj [], r')
            | None => match parse_members f r with
                      | Some (ms, r') => Some (build_obj ms, r')
                      | None => None
                      end
            end
          else
            match after_word (js "true") (c :: r) with
            | Some r' => Some (VBool true, r')
            | None =>
            match after_word (js "false") (c :: r) with
            | Some r' => Some (VBool false, r')
            | None =>
            match after_word (js "null") (c :: r) with
            | Some r' => Some (VNull, r')
            | None =>
            match parse_number (c :: r) with
            | Some (n, r') => Some (VNum n, r')
            | None => None
            end end end end
      end
  end
with parse_elems (fuel : nat) (s : jsstring) : option (list value * jsstring) :=
  match fuel with
  | O => None
  | S f =>
      match parse_value f s with
      | None => None
      | Some (v, r) =>
          match skip_ws r with
          | [] => None
          | c :: r' =>
              if c =? 93 then Some ([v], r')         (* ] *)
              else if c =? 44 then                   (* , *)
                match parse_elems f r' with
                | Some (vs, r'') => Some (v :: vs, r'')
                | None => None
                end
              else None
          end
      end
  end
with parse_members (fuel : nat) (s : jsstring)
  : option (list (jsstring * value) * jsstring) :=
  match fuel with
  | O => None
  | S f =>
      match after dquote (skip_ws s) with
      | None => None
      | Some r =>
          match parse_chars r with
          | None => None
          | Some (k, r1) =>
              match after 58 (skip_ws r1) with       (* : *)
              | None => None
              | Some r2 =>
                  match parse_value f r2 with
                  | None => None
                  | Some (v, r3) =>
                      match skip_ws r3 with
                      | [] => None
                      | c :: r' =>
                          if c =? 125 then Some ([(k, v)], r')      (* } *)
                          else if c =? 44 then                      (* , *)
                            match parse_members f r' with
                            | Some (ms, r'') => Some ((k, v) :: ms, r'')
                            | None => None
                            end
                          else None
                      end
                  end
              end
          end
      end
  end.

(** [JSON.parse(text)]: one value, surrounded by optional white space.
    Every recursive call of [parse_value] follows at least one consumed
    character or is followed by one, so twice the length of the text is
    enough fuel (theorem [parse_fuel_enough]). *)
Definition parse (text : jsstring) : option value :=
  match parse_value (2 * List.length text + 2)%nat text with
  | Some (v, r) => match skip_ws r with
                   | [] => Some v
                   | _ => None
                   end
  | None => None
  end.

(** ** JSON.stringify *)

Definition is_high (c : N) : bool := (55296 <=? c) && (c <=? 56319).
Definition is_low (c : N) : bool := (56320 <=? c) && (c <=? 57343).

(** [UnicodeEscape]: backslash, u and four lower-case hexadecimal digits. *)
Definition uesc (c : N) : jsstring :=
  [backslash; 117; hex_chr (c / 4096); hex_chr ((c / 256) mod 16);
   hex_chr ((c / 16) mod 16); hex_chr (c mod 16)].

(** One code unit that is not a surrogate, as [QuoteJSONString] writes it. *)
Definition quote1 (c : N) : jsstring :=
  if c =? 8 then [backslash; 98]
  else if c =? 9 then [backslash; 116]
  else if c =? 10 then [backslash; 110]
  else if c =? 12 then [backslash; 102]
  else if c =? 13 then [backslash; 114]
  else if c =? 34 then [backslash; 34]
  else if c =? 92 then [backslash; 92]
  else if c <? 32 then uesc c
  else [c].

(** The body of [QuoteJSONString]: a surrogate pair is copied, a lone
    surrogate is escaped. *)
Fixpoint quote_chars (s : jsstring) : jsstring :=
  match s with
  | [] => []
  | c :: r =>
      if is_high c then
        match r with
        | d :: r' => if is_low d then c :: d :: quote_chars r'
                     else uesc c ++ quote_chars r
        | [] => uesc c
        end
      else if is_low c then uesc c ++ quote_chars r
      else quote1 c ++ quote_chars r
  end.

Definition quote (s : jsstring) : jsstring :=
  dquote :: quote_chars s ++ [dquote].

Fixpoint join (sep : jsstring) (parts : list jsstring) : jsstring :=
  match parts with
  | [] => []
  | [p] => p
  | p :: ps => p ++ sep ++ join sep ps
  end.

Definition newline : N := 10.

(** The text of an array or object with the parts [parts], between the
    brackets [l] and [r]: on one line without a gap, else one part a line
    at the indentation [stepback ++ gap]. *)
Definition wrap (gap stepback l r : jsstring) (parts : list jsstring) : jsstring :=
  match parts with
  | [] => l ++ r
  | _ =>
      match gap with
      | [] => l ++ join (js ",") parts ++ r
      | _ => l ++ [newline] ++ (stepback ++ gap)
               ++ join (js "," ++ [newline] ++ (stepback ++ gap)) parts
               ++ [newline] ++ stepback ++ r
      end
  end.

(** A property of an object: the quoted key, a colon (and a space when
    there is a gap), the value. *)
Definition member (gap k t : jsstring) : jsstring :=
  quote k ++ js ":" ++ match gap with [] => [] | _ => js " " end ++ t.

(** The results [f] gives on a list, those that are [None] left out. *)
Definition omap {A B} (f : A -> option B) : list A -> list B :=
  fix go (l : list A) : list B :=
    match l with
    | [] => []
    | x :: l' => match f x with
                 | Some y => y :: go l'
                 | None => go l'
                 end
    end.

(** [SerializeJSONProperty] with the gap [gap] and the current
    indentation [indent]; [None] is [undefined].  In an array an
    [undefined] element is written [null]; in an object a property whose
    value is [undefined] is left out. *)
Fixpoint serialize (gap indent : jsstring) (v : value) : option jsstring :=
  match v with
  | VUndef => None
  | VNull => Some (js "null")
  | VBool true => Some (js "true")
  | VBool false => Some (js "false")
  | VNum NaN => Some (js "null")
  | VNum n => Some (num_to_string n)
  | VStr s => Some (quote s)
  | VArr l =>
      Some (wrap gap indent (js "[") (js "]")
              (map (fun x => match serialize gap (indent ++ gap) x with
                             | Some t => t
                             | None => js "null"
                             end) l))
  | VObj o =>
      Some (wrap gap indent (js "{") (js "}")
              (omap (fun kx => match serialize gap (indent ++ gap) (snd kx) with
                               | Some t => Some (member gap (fst kx) t)
                               | None => None
                               end) o))
  end.

(** [JSON.stringify(v, null, 2)]. *)
Definition stringify2 (v : value) : option jsstring :=
  serialize (js "  ") [] v.

(** [JSON.stringify(v)]. *)
Definition stringify (v : value) : option jsstring :=
  serialize [] [] v.

End JSON.

(** ** Dates

    A time value is a number of milliseconds since the epoch, in the
    proleptic Gregorian calendar, UTC.  A [Date] holds a time value or is
    invalid ([None], the [NaN] of the specification). *)

Module Date.

Definition ms_per_day : Z := 86400000.
Definition max_time : Z := 8640000000000000.

Definition TimeClip (t : Z) : option Z :=
  if Z.abs t <=? max_time then Some t else None.

(** Year, month and day of a day number (days since 1970-01-01). *)
Definition civil_from_days (z : Z) : Z * Z * Z :=
  let z := z + 719468 in
  let era := z / 146097 in
  let doe := z - era * 146097 in
  let yoe := (doe - doe / 1460 + doe / 36524 - doe / 146096) / 365 in
  let doy := doe - (365 * yoe + yoe / 4 - yoe / 100) in
  let mp := (5 * doy + 2) / 153 in
  let d := doy - (153 * mp + 2) / 5 + 1 in
  let m := if mp <? 10 then mp + 3 else mp - 9 in
  ((yoe + era * 400) + (if m <=? 2 then 1 else 0), m, d).

(** Day number of a year, month and day ([MakeDay]); linear in the day,
    so a day past the end of its month runs into the next one. *)
Definition days_from_civil (y m d : Z) : Z :=
  let y := y - (if m <=? 2 then 1 else 0) in
  let era := y / 400 in
  let yoe := y - era * 400 in
  let doy := (153 * (if 2 <? m then m - 3 else m + 9) + 2) / 5 + d - 1 in
  let doe := yoe * 365 + yoe / 4 - yoe / 100 + doy in
  era * 146097 + doe - 719468.

Definition pad2 (n : Z) : jsstring :=
  [digit_chr (n / 10 mod 10); digit_chr (n mod 10)].
Definition pad3 (n : Z) : jsstring :=
  digit_chr (n / 100 mod 10) :: pad2 n.
Definition pad4 (n : Z) : jsstring :=
  digit_chr (n / 1000 mod 10) :: pad3 n.
Definition pad6 (n : Z) : jsstring :=
  digit_chr (n / 100000 mod 10) :: digit_chr (n / 10000 mod 10) :: pad4 n.

Definition year_string (y : Z) : jsstring :=
  if (0 <=? y) && (y <=? 9999) then pad4 y
  else (if y <? 0 then js "-" else js "+") ++ pad6 (Z.abs y).

(** [Date.prototype.toISOString] on a valid time value:
    [YYYY-MM-DDTHH:mm:ss.sssZ], the year on six signed digits outside
    0..9999. *)
Definition iso_string (t : Z) : jsstring :=
  let day := t / ms_per_day in
  let tid := t mod ms_per_day in
  let '(y, m, d) := civil_from_days day in
  year_string y ++ js "-" ++ pad2 m ++ js "-" ++ pad2 d ++ js "T"
    ++ pad2 (tid / 3600000) ++ js ":" ++ pad2 (tid / 60000 mod 60) ++ js ":"
    ++ pad2 (tid / 1000 mod 60) ++ js "." ++ pad3 (tid mod 1000) ++ js "Z".

(** Exactly [n] decimal digits. *)
Fixpoint take_digits (n : nat) (acc : Z) (s : jsstring) : option (Z * jsstring) :=
  match n with
  | O => Some (acc, s)
  | S n' =>
      match s with
      | c :: r => if is_digit c then take_digits n' (10 * acc + digit_val c) r
                  else None
      | [] => None
      end
  end.

Definition expect (c : N) (s : jsstring) : option jsstring :=
  match s with
  | c' :: r => if (c =? c')%N then Some r else None
  | [] => None
  end.

(** A year: four digits, or a sign and six digits, [-000000] excluded. *)
Definition parse_year (s : jsstring) : option (Z * jsstring) :=
  match s with
  | c :: r =>
      if (c =? 43)%N then take_digits 6 0 r
      else if (c =? 45)%N then
        match take_digits 6 0 r with
        | Some (y, r') => if y =? 0 then None else Some (- y, r')
        | None => None
        end
      else take_digits 4 0 s
  | [] => None
  end.

(** [Date.parse] on the complete UTC form of the date-time string format,
    the one [toISOString] writes.  The fields are checked as V8 checks
    them: month 1..12, day 1..31, hour 0..23 (or 24:00:00.000), minute and
    second 0..59.  Any other text is left to the engine's
    implementation-defined fallback; here it is an invalid date. *)
Definition parse (s : jsstring) : option Z :=
  match parse_year s with
  | None => None
  | Some (y, s) =>
  match expect 45 s with None => None | Some s =>
  match take_digits 2 0 s with None => None | Some (mo, s) =>
  match expect 45 s with None => None | Some s =>
  match take_digits 2 0 s with None => None | Some (d, s) =>
  match expect 84 s with None => None | Some s =>
  match take_digits 2 0 s with None => None | Some (h, s) =>
  match expect 58 s with None => None | Some s =>
  match take_digits 2 0 s with None => None | Some (mi, s) =>
  match expect 58 s with None => None | Some s =>
  match take_digits 2 0 s with None => None | Some (sec, s) =>
  match expect 46 s with None => None | Some s =>
  match take_digits 3 0 s with None => None | Some (ms, s) =>
  match expect 90 s with
  | Some [] =>
      if (1 <=? mo) && (mo <=? 12) && (1 <=? d) && (d <=? 31)
         && ((h <=? 23) || ((h =? 24) && (mi =? 0) && (sec =? 0) && (ms =? 0)))
         && (mi <=? 59) && (sec <=? 59)
      then TimeClip (days_from_civil y mo d * ms_per_day
                     + h * 3600000 + mi * 60000 + sec * 1000 + ms)
      else None
  | _ => None
  end end end end end end end end end end end end end
  end.

End Date.

(** ** Exceptions and coercions *)

Inductive exn :=
| Error (message : jsstring)   (* [new Error(message)] *)
| TypeError
| SyntaxError
| RangeError
| FetchError                   (* [fetch] rejected: no response *)
| FsError.                     (* a file-system call failed *)

(** What evaluating an expression gives: a value or an exception. *)
Inductive result (A : Type) :=
| Val (a : A)
| Err (e : exn).
Arguments Val {A} a.
Arguments Err {A} e.

Definition rbind {A B} (r : result A) (f : A -> result B) : result B :=
  match r with
  | Val a => f a
  | Err e => Err e
  end.

Module Coerce.

(** [ToBoolean]. *)
Definition truthy (v : value) : bool :=
  match v with
  | VUndef | VNull => false
  | VBool b => b
  | VNum NaN => false
  | VNum (Dec m _) => negb (m =? 0)
  | VStr [] => false
  | VStr _ => true
  | VArr _ | VObj _ => true
  end.

(** [ToString].  An array joins its elements with commas ([null] and
    [undefined] give the empty string).  A plain object gives
    ["[object Object]"] through [Object.prototype.toString], unless an own
    property [toString] hides that method: a value read from JSON is not
    callable, and neither method then yields a primitive. *)
Fixpoint ToString (v : value) : result jsstring :=
  match v with
  | VUndef => Val (js "undefined")
  | VNull => Val (js "null")
  | VBool true => Val (js "true")
  | VBool false => Val (js "false")
  | VNum n => Val (num_to_string n)
  | VStr s => Val s
  | VArr l =>
      rbind ((fix go (l : list value) : result (list jsstring) :=
                match l with
                | [] => Val []
                | x :: l' =>
                    rbind (match x with
                           | VUndef | VNull => Val []
                           | _ => ToString x
                           end)
                          (fun t => rbind (go l') (fun ts => Val (t :: ts)))
                end) l)
            (fun ts => Val (JSON.join (js ",") ts))
  | VObj o =>
      match obj_get o (js "toString") with
      | Some _ => Err TypeError
      | None => Val (js "[object Object]")
      end
  end.

(** [ToPrimitive]: primitives are themselves, objects and arrays their
    string. *)
Definition ToPrimitive (v : value) : result value :=
  match v with
  | VArr _ | VObj _ => rbind (ToString v) (fun s => Val (VStr s))
  | _ => Val v
  end.

Definition is_str_ws (c : N) : bool :=
  ((9 <=? c) && (c <=? 13) || (c =? 32) || (c =? 160) || (c =? 5760)
   || (8192 <=? c) && (c <=? 8202) || (c =? 8232) || (c =? 8233)
   || (c =? 8239) || (c =? 8287) || (c =? 12288) || (c =? 65279))%N.

Fixpoint trim_left (s : jsstring) : jsstring :=
  match s with
  | c :: r => if is_str_ws c then trim_left r else s
  | [] => []
  end.

Definition trim (s : jsstring) : jsstring :=
  rev (trim_left (rev (trim_left s))).

(** Value of a run of digits in base [b]; [None] if one is not a digit of
    that base. *)
Fixpoint radix_val (b : N) (acc : Z) (s : jsstring) : option Z :=
  match s with
  | [] => Some acc
  | c :: r => match hex_val c with
              | Some d => if (d <? b)%N then radix_val b (Z.of_N b * acc + Z.of_N d) r
                          else None
              | None => None
              end
  end.

(** An optional exponent part, which must end the text. *)
Definition str_exponent (s : jsstring) : option Z :=
  match s with
  | [] => Some 0
  | c :: r =>
      if ((c =? 101) || (c =? 69))%N then
        let (neg, r1) := match r with
                         | 45%N :: r' => (true, r')
                         | 43%N :: r' => (false, r')
                         | _ => (false, r)
                         end in
        match span_digits r1 with
        | ((_ :: _) as ep, []) => Some ((if neg then -1 else 1) * digits_val 0 ep)
        | _ => None
        end
      else None
  end.

(** [StringToNumber]: white space is trimmed; the empty string is zero;
    then a signed decimal literal or an unsigned literal in base 16, 8 or
    2.  [Infinity] is not a finite number and is given as [NaN] (see
    [number]). *)
Definition StringToNumber (s : jsstring) : number :=
  match trim s with
  | [] => Dec 0 0
  | 48%N :: x :: ((_ :: _) as r) =>
      let b := if ((x =? 120) || (x =? 88))%N then 16%N
               else if ((x =? 111) || (x =? 79))%N then 8%N
               else if ((x =? 98) || (x =? 66))%N then 2%N
               else 0%N in
      if (b =? 0)%N then
        (* not a prefix: a decimal literal starting with a zero *)
        let (ip, s1) := span_digits (48%N :: x :: r) in
        let (fp, s2) := match s1 with
                        | 46%N :: r' => span_digits r'
                        | _ => ([], s1)
                        end in
        match str_exponent s2 with
        | Some e => dec_norm (digits_val 0 (ip ++ fp)) (e - Z.of_nat (List.length fp))
        | None => NaN
        end
      else match radix_val b 0 r with
           | Some z => num_of_Z z
           | None => NaN
           end
  | t =>
      let (neg, s0) := match t with
                       | 45%N :: r => (true, r)
                       | 43%N :: r => (false, r)
                       | _ => (false, t)
                       end in
      let (ip, s1) := span_digits s0 in
      let (fp, s2) := match s1 with
                      | 46%N :: r' => span_digits r'
                      | _ => ([], s1)
                      end in
      match ip ++ fp with
      | [] => NaN
      | ds =>
          match str_exponent s2 with
          | Some e => dec_norm (if neg then - digits_val 0 ds else digits_val 0 ds)
                               (e - Z.of_nat (List.length fp))
          | None => NaN
          end
      end
  end.

(** [ToNumber]. *)
Definition ToNumber (v : value) : result number :=
  rbind (ToPrimitive v) (fun p =>
    match p with
    | VUndef => Val NaN
    | VNull => Val (Dec 0 0)
    | VBool true => Val (Dec 1 0)
    | VBool false => Val (Dec 0 0)
    | VNum n => Val n
    | VStr s => Val (StringToNumber s)
    | VArr _ | VObj _ => Val NaN
    end).

(** [a * b]. *)
Definition js_mul (a b : value) : result number :=
  rbind (ToNumber a) (fun x => rbind (ToNumber b) (fun y => Val (num_mul x y))).

(** [a + b]: concatenation as soon as one side is a string. *)
Definition js_plus (a b : value) : result value :=
  rbind (ToPrimitive a) (fun pa =>
  rbind (ToPrimitive b) (fun pb =>
    match pa, pb with
    | VStr x, _ => rbind (ToString pb) (fun y => Val (VStr (x ++ y)))
    | _, VStr y => rbind (ToString pa) (fun x => Val (VStr (x ++ y)))
    | _, _ => rbind (ToNumber pa) (fun x =>
              rbind (ToNumber pb) (fun y => Val (VNum (num_add x y))))
    end)).

(** [a === s] for a string literal [s]. *)
Definition strict_eq_str (a : value) (s : jsstring) : bool :=
  match a with
  | VStr x => str_eqb x s
  | _ => false
  end.

(** [v.k] for the property names this program reads (none of them is a
    built-in of a prototype): an own property of an object, [undefined]
    on any other value, a [TypeError] on [null] and [undefined]. *)
Definition get_prop (v : value) (k : jsstring) : result value :=
  match v with
  | VUndef | VNull => Err TypeError
  | VObj o => match obj_get o k with
              | Some x => Val x
              | None => Val VUndef
              end
  | _ => Val VUndef
  end.

(** [k in v], for the same property names: a [TypeError] on a
    primitive. *)
Definition has_prop (k : jsstring) (v : value) : result bool :=
  match v with
  | VObj o => match obj_get o k with
              | Some _ => Val true
              | None => Val false
              end
  | VArr _ => Val false
  | _ => Err TypeError
  end.

Fixpoint indexed (i : Z) (l : list value) : obj value :=
  match l with
  | [] => []
  | x :: l' => (nat_chars i, x) :: indexed (i + 1) l'
  end.

(** The own enumerable properties [{...v}] copies. *)
Definition own_props (v : value) : obj value :=
  match v with
  | VObj o => o
  | VArr l => indexed 0 l
  | VStr s => indexed 0 (map (fun c => VStr [c]) s)
  | _ => []
  end.

(** The time value of [new Date(v)]: a string is parsed, anything else is
    a number of milliseconds. *)
Definition num_time (n : number) : option Z :=
  match n with
  | NaN => None
  | Dec m e => Date.TimeClip (num_trunc m e)
  end.

Definition new_Date (v : value) : result (option Z) :=
  rbind (ToPrimitive v) (fun p =>
    match p with
    | VStr s => Val (Date.parse s)
    | _ => rbind (ToNumber p) (fun n => Val (num_time n))
    end).

(** [d.toISOString()]: a [RangeError] on an invalid date. *)
Definition toISOString (d : option Z) : result jsstring :=
  match d with
  | Some t => Val (Date.iso_string t)
  | None => Err RangeError
  end.

End Coerce.

(** ** The world outside the program

    The token file [~/.vibekit/token.json] and its directory, the
    environment variable [VIBEKIT_API_URL], the clock, the remote service
    and the log of what the program did to them. *)

Inductive file_state :=
| NoFile
| Unreadable                                 (* exists, but reading it fails *)
| File (mode : Z) (content : jsstring).

Record Disk := {
  dir : option Z;        (* mode of [~/.vibekit], if it exists *)
  file : file_state;     (* [~/.vibekit/token.json] *)
  writable : bool        (* whether creating and writing succeed *)
}.

Record Request := {
  url : jsstring;
  method : option jsstring;
  headers : obj jsstring;
  body : option jsstring
}.

Record Response := {
  status : Z;
  text : jsstring
}.

Inductive Event :=
| EvFetch (r : Request)
| EvSleep (ms : Z)
| EvStdout (s : jsstring)
| EvStderr (s : jsstring).

Record World := {
  disk : Disk;
  env_api_url : option jsstring;     (* [process.env.VIBEKIT_API_URL] *)
  now : Z;                           (* [Date.now()] *)
  (* the remote service: given what happened so far and a request, the
     time the exchange takes and its response, or no response *)
  server : list Event -> Request -> Z * option Response;
  trace : list Event
}.

Definition set_disk (d : Disk) (w : World) : World :=
  {| disk := d; env_api_url := env_api_url w; now := now w;
     server := server w; trace := trace w |}.

Definition log (e : Event) (elapsed : Z) (w : World) : World :=
  {| disk := disk w; env_api_url := env_api_url w; now := now w + elapsed;
     server := server w; trace := trace w ++ [e] |}.

(** How running a piece of code ends: it returns, it throws, or (in the
    model only) the fuel that bounds a loop runs out first. *)
Inductive outcome (A : Type) :=
| Ok (a : A)
| Throw (e : exn)
| Fuel.
Arguments Ok {A} a.
Arguments Throw {A} e.
Arguments Fuel {A}.

(** Code that runs in the world. *)
Definition M (A : Type) := World -> outcome A * World.

Definition ret {A} (a : A) : M A := fun w => (Ok a, w).
Definition throw {A} (e : exn) : M A := fun w => (Throw e, w).
Definition out_of_fuel {A} : M A := fun w => (Fuel, w).

Definition bind {A B} (m : M A) (f : A -> M B) : M B :=
  fun w => match m w with
           | (Ok a, w') => f a w'
           | (Throw e, w') => (Throw e, w')
           | (Fuel, w') => (Fuel, w')
           end.

(** [try { m } catch { h }]: what [m] did before it threw stays done. *)
Definition try_catch {A} (m : M A) (h : exn -> M A) : M A :=
  fun w => match m w with
           | (Throw e, w') => h e w'
           | r => r
           end.

Definition lift {A} (r : result A) : M A :=
  fun w => match r with
           | Val a => (Ok a, w)
           | Err e => (Throw e, w)
           end.

Declare Scope js_scope.
Delimit Scope js_scope with js_scope.
Notation "x <- m ;; k" := (bind m (fun x => k))
  (at level 61, m at next level, right associativity) : js_scope.
Notation "m ;;; k" := (bind m (fun _ => k))
  (at level 61, right associativity) : js_scope.
Local Open Scope js_scope.

Module Runtime.

Definition Date_now : M Z := fun w => (Ok (now w), w).

Definition getenv_api_url : M (option jsstring) :=
  fun w => (Ok (env_api_url w), w).

(** [existsSync(TOKEN_FILE)] and [existsSync(CONFIG_DIR)]. *)
Definition exists_file : M bool :=
  fun w => (Ok (match file (disk w) with NoFile => false | _ => true end), w).

Definition exists_dir : M bool :=
  fun w => (Ok (match dir (disk w) with None => false | Some _ => true end), w).

(** [readFileSync(TOKEN_FILE, "utf-8")]. *)
Definition readFileSync : M jsstring :=
  fun w => match file (disk w) with
           | File _ c => (Ok c, w)
           | _ => (Throw FsError, w)
           end.

(** [mkdirSync(CONFIG_DIR, { recursive: true, mode })]. *)
Definition mkdirSync (mode : Z) : M unit :=
  fun w =>
    match dir (disk w), writable (disk w) with
    | Some _, _ => (Ok tt, w)
    | None, true => (Ok tt, set_disk {| dir := Some mode;
                                        file := file (disk w);
                                        writable := true |} w)
    | None, false => (Throw FsError, w)
    end.

(** What a string becomes once encoded as UTF-8 and decoded again: a
    surrogate outside a pair is replaced by U+FFFD. *)
Fixpoint toWellFormed (s : jsstring) : jsstring :=
  match s with
  | [] => []
  | c :: r =>
      if JSON.is_high c then
        match r with
        | d :: r' => if JSON.is_low d then c :: d :: toWellFormed r'
                     else 65533%N :: toWellFormed r
        | [] => [65533%N]
        end
      else if JSON.is_low c then 65533%N :: toWellFormed r
      else c :: toWellFormed r
  end.

(** [writeFileSync(TOKEN_FILE, data, { mode })]: the mode is that of a
    file the call creates; [data] being [undefined] is a [TypeError].  A
    failed write leaves the file as it was. *)
Definition writeFileSync (data : option jsstring) (mode : Z) : M unit :=
  fun w =>
    match data with
    | None => (Throw TypeError, w)
    | Some s =>
        match dir (disk w), file (disk w), writable (disk w) with
        | Some _, NoFile, true =>
            (Ok tt, set_disk {| dir := dir (disk w);
                                file := File mode (toWellFormed s);
                                writable := true |} w)
        | Some _, File m _, true =>
            (Ok tt, set_disk {| dir := dir (disk w);
                                file := File m (toWellFormed s);
                                writable := true |} w)
        | _, _, _ => (Throw FsError, w)
        end
    end.

(** [unlinkSync(TOKEN_FILE)]. *)
Definition unlinkSync : M unit :=
  fun w =>
    match file (disk w), writable (disk w) with
    | NoFile, _ => (Throw FsError, w)
    | _, true => (Ok tt, set_disk {| dir := dir (disk w); file := NoFile;
                                     writable := true |} w)
    | _, false => (Throw FsError, w)
    end.

(** [await fetch(url, init)]: the request is logged, the clock advances
    by the duration of the exchange, and the promise resolves to the
    response or rejects. *)
Definition fetch (r : Request) : M Response :=
  fun w =>
    let (elapsed, resp) := server w (trace w) r in
    let w' := log (EvFetch r) elapsed w in
    match resp with
    | Some x => (Ok x, w')
    | None => (Throw FetchError, w')
    end.

Definition ok (r : Response) : bool :=
  (200 <=? status r) && (status r <=? 299).

(** [await response.json()]. *)
Definition json (r : Response) : M value :=
  match JSON.parse (text r) with
  | Some v => ret v
  | None => throw SyntaxError
  end.

(** [await response.json().catch(() => ({}))]. *)
Definition json_or_empty (r : Response) : M value :=
  try_catch (json r) (fun _ => ret (VObj [])).

(** The delay [setTimeout] applies: one millisecond when the argument is
    [NaN], below 1 or above 2147483647, else its integer part. *)
Definition timer_delay (n : number) : Z :=
  match n with
  | NaN => 1
  | Dec m e =>
      let d := num_trunc m e in
      if (1 <=? d) && (d <=? 2147483647) then d else 1
  end.

(** [await sleep(ms)] of [login.ts]: [setTimeout(resolve, ms)]. *)
Definition sleep (ms : number) : M unit :=
  fun w => (Ok tt, log (EvSleep (timer_delay ms)) (timer_delay ms) w).

Definition stdout_write (s : jsstring) : M unit :=
  fun w => (Ok tt, log (EvStdout s) 0 w).

Definition stderr_write (s : jsstring) : M unit :=
  fun w => (Ok tt, log (EvStderr s) 0 w).

(** [new Error(v)] for a [v] that is not [undefined]: the message is
    [ToString(v)]. *)
Definition new_Error (v : value) : result exn :=
  rbind (Coerce.ToString v) (fun s => Val (Error s)).

End Runtime.

(** ** [src/auth.ts]: token management *)

Module Auth.

Definition DIR_MODE : Z := 448.    (* 0o700 *)
Definition FILE_MODE : Z := 384.   (* 0o600 *)

(** [a || d] on an optional string: [undefined] and the empty string are
    falsy. *)
Definition or_default (a : option jsstring) (d : jsstring) : jsstring :=
  match a with
  | Some (c :: r) => c :: r
  | _ => d
  end.

(** [interface TokenData]: a Credential Record, and the object it is at
    run time. *)
Record User := {
  id : jsstring;
  email : jsstring;
  name : jsstring
}.

Record TokenData := {
  access_token : jsstring;
  refresh_token : jsstring;
  expires_at : jsstring;
  user : User
}.

Definition user_value (u : User) : value :=
  VObj [(js "id", VStr (id u));
        (js "email", VStr (email u));
        (js "name", VStr (name u))].

Definition token_value (t : TokenData) : value :=
  VObj [(js "access_token", VStr (access_token t));
        (js "refresh_token", VStr (refresh_token t));
        (js "expires_at", VStr (expires_at t));
        (js "user", user_value (user t))].

(** [loadToken()]: [null] is [VNull]. *)
Definition loadToken : M value :=
  ex <- Runtime.exists_file ;;
  if negb ex then ret VNull
  else
    try_catch
      (data <- Runtime.readFileSync ;;
       match JSON.parse data with
       | Some v => ret v
       | None => throw SyntaxError
       end)
      (fun _ => ret VNull).

(** [saveToken(tokenData)]. *)
Definition saveToken (tokenData : value) : M unit :=
  ex <- Runtime.exists_dir ;;
  (if negb ex then Runtime.mkdirSync DIR_MODE else ret tt) ;;;
  Runtime.writeFileSync (JSON.stringify2 tokenData) FILE_MODE.

(** [deleteToken()]. *)
Definition deleteToken : M unit :=
  try_catch Runtime.unlinkSync (fun _ => ret tt).

(** [getApiBaseUrl()]. *)
Definition getApiBaseUrl : M jsstring :=
  e <- Runtime.getenv_api_url ;;
  ret (or_default e (js "https://vibecoderskit.com")).

Definition json_headers : obj jsstring :=
  [(js "Content-Type", js "application/json")].

Definition refresh_request (base : jsstring) (refresh_token : value) : Request :=
  {| url := base ++ js "/api/mcp/auth/refresh";
     method := Some (js "POST");
     headers := json_headers;
     body := JSON.stringify (VObj [(js "refresh_token", refresh_token)]) |}.

(** [new Date(Date.now() + expires_in * 1000).toISOString()]. *)
Definition expiry_string (t : Z) (expires_in : value) : result jsstring :=
  rbind (Coerce.js_mul expires_in (VNum (Dec 1 3))) (fun ms =>
    Coerce.toISOString (Coerce.num_time (num_add (num_of_Z t) ms))).

(** [refreshAccessToken(token)]. *)
Definition refreshAccessToken (token : value) : M value :=
  try_catch
    (base <- getApiBaseUrl ;;
     rt <- lift (Coerce.get_prop token (js "refresh_token")) ;;
     response <- Runtime.fetch (refresh_request base rt) ;;
     if negb (Runtime.ok response) then ret VNull
     else
       data <- Runtime.json response ;;
       access <- lift (Coerce.get_prop data (js "access_token")) ;;
       t <- Runtime.Date_now ;;
       expires_in <- lift (Coerce.get_prop data (js "expires_in")) ;;
       iso <- lift (expiry_string t expires_in) ;;
       let updated :=
         VObj (obj_set (obj_set (Coerce.own_props token)
                                (js "access_token") access)
                       (js "expires_at") (VStr iso)) in
       saveToken updated ;;;
       ret updated)
    (fun _ => ret VNull).

End Auth.

(** ** [src/api.ts]: the authenticated request client *)

Module Api.

(** The [options] argument, a [RequestInit]: the fields the callers set. *)
Record RequestInit := {
  opt_method : option jsstring;
  opt_body : option jsstring;
  opt_headers : option (obj jsstring)
}.

Definition no_options : RequestInit :=
  {| opt_method := None; opt_body := None; opt_headers := None |}.

Definition not_authenticated : jsstring :=
  js "Not authenticated. Run `npx vibekit-mcp-server login` to connect your account.".

Definition authentication_expired : jsstring :=
  js "Authentication expired. Run `npx vibekit-mcp-server login` to reconnect.".

(** The object
    [{ "Content-Type": "application/json", Authorization: `Bearer ${t}`, ...options.headers }]. *)
Definition layered_headers (access_token : jsstring) (options : RequestInit)
  : obj jsstring :=
  obj_assign
    [(js "Content-Type", js "application/json");
     (js "Authorization", js "Bearer " ++ access_token)]
    (match opt_headers options with
     | Some h => h
     | None => []
     end).

(** The call [fetch(`${baseUrl}${endpoint}`, { ...options, headers: ... })],
    up to the [fetch] itself; reading the token can throw. *)
Definition authorized_request (baseUrl endpoint : jsstring)
    (options : RequestInit) (token : value) : result Request :=
  rbind (Coerce.get_prop token (js "access_token")) (fun a =>
  rbind (Coerce.ToString a) (fun access_token =>
    Val {| url := baseUrl ++ endpoint;
          method := opt_method options;
          headers := layered_headers access_token options;
          body := opt_body options |})).

(** What both the retry and the primary response end in (lines 56-62
    and 65-71): the error of a response that is not ok, the empty object
    for a 204, else the parsed body. *)
Definition settle (response : Response) : M value :=
  if negb (Runtime.ok response) then
    error <- Runtime.json_or_empty response ;;
    e <- lift (Coerce.get_prop error (js "error")) ;;
    err <- lift (Runtime.new_Error
                   (if Coerce.truthy e then e
                    else VStr (js "API error: "
                               ++ num_to_string (num_of_Z (status response))))) ;;
    throw err
  else if status response =? 204 then ret (VObj [])
  else Runtime.json response.

(** [expiresAt.getTime() - Date.now() < 60_000]; a comparison with [NaN]
    is false. *)
Definition near_expiry (expiresAt : option Z) (t : Z) : bool :=
  match expiresAt with
  | Some e => e - t <? 60000
  | None => false
  end.

(** Lines 18-25: the refresh before the call, and the token the call
    goes on with. *)
Definition proactive_refresh (token : value) : M value :=
  expires_at <- lift (Coerce.get_prop token (js "expires_at")) ;;
  expiresAt <- lift (Coerce.new_Date expires_at) ;;
  t <- Runtime.Date_now ;;
  if near_expiry expiresAt t then
    refreshed <- Auth.refreshAccessToken token ;;
    ret (if Coerce.truthy refreshed then refreshed else token)
  else ret token.

(** Lines 11-36: everything up to the response of the primary call; the
    token and the base URL in use go with it. *)
Definition primary_call (endpoint : jsstring) (options : RequestInit)
  : M (value * jsstring * Response) :=
  token <- Auth.loadToken ;;
  if negb (Coerce.truthy token) then throw (Error not_authenticated)
  else
    token <- proactive_refresh token ;;
    baseUrl <- Auth.getApiBaseUrl ;;
    request <- lift (authorized_request baseUrl endpoint options token) ;;
    response <- Runtime.fetch request ;;
    ret (token, baseUrl, response).

(** Lines 40-62: the body of [if (response.status === 401)]. *)
Definition reactive_refresh (baseUrl endpoint : jsstring)
    (options : RequestInit) (token : value) : M value :=
  refreshed <- Auth.refreshAccessToken token ;;
  if negb (Coerce.truthy refreshed) then throw (Error authentication_expired)
  else
    request <- lift (authorized_request baseUrl endpoint options refreshed) ;;
    retry <- Runtime.fetch request ;;
    settle retry.

(** [apiRequest(endpoint, options)]. *)
Definition apiRequest (endpoint : jsstring) (options : RequestInit) : M value :=
  call <- primary_call endpoint options ;;
  let '(token, baseUrl, response) := call in
  if status response =? 401 then
    reactive_refresh baseUrl endpoint options token
  else settle response.

End Api.

(** ** [src/login.ts]: the device-authorization flow *)

Module Login.

(** [const API_BASE_URL = process.env.VIBEKIT_API_URL || "https://vibecoderskit.ai"]. *)
Definition API_BASE_URL : M jsstring :=
  e <- Runtime.getenv_api_url ;;
  ret (Auth.or_default e (js "https://vibecoderskit.ai")).

Definition device_code_request (base : jsstring) : Request :=
  {| url := base ++ js "/api/mcp/auth/device/code";
     method := Some (js "POST");
     headers := Auth.json_headers;
     body := JSON.stringify
               (VObj [(js "client_id", VStr (js "claude-code"));
                      (js "scope", VStr (js "prompts:read prompts:write"))]) |}.

Definition token_request (base : jsstring) (deviceCode : value) : Request :=
  {| url := base ++ js "/api/mcp/auth/device/token";
     method := Some (js "POST");
     headers := Auth.json_headers;
     body := JSON.stringify (VObj [(js "device_code", deviceCode)]) |}.

(** [requestDeviceCode()]. *)
Definition requestDeviceCode : M value :=
  base <- API_BASE_URL ;;
  response <- Runtime.fetch (device_code_request base) ;;
  if negb (Runtime.ok response) then
    error <- Runtime.json_or_empty response ;;
    e <- lift (Coerce.get_prop error (js "error")) ;;
    err <- lift (Runtime.new_Error
                   (if Coerce.truthy e then e
                    else VStr (js "Failed to get device code: "
                               ++ num_to_string (num_of_Z (status response))))) ;;
    throw err
  else Runtime.json response.

Definition timed_out : jsstring :=
  js "Authorization timed out. Please try again.".

(** How one turn of the [while (true)] loop of [pollForToken] ends, when
    it does not throw. *)
Inductive poll_next :=
| Return (data : value)
| Continue (interval : value).

(** The body of the loop, with the current [interval]. *)
Definition poll_iteration (deviceCode interval : value) : M poll_next :=
  ms <- lift (Coerce.js_mul interval (VNum (Dec 1 3))) ;;
  Runtime.sleep ms ;;;
  base <- API_BASE_URL ;;
  response <- Runtime.fetch (token_request base deviceCode) ;;
  data <- Runtime.json response ;;
  has_token <- lift (Coerce.has_prop (js "access_token") data) ;;
  if has_token then ret (Return data)
  else
    error <- lift (Coerce.get_prop data (js "error")) ;;
    if Coerce.strict_eq_str error (js "authorization_pending") then
      Runtime.stdout_write (js ".") ;;;
      ret (Continue interval)
    else if Coerce.strict_eq_str error (js "slow_down") then
      interval' <- lift (Coerce.js_plus interval (VNum (Dec 5 0))) ;;
      ret (Continue interval')
    else if Coerce.strict_eq_str error (js "expired_token") then
      throw (Error timed_out)
    else
      description <- lift (Coerce.get_prop data (js "error_description")) ;;
      err <- lift (Runtime.new_Error
                     (if Coerce.truthy description then description
                      else if Coerce.truthy error then error
                      else VStr (js "Authentication failed"))) ;;
      throw err.

(** [pollForToken(deviceCode, interval)]; the loop has no bound of its
    own, [fuel] bounds the number of turns the model follows. *)
Fixpoint pollForToken (fuel : nat) (deviceCode interval : value) : M value :=
  match fuel with
  | O => out_of_fuel
  | S fuel' =>
      next <- poll_iteration deviceCode interval ;;
      match next with
      | Return data => ret data
      | Continue interval' => pollForToken fuel' deviceCode interval'
      end
  end.

(** [saveToken(token)] of [login.ts]. *)
Definition saveToken (token : value) : M unit :=
  ex <- Runtime.exists_dir ;;
  (if negb ex then Runtime.mkdirSync Auth.DIR_MODE else ret tt) ;;;
  access_token <- lift (Coerce.get_prop token (js "access_token")) ;;
  refresh_token <- lift (Coerce.get_prop token (js "refresh_token")) ;;
  t <- Runtime.Date_now ;;
  expires_in <- lift (Coerce.get_prop token (js "expires_in")) ;;
  iso <- lift (Auth.expiry_string t expires_in) ;;
  user <- lift (Coerce.get_prop token (js "user")) ;;
  let tokenData :=
    VObj [(js "access_token", access_token);
          (js "refresh_token", refresh_token);
          (js "expires_at", VStr iso);
          (js "user", user)] in
  Runtime.writeFileSync (JSON.stringify2 tokenData) Auth.FILE_MODE.

(** [console.log(s)]. *)
Definition console_log (s : jsstring) : M unit :=
  Runtime.stdout_write (s ++ [JSON.newline]).

Definition console_error (s : jsstring) : M unit :=
  Runtime.stderr_write (s ++ [JSON.newline]).

Definition rule : jsstring := repeat 9473%N 62.

(** [`${v.k}`]. *)
Definition show_prop (v : value) (k : jsstring) : M jsstring :=
  x <- lift (Coerce.get_prop v k) ;;
  lift (Coerce.ToString x).

(** [error.message].  The text of an exception the engine raises is the
    engine's own; its name stands for it here. *)
Definition message_of (e : exn) : jsstring :=
  match e with
  | Error m => m
  | TypeError => js "TypeError"
  | SyntaxError => js "SyntaxError"
  | RangeError => js "RangeError"
  | FetchError => js "fetch failed"
  | FsError => js "FsError"
  end.

(** Steps 1 and 2 of [main]: request a device code and show the
    instructions. *)
Definition authorize : M value :=
  deviceCode <- requestDeviceCode ;;
  console_log rule ;;;
  console_log [] ;;;
  console_log (js "  Open this URL in your browser:") ;;;
  uri <- show_prop deviceCode (js "verification_uri") ;;
  console_log (js "  " ++ uri) ;;;
  console_log [] ;;;
  user_code <- show_prop deviceCode (js "user_code") ;;
  console_log (js "  Enter this code: " ++ user_code) ;;;
  console_log [] ;;;
  console_log rule ;;;
  console_log [] ;;;
  console_log (js "Waiting for authorization") ;;;
  ret deviceCode.

(** Step 3 of [main]: [pollForToken(deviceCode.device_code, deviceCode.interval)]. *)
Definition poll (fuel : nat) (deviceCode : value) : M value :=
  device_code <- lift (Coerce.get_prop deviceCode (js "device_code")) ;;
  interval <- lift (Coerce.get_prop deviceCode (js "interval")) ;;
  pollForToken fuel device_code interval.

(** Step 4 of [main] and the report that follows it. *)
Definition save_and_report (token : value) : M Z :=
  saveToken token ;;;
  console_log [JSON.newline] ;;;
  console_log rule ;;;
  console_log [] ;;;
  user <- lift (Coerce.get_prop token (js "user")) ;;
  name <- show_prop user (js "name") ;;
  user <- lift (Coerce.get_prop token (js "user")) ;;
  email <- show_prop user (js "email") ;;
  console_log (js "  " ++ [10003%N] ++ js " Connected as " ++ name
               ++ js " (" ++ email ++ js ")") ;;;
  console_log [] ;;;
  console_log (js "  You can now use VibeCodersKit tools in Claude Code:") ;;;
  console_log (js "  " ++ [8226%N] ++ js " list_prompts - View your saved prompts") ;;;
  console_log (js "  " ++ [8226%N] ++ js " get_prompt - Get prompt content by name or ID") ;;;
  console_log (js "  " ++ [8226%N] ++ js " save_prompt - Save new prompts to your library") ;;;
  console_log [] ;;;
  console_log (rule ++ [JSON.newline]) ;;;
  ret 0.

(** The two lines [main] prints before its [try] block. *)
Definition banner : M unit :=
  console_log ([JSON.newline; 55356%N; 57256%N] ++ js " VibeCodersKit Login"
               ++ [JSON.newline]) ;;;
  console_log (js "Connecting your VibeCodersKit account to Claude Code..."
               ++ [JSON.newline]).

(** [main()]; the result is the exit status of the process: 0 when the
    function returns, 1 from [process.exit(1)] in the [catch] block. *)
Definition main (fuel : nat) : M Z :=
  banner ;;;
  try_catch
    (deviceCode <- authorize ;;
     token <- poll fuel deviceCode ;;
     save_and_report token)
    (fun error =>
       console_error ([JSON.newline] ++ js "Error: " ++ message_of error) ;;;
       ret 1).

End Login.

(** ** Doubles

    The arithmetic of [vck_status] is that of IEEE-754 doubles.  A finite
    double is kept as the pair [(m, e)] of the number [m * 2^e], with
    [2^52 <= |m| < 2^53] unless it is zero; a quotient is rounded to the
    nearest double, ties to the even mantissa.  The numbers here are far
    from the ends of the range of doubles, so neither an infinity nor a
    subnormal number can come up. *)

Module Double.

(** The integer nearest to [p / q], ties to even; [0 <= p] and [0 < q]. *)
Definition round_fraction (p q : Z) : Z :=
  let m := p / q in
  let r := p mod q in
  if 2 * r <? q then m
  else if q <? 2 * r then m + 1
  else if Z.even m then m else m + 1.

(** The double nearest to [p / q], for [0 < p] and [0 < q]. *)
Definition fl_pos (p q : Z) : Z * Z :=
  let k := Z.log2 p - Z.log2 q in
  (* l is the integer part of the binary logarithm of p / q *)
  let l := if (if 0 <=? k then q * 2 ^ k <=? p else q <=? p * 2 ^ (- k))
           then k else k - 1 in
  let e := l - 52 in
  let m := if 0 <=? e then round_fraction p (q * 2 ^ e)
           else round_fraction (p * 2 ^ (- e)) q in
  if m =? 2 ^ 53 then (2 ^ 52, e + 1) else (m, e).

(** The double nearest to [p / q], for [0 < q]. *)
Definition fl (p q : Z) : Z * Z :=
  if p =? 0 then (0, 0)
  else if 0 <? p then fl_pos p q
  else let (m, e) := fl_pos (- p) q in (- m, e).

(** [x / k] for a double [x] and an integer [0 < k]. *)
Definition div (x : Z * Z) (k : Z) : Z * Z :=
  let (m, e) := x in
  if 0 <=? e then fl (m * 2 ^ e) k else fl m (k * 2 ^ (- e)).

(** [Math.round(x)]: the integer nearest to [x], ties towards positive
    infinity. *)
Definition round (x : Z * Z) : Z :=
  let (m, e) := x in
  if 0 <=? e then m * 2 ^ e else (m + 2 ^ (- e - 1)) / 2 ^ (- e).

End Double.

(** ** Tool results *)

(** [{ content: [{ type: "text", text: s }] }]. *)
Definition text_result (s : jsstring) : value :=
  VObj [(js "content",
         VArr [VObj [(js "type", VStr (js "text")); (js "text", VStr s)]])].

(** [args?.k]: [undefined] when [args] is [null] or [undefined]. *)
Definition opt_prop (args : value) (k : jsstring) : result value :=
  match args with
  | VUndef | VNull => Val VUndef
  | _ => Coerce.get_prop args k
  end.

(** [`${v}`] in a template literal. *)
Definition show (v : value) : result jsstring := Coerce.ToString v.

(** ** [src/tools/status.ts]: the status and logout tools *)

Module Status.

Definition not_connected : jsstring :=
  js "Not connected. Run `npx vibekit-mcp-server login` to connect your account.".

Definition expired_hint : jsstring :=
  [JSON.newline]
    ++ js "Your token has expired. Run `npx vibekit-mcp-server login` to reconnect.".

(** [Math.round((expiresAt.getTime() - Date.now()) / 1000 / 60)], for a
    valid date. *)
Definition minutes_left (expiresAt t : Z) : Z :=
  Double.round (Double.div (Double.div (Double.fl (expiresAt - t) 1) 1000) 60).

(** [.filter(Boolean)] on strings: the empty ones are left out. *)
Definition non_empty (l : list jsstring) : list jsstring :=
  filter (fun s => match s with [] => false | _ => true end) l.

(** The case ["vck_status"] of [handleStatusTool] (lines 38-68). *)
Definition vck_status : M value :=
  token <- Auth.loadToken ;;
  if negb (Coerce.truthy token) then ret (text_result not_connected)
  else
    ea <- lift (Coerce.get_prop token (js "expires_at")) ;;
    expiresAt <- lift (Coerce.new_Date ea) ;;
    t <- Runtime.Date_now ;;
    let isExpired := match expiresAt with
                     | Some e => e <? t
                     | None => false
                     end in
    t' <- Runtime.Date_now ;;
    let expiresIn := match expiresAt with
                     | Some e => num_to_string (num_of_Z (minutes_left e t'))
                     | None => js "NaN"
                     end in
    user <- lift (Coerce.get_prop token (js "user")) ;;
    n <- lift (Coerce.get_prop user (js "name")) ;;
    name <- lift (show n) ;;
    user <- lift (Coerce.get_prop token (js "user")) ;;
    e <- lift (Coerce.get_prop user (js "email")) ;;
    email <- lift (show e) ;;
    ret (text_result
           (JSON.join [JSON.newline]
              (non_empty
                 [js "Connected to VibeCodersKit";
                  [];
                  js "  Account: " ++ name ++ js " (" ++ email ++ js ")";
                  js "  Token:   "
                    ++ (if isExpired then js "EXPIRED"
                        else js "valid for " ++ expiresIn ++ js " minutes");
                  if isExpired then expired_hint else []]))).

Definition already_disconnected : jsstring :=
  js "Already disconnected " ++ [8212%N] ++ js " no stored credentials found.".

(** [x !== false]. *)
Definition not_false (x : value) : bool :=
  match x with
  | VBool false => false
  | _ => true
  end.

Definition revoke_request (base access_token : jsstring) : Request :=
  {| url := base ++ js "/api/mcp/auth/revoke";
     method := Some (js "POST");
     headers := [(js "Content-Type", js "application/json");
                 (js "Authorization", js "Bearer " ++ access_token)];
     body := None |}.

(** Lines 81-91: the revocation, best effort. *)
Definition revoke (token : value) : M unit :=
  try_catch
    (base <- Auth.getApiBaseUrl ;;
     a <- lift (Coerce.get_prop token (js "access_token")) ;;
     access_token <- lift (show a) ;;
     Runtime.fetch (revoke_request base access_token) ;;;
     ret tt)
    (fun _ => ret tt).

(** The case ["vck_logout"] of [handleStatusTool] (lines 70-102). *)
Definition vck_logout (args : value) : M value :=
  token <- Auth.loadToken ;;
  if negb (Coerce.truthy token) then ret (text_result already_disconnected)
  else
    r <- lift (opt_prop args (js "revoke")) ;;
    let shouldRevoke := not_false r in
    (if shouldRevoke then revoke token else ret tt) ;;;
    Auth.deleteToken ;;;
    user <- lift (Coerce.get_prop token (js "user")) ;;
    e <- lift (Coerce.get_prop user (js "email")) ;;
    email <- lift (show e) ;;
    ret (text_result (js "Disconnected " ++ email ++ js " from VibeCodersKit."
                      ++ (if shouldRevoke then js " Token revoked server-side."
                          else []))).

End Status.

(** ** [src/index.ts]: the resource handlers *)

Module Index.

(** [(p) => ({ uri, name, description, mimeType })] of the
    [ListResources] handler; the object has the property [description]
    also when its value is [undefined]. *)
Definition resource_of (p : value) : result value :=
  rbind (Coerce.get_prop p (js "id")) (fun i =>
  rbind (show i) (fun id =>
  rbind (Coerce.get_prop p (js "name")) (fun name =>
  rbind (Coerce.get_prop p (js "description")) (fun d =>
    Val (VObj [(js "uri", VStr (js "vibekit://prompt/" ++ id));
               (js "name", name);
               (js "description", if Coerce.truthy d then d else VUndef);
               (js "mimeType", VStr (js "text/plain"))]))))).

Fixpoint map_result {A B} (f : A -> result B) (l : list A) : result (list B) :=
  match l with
  | [] => Val []
  | x :: l' => rbind (f x) (fun y => rbind (map_result f l') (fun ys => Val (y :: ys)))
  end.

(** [v.map(f)] on a value read from JSON: an array is mapped in order;
    on anything else [map] is not a function. *)
Definition array_map (f : value -> result value) (v : value) : result (list value) :=
  match v with
  | VArr l => map_result f l
  | _ => Err TypeError
  end.

Definition no_resources : value := VObj [(js "resources", VArr [])].

(** The [ListResourcesRequestSchema] handler (lines 97-114). *)
Definition list_resources : M value :=
  try_catch
    (data <- Api.apiRequest (js "/api/mcp/prompts?limit=50") Api.no_options ;;
     prompts <- lift (Coerce.get_prop data (js "prompts")) ;;
     resources <- lift (array_map resource_of prompts) ;;
     ret (VObj [(js "resources", VArr resources)]))
    (fun _ => ret no_resources).

(** A line terminator, which [.] does not match. *)
Definition is_line_terminator (c : N) : bool :=
  ((c =? 10) || (c =? 13) || (c =? 8232) || (c =? 8233))%N.

(** [uri.match(/^vibekit:\/\/prompt\/(.+)$/)]: the first group when the
    text matches.  Without the [m] flag [^] and [$] are the two ends of
    the text, and [.+] is one or more code units none of which is a line
    terminator. *)
Definition match_prompt_uri (uri : jsstring) : option jsstring :=
  match JSON.after_word (js "vibekit://prompt/") uri with
  | Some (c :: r) =>
      if forallb (fun x => negb (is_line_terminator x)) (c :: r)
      then Some (c :: r) else None
  | _ => None
  end.

(** The [ReadResourceRequestSchema] handler (lines 117-136). *)
Definition read_resource (uri : jsstring) : M value :=
  match match_prompt_uri uri with
  | None => throw (Error (js "Invalid resource URI: " ++ uri))
  | Some id =>
      prompt <- Api.apiRequest (js "/api/mcp/prompts/" ++ id) Api.no_options ;;
      content <- lift (Coerce.get_prop prompt (js "content")) ;;
      ret (VObj [(js "contents",
                  VArr [VObj [(js "uri", VStr uri);
                              (js "mimeType", VStr (js "text/plain"));
                              (js "text", content)]])])
  end.

End Index.

(** * Vocabulary of the properties *)

(** The base URL the client uses in a world. *)
Definition base_url (w : World) : jsstring :=
  Auth.or_default (env_api_url w) (js "https://vibecoderskit.com").

(** Whether the token file can be written: creating and writing succeed,
    and what is there, if anything, is a readable file. *)
Definition can_save (d : Disk) : bool :=
  writable d && match file d with
                | Unreadable => false
                | _ => true
                end.

(** The disk after the text [j] has been saved. *)
Definition saved (d : Disk) (j : jsstring) : Disk :=
  {| dir := Some match dir d with
                 | Some m => m
                 | None => Auth.DIR_MODE
                 end;
     file := File match file d with
                  | File m _ => m
                  | _ => Auth.FILE_MODE
                  end (Runtime.toWellFormed j);
     writable := true |}.

(** The request a refresh sends. *)
Definition refresh_call (w : World) (rt : value) : Request :=
  Auth.refresh_request (base_url w) rt.

(** The integer a number with a non-negative exponent denotes. *)
Definition num_val (n : number) : Z :=
  match n with
  | Dec m e => m * 10 ^ e
  | NaN => 0
  end.

Definition num_whole (n : number) : Prop :=
  match n with
  | Dec _ e => 0 <= e
  | NaN => False
  end.

(** The world once the refresh request has been answered. *)
Definition answered (w : World) (rt : value) : World :=
  log (EvFetch (refresh_call w rt))
      (fst (server w (trace w) (refresh_call w rt))) w.

(** The record a successful refresh builds:
    [{ ...token, access_token, expires_at }]. *)
Definition updated_token (token access : value) (iso : jsstring) : value :=
  VObj (obj_set (obj_set (Coerce.own_props token) (js "access_token") access)
                (js "expires_at") (VStr iso)).

(** ** Scenarios

    Worlds to run the program in: a stored record, a clock and a scripted
    service. *)

Module Scenario.

(** A JSON string literal with the ASCII content [s]. *)
Definition jq (s : string) : jsstring := dquote :: js s ++ [dquote].

Definition ann : Auth.TokenData :=
  {| Auth.access_token := js "A1";
     Auth.refresh_token := js "R1";
     Auth.expires_at := js "2023-11-14T22:13:10.000Z";
     Auth.user := {| Auth.id := js "u1";
                     Auth.email := js "ann@example.test";
                     Auth.name := js "Ann" |} |}.

(** The instant [ann]'s token expires, and instants around it. *)
Definition expiry : Z := 1700000000000 - 10000.
Definition t0 : Z := 1700000000000.

Definition stored (t : Auth.TokenData) : file_state :=
  match JSON.stringify2 (Auth.token_value t) with
  | Some j => File Auth.FILE_MODE j
  | None => NoFile
  end.

Definition world (f : file_state) (t : Z)
    (srv : list Event -> Request -> Z * option Response) : World :=
  {| disk := {| dir := Some Auth.DIR_MODE; file := f; writable := true |};
     env_api_url := Some (js "https://api.example.test");
     now := t;
     server := srv;
     trace := [] |}.

Definition is_refresh (r : Request) : bool :=
  str_eqb (url r) (js "https://api.example.test/api/mcp/auth/refresh").

Definition fetches (tr : list Event) : nat :=
  List.length (filter (fun e => match e with EvFetch _ => true | _ => false end) tr).

Definition refreshed_body : jsstring :=
  js "{" ++ jq "access_token" ++ js ":" ++ jq "A2" ++ js ","
    ++ jq "expires_in" ++ js ":3600}".

Definition ok_body : jsstring := js "{" ++ jq "ok" ++ js ":true}".

Definition respond (st : Z) (b : jsstring) : Z * option Response :=
  (5, Some {| status := st; text := b |}).

(** Refresh works; every other call succeeds. *)
Definition healthy (_ : list Event) (r : Request) : Z * option Response :=
  if is_refresh r then respond 200 refreshed_body else respond 200 ok_body.





(** No network. *)
Definition offline (_ : list Event) (_ : Request) : Z * option Response :=
  (5, None).

(** The device flow. *)
Definition is_token_poll (r : Request) : bool :=
  str_eqb (url r) (js "https://api.example.test/api/mcp/auth/device/token").

Definition polls (h : list Event) : nat :=
  List.length (filter (fun e => match e with
                                | EvFetch q => is_token_poll q
                                | _ => false
                                end) h).

Definition device_code_body : jsstring :=
  js "{" ++ jq "device_code" ++ js ":" ++ jq "D1" ++ js ","
    ++ jq "user_code" ++ js ":" ++ jq "VIBE-1234" ++ js ","
    ++ jq "verification_uri" ++ js ":" ++ jq "https://api.example.test/device"
    ++ js "," ++ jq "expires_in" ++ js ":600," ++ jq "interval" ++ js ":5}".

Definition token_body : jsstring :=
  js "{" ++ jq "access_token" ++ js ":" ++ jq "A1" ++ js ","
    ++ jq "refresh_token" ++ js ":" ++ jq "R1" ++ js ","
    ++ jq "token_type" ++ js ":" ++ jq "Bearer" ++ js ","
    ++ jq "expires_in" ++ js ":3600," ++ jq "user" ++ js ":{"
    ++ jq "id" ++ js ":" ++ jq "u1" ++ js ","
    ++ jq "email" ++ js ":" ++ jq "ann@example.test" ++ js ","
    ++ jq "name" ++ js ":" ++ jq "Ann" ++ js "}}".

Definition error_body (code : string) : jsstring :=
  js "{" ++ jq "error" ++ js ":" ++ jq code ++ js "}".

(** The user approves after two polls. *)
Definition approving (h : list Event) (r : Request) : Z * option Response :=
  if is_token_poll r then
    if (polls h <? 2)%nat then respond 400 (error_body "authorization_pending")
    else respond 200 token_body
  else respond 200 device_code_body.




End Scenario.

(** Whether a value has the shape of [TokenData]: the three strings and a
    [user] with its three strings. *)
Definition is_string (v : option value) : bool :=
  match v with
  | Some (VStr _) => true
  | _ => false
  end.

Definition complete_record (v : value) : bool :=
  match v with
  | VObj o =>
      is_string (obj_get o (js "access_token"))
      && is_string (obj_get o (js "refresh_token"))
      && is_string (obj_get o (js "expires_at"))
      && match obj_get o (js "user") with
         | Some (VObj u) =>
             is_string (obj_get u (js "id"))
             && is_string (obj_get u (js "email"))
             && is_string (obj_get u (js "name"))
         | _ => false
         end
  | _ => false
  end.

Fixpoint prefixb (p s : jsstring) : bool :=
  match p, s with
  | [], _ => true
  | x :: p', y :: s' => (x =? y)%N && prefixb p' s'
  | _ :: _, [] => false
  end.

Fixpoint contains (p s : jsstring) : bool :=
  prefixb p s || match s with
                 | [] => false
                 | _ :: s' => contains p s'
                 end.

(** The clock an hour before [ann]'s token expires. *)
Definition early : Z := Scenario.expiry - 3600000.


(** Code that leaves the disk as it found it. *)
Definition keeps_disk {A} (m : M A) : Prop :=
  forall w, disk (snd (m w)) = disk w.

(** The base URL of the login flow in a world. *)
Definition login_base (w : World) : jsstring :=
  Auth.or_default (env_api_url w) (js "https://vibecoderskit.ai").

(** The world after the sleep of a turn of the loop. *)
Definition slept (w : World) (ms : number) : World :=
  log (EvSleep (Runtime.timer_delay ms)) (Runtime.timer_delay ms) w.

(** What the token endpoint answers in a turn, and the world then. *)
Definition poll_answer (w : World) (ms : number) (deviceCode : value)
  : Z * option Response :=
  server (slept w ms) (trace (slept w ms))
         (Login.token_request (login_base w) deviceCode).

Definition polled (w : World) (ms : number) (deviceCode : value) : World :=
  log (EvFetch (Login.token_request (login_base w) deviceCode))
      (fst (poll_answer w ms deviceCode)) (slept w ms).

(** The values this development follows through a file: no [undefined]
    and no number in them, and every object with its properties in
    enumeration order, each name once. *)
Fixpoint clean (v : value) : Prop :=
  match v with
  | VUndef | VNum _ => False
  | VNull | VBool _ | VStr _ => True
  | VArr l =>
      (fix all (l : list value) : Prop :=
         match l with
         | [] => True
         | x :: l' => clean x /\ all l'
         end) l
  | VObj o =>
      obj_assign [] o = o
      /\ (fix all (o : list (jsstring * value)) : Prop :=
            match o with
            | [] => True
            | (_, x) :: o' => clean x /\ all o'
            end) o
  end.

Definition all_ws (s : jsstring) : Prop := forallb JSON.is_ws s = true.

(** A text that starts with a character that is not white space and does
    not close an array or an object. *)
Definition head_ok (t : jsstring) : Prop :=
  exists c t', t = c :: t' /\ JSON.is_ws c = false
               /\ (c =? 93)%N = false /\ (c =? 125)%N = false.

(** The white space [wrap] puts before each part and before the closing
    bracket. *)
Definition lead (gap indent : jsstring) : jsstring :=
  match gap with
  | [] => []
  | _ => JSON.newline :: indent ++ gap
  end.

Definition trail (gap indent : jsstring) : jsstring :=
  match gap with
  | [] => []
  | _ => JSON.newline :: indent
  end.

(** A text [t] that reads back as [v], whatever white space precedes it
    and whatever follows it, with fuel twice its length. *)
Definition reads_as (v : value) (t : jsstring) : Prop :=
  head_ok t
  /\ forall f ws rest,
       all_ws ws -> (2 * List.length t <= f)%nat ->
       JSON.parse_value f (ws ++ t ++ rest) = Some (v, rest).

(** A text that goes through the file unchanged, whatever follows it. *)
Definition stable (t : jsstring) : Prop :=
  forall rest, Runtime.toWellFormed (t ++ rest) = t ++ Runtime.toWellFormed rest.

(** The year of the era, the month and the day for a day of the era (a
    day in a cycle of 400 years that starts on a first of March). *)
Definition civil_of_doe (doe : Z) : Z * Z * Z :=
  let yoe := (doe - doe / 1460 + doe / 36524 - doe / 146096) / 365 in
  let doy := doe - (365 * yoe + yoe / 4 - yoe / 100) in
  let mp := (5 * doy + 2) / 153 in
  let d := doy - (153 * mp + 2) / 5 + 1 in
  let m := if mp <? 10 then mp + 3 else mp - 9 in
  (yoe, m, d).

(** The day of the era back from them. *)
Definition doe_of_civil (yoe m d : Z) : Z :=
  let doy := (153 * (if 2 <? m then m - 3 else m + 9) + 2) / 5 + d - 1 in
  yoe * 365 + yoe / 4 - yoe / 100 + doy.

Definition era_day_ok (doe : Z) : bool :=
  let '(yoe, m, d) := civil_of_doe doe in
  (0 <=? yoe) && (yoe <=? 399) && (1 <=? m) && (m <=? 12)
  && (1 <=? d) && (d <=? 31) && (doe_of_civil yoe m d =? doe).

(** [ok] on the [n] integers from [z] on. *)
Fixpoint all_from (ok : Z -> bool) (n : nat) (z : Z) : bool :=
  match n with
  | O => true
  | S n' => ok z && all_from ok n' (z + 1)
  end.

(** The record a refresh makes of a credential record: the new access
    token and expiry, the old refresh token and user. *)
Definition refreshed_record (t : Auth.TokenData) (access iso : jsstring)
  : Auth.TokenData :=
  {| Auth.access_token := access;
     Auth.refresh_token := Auth.refresh_token t;
     Auth.expires_at := iso;
     Auth.user := Auth.user t |}.

(** Induction on values, with the hypothesis for every element of an
    array and every property of an object. *)
Section ValueInduction.
Variable P : value -> Prop.
Hypothesis HUndef : P VUndef.
Hypothesis HNull : P VNull.
Hypothesis HBool : forall b, P (VBool b).
Hypothesis HNum : forall n, P (VNum n).
Hypothesis HStr : forall s, P (VStr s).
Hypothesis HArr : forall l, Forall P l -> P (VArr l).
Hypothesis HObj : forall o, Forall (fun kv => P (snd kv)) o -> P (VObj o).

Fixpoint value_induction (v : value) : P v :=
    match v with
    | VUndef => HUndef
    | VNull => HNull
    | VBool b => HBool b
    | VNum n => HNum n
    | VStr s => HStr s
    | VArr l =>
        HArr l ((fix go (l : list value) : Forall P l :=
                   match l with
                   | [] => Forall_nil P
                   | x :: l' => Forall_cons x (value_induction x) (go l')
                   end) l)
    | VObj o =>
        HObj o ((fix go (o : list (jsstring * value))
                   : Forall (fun kv => P (snd kv)) o :=
                   match o with
                   | [] => Forall_nil _
                   | kv :: o' => Forall_cons kv (value_induction (snd kv)) (go o')
                   end) o)
    end.
End ValueInduction.

(** ** Vocabulary of the further properties *)

(** The decimal digits of a three-digit status code. *)
Definition three_digits (s : Z) : jsstring :=
  [digit_chr (s / 100); digit_chr (s / 10 mod 10); digit_chr (s mod 10)].

Definition status_text_ok (s : Z) : bool :=
  str_eqb (num_to_string (num_of_Z s)) (three_digits s).

(** More scenarios: services with one fixed answer to every call that is
    not a refresh. *)
Module Cases.

Definition answering (st : Z) (b : jsstring) (_ : list Event) (r : Request)
  : Z * option Response :=
  if Scenario.is_refresh r then Scenario.respond 200 Scenario.refreshed_body
  else Scenario.respond st b.

(** A token file that holds the JSON text of [v]. *)
Definition holding (v : value) : file_state :=
  match JSON.stringify2 v with
  | Some j => File Auth.FILE_MODE j
  | None => NoFile
  end.

(** A record without [expires_at]. *)
Definition undated : value :=
  VObj [(js "access_token", VStr (js "A1"));
        (js "refresh_token", VStr (js "R1"))].

(** The token response of the scenarios, as a value. *)
Definition token_response : value :=
  match JSON.parse Scenario.token_body with
  | Some v => v
  | None => VNull
  end.

(** A token response without [expires_in], and a service that approves
    the first poll with it. *)
Definition undated_token_body : jsstring :=
  js "{" ++ Scenario.jq "access_token" ++ js ":" ++ Scenario.jq "A1" ++ js ","
    ++ Scenario.jq "refresh_token" ++ js ":" ++ Scenario.jq "R1" ++ js ","
    ++ Scenario.jq "user" ++ js ":{"
    ++ Scenario.jq "id" ++ js ":" ++ Scenario.jq "u1" ++ js ","
    ++ Scenario.jq "email" ++ js ":" ++ Scenario.jq "ann@example.test" ++ js ","
    ++ Scenario.jq "name" ++ js ":" ++ Scenario.jq "Ann" ++ js "}}".

Definition approving_undated (_ : list Event) (r : Request)
  : Z * option Response :=
  if Scenario.is_token_poll r then Scenario.respond 200 undated_token_body
  else Scenario.respond 200 Scenario.device_code_body.

(** A token file that holds [{}]. *)
Definition empty_record : file_state := File Auth.FILE_MODE (js "{}").

(** A list of one prompt. *)
Definition prompts_body : jsstring :=
  js "{" ++ Scenario.jq "prompts" ++ js ":[{"
    ++ Scenario.jq "id" ++ js ":" ++ Scenario.jq "p1" ++ js ","
    ++ Scenario.jq "name" ++ js ":" ++ Scenario.jq "First" ++ js ","
    ++ Scenario.jq "description" ++ js ":null}]}".


End Cases.

(** The requests of the client: a refresh request to the base URL, and a
    call to an endpoint with the method and body of the caller. *)
Definition is_refresh_of (base : jsstring) (e : Event) : Prop :=
  exists rt, e = EvFetch (Auth.refresh_request base rt).

Definition is_call_of (base endpoint : jsstring) (options : Api.RequestInit)
    (e : Event) : Prop :=
  exists req, e = EvFetch req
              /\ url req = base ++ endpoint
              /\ method req = Api.opt_method options
              /\ body req = Api.opt_body options.

(** [main] ends in its [catch] block: it prints the message of the error
    and exits with status 1, leaving the world [w1] it had reached. *)
Definition exits_with_error (fuel : nat) (w w1 : World) (msg : jsstring) : Prop :=
  Login.main fuel w
  = (Ok 1, log (EvStderr ([JSON.newline] ++ js "Error: " ++ msg
                          ++ [JSON.newline])) 0 w1).

(** What a turn of the poll loop does: it sleeps, asks the token
    endpoint, and prints a dot when the answer is
    [authorization_pending]. *)
Definition turn_events (base : jsstring) (deviceCode : value) (t : Z * bool)
  : list Event :=
  EvSleep (fst t) :: EvFetch (Login.token_request base deviceCode)
    :: (if snd t then [EvStdout (js ".")] else []).

(** The delays of successive turns that start with the interval
    [interval]: each is that of [interval * 1000], and the next turn goes
    on with the same interval or with [interval + 5]. *)
Fixpoint delays_ok (interval : value) (l : list Z) : Prop :=
  match l with
  | [] => True
  | d :: l' =>
      exists ms, Coerce.js_mul interval (VNum (Dec 1 3)) = Val ms
                 /\ d = Runtime.timer_delay ms
                 /\ (delays_ok interval l'
                     \/ exists i, Coerce.js_plus interval (VNum (Dec 5 0)) = Val i
                                  /\ delays_ok i l')
  end.


(** * Properties *)

Arguments JSON.parse : simpl never.
Arguments JSON.serialize : simpl never.
Arguments JSON.stringify : simpl never.
Arguments JSON.stringify2 : simpl never.
Arguments Date.parse : simpl never.
Arguments Date.iso_string : simpl never.
Arguments num_to_string : simpl never.
Arguments js : simpl never.

(** ** Strings and objects *)

Lemma str_eqb_refl (a : jsstring) : str_eqb a a = true.
Proof.
  induction a as [|x a IH]; simpl; [reflexivity|].
  now rewrite N.eqb_refl, IH.
Qed.

Lemma str_eqb_eq (a b : jsstring) : str_eqb a b = true <-> a = b.
Proof.
  split.
  - revert b; induction a as [|x a IH]; intros [|y b]; simpl; try discriminate.
    + reflexivity.
    + intros H. apply andb_true_iff in H as [H1 H2].
      apply N.eqb_eq in H1. apply IH in H2. now subst.
  - intros ->. apply str_eqb_refl.
Qed.




(** ** The credential store *)

(** What [loadToken] returns, in every world: it never throws and never
    changes anything. *)
Lemma loadToken_run (w : World) :
  Auth.loadToken w =
  (Ok match file (disk w) with
      | File _ c => match JSON.parse c with
                    | Some v => v
                    | None => VNull
                    end
      | _ => VNull
      end, w).
Proof.
  unfold Auth.loadToken, bind, Runtime.exists_file, try_catch,
    Runtime.readFileSync, ret, throw.
  destruct (file (disk w)) as [| |m c] eqn:E; simpl; rewrite ?E;
    try reflexivity.
  destruct (JSON.parse c); reflexivity.
Qed.

(** ** The refresh operation *)

Ltac unfold_run :=
  unfold Runtime.json_or_empty in *;
  unfold Runtime.Date_now, Runtime.getenv_api_url, Runtime.exists_file,
    Runtime.exists_dir, Runtime.readFileSync, Runtime.mkdirSync,
    Runtime.writeFileSync, Runtime.fetch, Runtime.json, Runtime.sleep,
    Runtime.stdout_write, Runtime.stderr_write in *;
  unfold bind, ret, throw, lift, try_catch, out_of_fuel in *.

Ltac case_step :=
  match goal with
  | |- context [match ?x with _ => _ end] =>
      lazymatch x with
      | context [match _ with _ => _ end] => fail
      | _ => destruct x eqn:?
      end
  end.

Lemma getApiBaseUrl_run (w : World) :
  Auth.getApiBaseUrl w = (Ok (base_url w), w).
Proof. reflexivity. Qed.


Lemma saveToken_run (v : value) (j : jsstring) (w : World) :
  JSON.stringify2 v = Some j ->
  can_save (disk w) = true ->
  Auth.saveToken v w = (Ok tt, set_disk (saved (disk w) j) w).
Proof.
  intros Hj Hc. unfold can_save in Hc.
  apply andb_true_iff in Hc as [Hw Hf].
  unfold Auth.saveToken. unfold_run. rewrite Hj. unfold saved, set_disk.
  destruct w as [[d f wr] env t srv tr]; simpl in *. subst wr.
  destruct d, f; simpl; try discriminate; reflexivity.
Qed.

(** A failed [saveToken] leaves the token file as it was. *)
Lemma saveToken_file (v : value) (w : World) :
  forall r w', Auth.saveToken v w = (r, w') ->
  r <> Ok tt -> file (disk w') = file (disk w).
Proof.
  unfold Auth.saveToken. unfold_run. intros r w'.
  repeat (case_step; simpl in * );
    intros H; inversion H; subst; simpl; intros N;
    try reflexivity; try congruence; exfalso; apply N; reflexivity.
Qed.

(** *** What a refresh does *)

(** [refreshAccessToken] returns [null] or an object, and never throws;
    a call that returns [null] has left the token file as it was; on a
    token that is not [null] or [undefined] the call sends one request,
    the refresh request, and nothing else reaches the network. *)
Lemma refresh_run (token : value) (w : World) :
  exists v w',
    Auth.refreshAccessToken token w = (Ok v, w')
    /\ (v = VNull \/ exists o, v = VObj o)
    /\ (v = VNull -> file (disk w') = file (disk w))
    /\ env_api_url w' = env_api_url w
    /\ server w' = server w
    /\ (forall rt, Coerce.get_prop token (js "refresh_token") = Val rt ->
        trace w' = trace w ++ [EvFetch (refresh_call w rt)]
        /\ now w' = now w + fst (server w (trace w) (refresh_call w rt))).
Proof.
  unfold refresh_call, base_url.
  unfold Auth.refreshAccessToken, Auth.saveToken, Auth.getApiBaseUrl.
  unfold_run.
  repeat (case_step; simpl in * );
    (eexists; eexists; split; [reflexivity|]); simpl;
    (split; [first [now left | right; eexists; reflexivity]|]);
    (split; [first [reflexivity | congruence | discriminate]|]);
    (split; [reflexivity|]); (split; [reflexivity|]);
    intros rt Hrt; inversion Hrt; subst;
    match goal with
    | H : server _ _ _ = _ |- _ => rewrite H
    end; simpl; split; reflexivity.
Qed.

(** *** Exact arithmetic on whole numbers *)

Lemma strip_zeros_val (fuel : nat) :
  forall m e m' e', 0 <= e -> strip_zeros fuel m e = (m', e') ->
  0 <= e' /\ m' * 10 ^ e' = m * 10 ^ e.
Proof.
  induction fuel as [|f IH]; simpl; intros m e m' e' He H.
  - inversion H; subst; split; [assumption | reflexivity].
  - destruct (m mod 10 =? 0) eqn:E.
    + apply IH in H; [|lia]. destruct H as [H1 H2]. split; [assumption|].
      rewrite H2. apply Z.eqb_eq in E.
      rewrite Z.pow_add_r by lia. rewrite Z.pow_1_r.
      pose proof (Z.div_mod m 10 ltac:(lia)) as D. rewrite E in D.
      rewrite D at 2. ring.
    + inversion H; subst; split; [assumption | reflexivity].
Qed.

Lemma dec_norm_val (m e : Z) :
  0 <= e -> num_whole (dec_norm m e) /\ num_val (dec_norm m e) = m * 10 ^ e.
Proof.
  intros He. unfold dec_norm. destruct (m =? 0) eqn:E.
  - apply Z.eqb_eq in E. subst. simpl. split; lia.
  - destruct (strip_zeros _ m e) as [m' e'] eqn:S.
    apply strip_zeros_val in S; [|assumption]. simpl. exact S.
Qed.

Lemma num_of_Z_val (z : Z) : num_whole (num_of_Z z) /\ num_val (num_of_Z z) = z.
Proof.
  unfold num_of_Z. destruct (dec_norm_val z 0 ltac:(lia)) as [H1 H2].
  split; [assumption|]. rewrite H2. simpl. lia.
Qed.

Lemma num_mul_val (a b : number) :
  num_whole a -> num_whole b ->
  num_whole (num_mul a b) /\ num_val (num_mul a b) = num_val a * num_val b.
Proof.
  destruct a as [|m1 e1], b as [|m2 e2]; simpl; try contradiction.
  intros H1 H2. destruct (dec_norm_val (m1 * m2) (e1 + e2) ltac:(lia)) as [A B].
  split; [assumption|]. rewrite B. rewrite Z.pow_add_r by lia. ring.
Qed.

Lemma num_add_val (a b : number) :
  num_whole a -> num_whole b ->
  num_whole (num_add a b) /\ num_val (num_add a b) = num_val a + num_val b.
Proof.
  destruct a as [|m1 e1], b as [|m2 e2]; simpl; try contradiction.
  intros H1 H2.
  destruct (dec_norm_val (m1 * 10 ^ (e1 - Z.min e1 e2) + m2 * 10 ^ (e2 - Z.min e1 e2))
              (Z.min e1 e2) ltac:(lia)) as [A B].
  split; [assumption|]. rewrite B.
  rewrite Z.mul_add_distr_r, <- !Z.mul_assoc, <- !Z.pow_add_r by lia.
  replace (e1 - Z.min e1 e2 + Z.min e1 e2) with e1 by lia.
  replace (e2 - Z.min e1 e2 + Z.min e1 e2) with e2 by lia.
  reflexivity.
Qed.

Lemma num_time_whole (n : number) :
  num_whole n -> Coerce.num_time n = Date.TimeClip (num_val n).
Proof.
  destruct n as [|m e]; simpl; [contradiction|]. intros H.
  unfold num_trunc. destruct (0 <=? e) eqn:E; [reflexivity|].
  apply Z.leb_gt in E. lia.
Qed.

(** With a whole number of seconds, the new expiry is the instant
    [expires_in] seconds after [t]. *)
Lemma expiry_string_seconds (t secs : Z) :
  Z.abs (t + 1000 * secs) <= Date.max_time ->
  Auth.expiry_string t (VNum (num_of_Z secs))
  = Val (Date.iso_string (t + 1000 * secs)).
Proof.
  intros H. unfold Auth.expiry_string, Coerce.js_mul. simpl.
  destruct (num_of_Z_val secs) as [S1 S2].
  destruct (num_of_Z_val t) as [T1 T2].
  destruct (num_mul_val (num_of_Z secs) (Dec 1 3) S1 ltac:(simpl; lia)) as [M1 M2].
  destruct (num_add_val (num_of_Z t) _ T1 M1) as [A1 A2].
  rewrite (num_time_whole _ A1), A2, T2, M2, S2.
  change (num_val (Dec 1 3)) with 1000.
  unfold Date.TimeClip.
  replace (t + secs * 1000) with (t + 1000 * secs) by ring.
  apply Z.leb_le in H. rewrite H. reflexivity.
Qed.

(** *** The three ways a refresh ends *)




Lemma refresh_success (token rt : value) (w : World) (r : Response)
    (data access expires_in : value) (iso j : jsstring) :
  Coerce.get_prop token (js "refresh_token") = Val rt ->
  snd (server w (trace w) (refresh_call w rt)) = Some r ->
  Runtime.ok r = true ->
  JSON.parse (text r) = Some data ->
  Coerce.get_prop data (js "access_token") = Val access ->
  Coerce.get_prop data (js "expires_in") = Val expires_in ->
  Auth.expiry_string (now (answered w rt)) expires_in = Val iso ->
  JSON.stringify2 (updated_token token access iso) = Some j ->
  can_save (disk w) = true ->
  Auth.refreshAccessToken token w
  = (Ok (updated_token token access iso),
     set_disk (saved (disk w) j) (answered w rt)).
Proof.
  intros Hrt Hs Hok Hp Ha He Hi Hj Hc.
  pose proof (saveToken_run (updated_token token access iso) j (answered w rt) Hj Hc)
    as Hsave.
  unfold answered, refresh_call, base_url in *.
  unfold Auth.refreshAccessToken, Auth.getApiBaseUrl.
  unfold bind at 1 2 3 4 5 6 7 8 9. unfold try_catch, ret, lift, Runtime.fetch,
    Runtime.json, Runtime.getenv_api_url, Runtime.Date_now.
  rewrite Hrt.
  destruct (server w (trace w) _) as [el resp]. simpl in Hs. subst resp.
  simpl fst in *. rewrite Hok. cbv beta iota delta [negb].
  rewrite Hp. unfold ret. rewrite Ha, He. rewrite Hi.
  unfold bind. fold (updated_token token access iso). rewrite Hsave.
  reflexivity.
Qed.


Lemma saveToken_fails (v : value) (w : World) :
  can_save (disk w) = false ->
  exists e w', Auth.saveToken v w = (Throw e, w') /\ file (disk w') = file (disk w).
Proof.
  unfold can_save, Auth.saveToken. unfold_run. intros Hc.
  destruct w as [[d f wr] env t srv tr]; simpl in *.
  destruct (JSON.stringify2 v), d, f, wr; simpl in *; try discriminate;
    eexists; eexists; split; reflexivity.
Qed.


(** ** C3: the contract of the refresh operation *)




(** ** C7, C4: what the store loads *)

(** C7.  [loadToken] never throws, in any world, and changes nothing; it
    returns absent for a missing file, for an empty file and for a file
    whose text is not JSON. *)
Theorem loadToken_never_raises :
  forall w,
    (exists v, Auth.loadToken w = (Ok v, w))
    /\ (file (disk w) = NoFile -> Auth.loadToken w = (Ok VNull, w))
    /\ (forall m, file (disk w) = File m [] -> Auth.loadToken w = (Ok VNull, w))
    /\ (forall m c, file (disk w) = File m c -> JSON.parse c = None ->
        Auth.loadToken w = (Ok VNull, w)).
Proof.
  intros w. rewrite loadToken_run. split; [eexists; reflexivity|].
  split; [|split].
  - intros ->. reflexivity.
  - intros m ->. reflexivity.
  - intros m c -> ->. reflexivity.
Qed.

Lemma loadToken_never_raises_witness :
  let srv := Scenario.offline in
  Auth.loadToken (Scenario.world NoFile 0 srv) = (Ok VNull, Scenario.world NoFile 0 srv)
  /\ Auth.loadToken (Scenario.world (File 384 []) 0 srv)
     = (Ok VNull, Scenario.world (File 384 []) 0 srv)
  /\ Auth.loadToken (Scenario.world (File 384 (js "{ not json")) 0 srv)
     = (Ok VNull, Scenario.world (File 384 (js "{ not json")) 0 srv).
Proof.
  intros srv. split; [|split].
  - apply (loadToken_never_raises (Scenario.world NoFile 0 srv)). reflexivity.
  - apply (loadToken_never_raises (Scenario.world (File 384 []) 0 srv)) with 384.
    reflexivity.
  - apply (loadToken_never_raises
             (Scenario.world (File 384 (js "{ not json")) 0 srv))
      with 384 (js "{ not json"); reflexivity.
Defined.

(** C4 as stated fails: a file holding [{}] loads as the empty object,
    which is not absent and has none of the four fields. *)
Lemma loadToken_empty_object :
  let w := Scenario.world (File 384 (js "{}")) 0 Scenario.offline in
  fst (Auth.loadToken w) = Ok (VObj [])
  /\ VObj [] <> VNull
  /\ complete_record (VObj []) = false
  /\ fst (Auth.loadToken (Scenario.world NoFile 0 Scenario.offline)) = Ok VNull.
Proof.
  repeat split; try reflexivity. discriminate.
Qed.

(** C4 (amended).  [loadToken] returns what [JSON.parse] gives for the
    text of the file, whatever its shape: no field is checked.  A file
    that is missing, cannot be read, or holds a text that is not JSON is
    treated the same: the result is absent. *)
Theorem loadToken_unvalidated :
  forall w,
    (forall m c v, file (disk w) = File m c -> JSON.parse c = Some v ->
       Auth.loadToken w = (Ok v, w))
    /\ (forall v, Auth.loadToken w = (Ok v, w) -> v <> VNull ->
        exists m c, file (disk w) = File m c /\ JSON.parse c = Some v)
    /\ ((file (disk w) = NoFile \/ file (disk w) = Unreadable
         \/ exists m c, file (disk w) = File m c /\ JSON.parse c = None) ->
        Auth.loadToken w = (Ok VNull, w)).
Proof.
  intros w. rewrite loadToken_run. split; [|split].
  - intros m c v -> ->. reflexivity.
  - intros v H N. destruct (file (disk w)) as [| |m c].
    + inversion H. congruence.
    + inversion H. congruence.
    + exists m, c. split; [reflexivity|].
      destruct (JSON.parse c); inversion H; congruence.
  - intros [-> | [-> | (m & c & -> & ->)]]; reflexivity.
Qed.

Lemma loadToken_unvalidated_witness :
  let w := Scenario.world (File 384 (js "{}")) 0 Scenario.offline in
  let w' := Scenario.world Unreadable 0 Scenario.offline in
  Auth.loadToken w = (Ok (VObj []), w)
  /\ (exists m c, file (disk w) = File m c /\ JSON.parse c = Some (VObj []))
  /\ Auth.loadToken w' = (Ok VNull, w').
Proof.
  intros w w'. split; [|split].
  - apply (loadToken_unvalidated w) with 384 (js "{}"); reflexivity.
  - apply (loadToken_unvalidated w); [reflexivity | discriminate].
  - apply (loadToken_unvalidated w'). right. left. reflexivity.
Defined.

(** ** C6: no stored credential *)

(** C6.  When [loadToken] yields absent, [apiRequest] throws the "Not
    authenticated" error, whose message names the login command, and the
    world is as before: nothing was sent and nothing was written. *)
Theorem unauthenticated_fails_at_once :
  forall endpoint options w,
    fst (Auth.loadToken w) = Ok VNull ->
    Api.apiRequest endpoint options w = (Throw (Error Api.not_authenticated), w)
    /\ contains (js "Not authenticated") Api.not_authenticated = true
    /\ contains (js "npx vibekit-mcp-server login") Api.not_authenticated = true.
Proof.
  intros endpoint options w H. split; [|split; reflexivity].
  unfold Api.apiRequest, Api.primary_call, bind.
  pose proof (loadToken_run w) as L.
  destruct (Auth.loadToken w) as [r w1]. simpl in H. subst r.
  inversion L; subst w1. reflexivity.
Qed.

Lemma unauthenticated_fails_at_once_witness :
  let w := Scenario.world NoFile Scenario.t0 Scenario.healthy in
  Api.apiRequest (js "/api/mcp/prompts") Api.no_options w
  = (Throw (Error Api.not_authenticated), w).
Proof.
  intros w.
  apply (unauthenticated_fails_at_once (js "/api/mcp/prompts") Api.no_options w).
  reflexivity.
Defined.

(** ** C9: the base URL *)

(** With [VIBEKIT_API_URL] set to a non-empty string, the login flow and
    the request client use that one base URL. *)
Lemma base_url_override (w : World) (u : jsstring) :
  env_api_url w = Some u -> u <> [] ->
  fst (Login.API_BASE_URL w) = Ok u /\ fst (Auth.getApiBaseUrl w) = Ok u.
Proof.
  intros H N. unfold Login.API_BASE_URL, Auth.getApiBaseUrl, bind,
    Runtime.getenv_api_url, ret. simpl. rewrite H.
  destruct u; [contradiction|]. split; reflexivity.
Qed.

(** C9 fails on the code.  With [VIBEKIT_API_URL] unset the login flow
    addresses [https://vibecoderskit.ai] and the request client
    [https://vibecoderskit.com]: the device-code request and the refresh
    request go to different hosts. *)
Theorem default_base_urls_differ :
  forall d t srv tr,
    let w := {| disk := d; env_api_url := None; now := t;
                server := srv; trace := tr |} in
    fst (Login.API_BASE_URL w) = Ok (js "https://vibecoderskit.ai")
    /\ fst (Auth.getApiBaseUrl w) = Ok (js "https://vibecoderskit.com")
    /\ fst (Login.API_BASE_URL w) <> fst (Auth.getApiBaseUrl w)
    /\ url (Login.device_code_request (js "https://vibecoderskit.ai"))
       = js "https://vibecoderskit.ai/api/mcp/auth/device/code"
    /\ url (Auth.refresh_request (base_url w) VNull)
       = js "https://vibecoderskit.com/api/mcp/auth/refresh".
Proof.
  intros d t srv tr w. repeat split. discriminate.
Qed.

(** ** The request client, phase by phase *)

Lemma fetch_run (r : Request) (w : World) :
  Runtime.fetch r w
  = (match snd (server w (trace w) r) with
     | Some x => Ok x
     | None => Throw FetchError
     end, log (EvFetch r) (fst (server w (trace w) r)) w).
Proof.
  unfold Runtime.fetch. destruct (server w (trace w) r) as [el [x|]]; reflexivity.
Qed.

(** A truthy value has properties to read. *)
Lemma truthy_get_prop (v : value) (k : jsstring) :
  Coerce.truthy v = true -> exists x, Coerce.get_prop v k = Val x.
Proof.
  destruct v; simpl; try discriminate; intros _;
    try (eexists; reflexivity).
  destruct (obj_get o k); eexists; reflexivity.
Qed.

(** The proactive phase (lines 18-25), given the expiry the token holds:
    far from expiry nothing happens; near expiry there is one refresh,
    and the call goes on with its result if there is one. *)
Lemma proactive_run (token ea : value) (d : option Z) (w : World) :
  Coerce.get_prop token (js "expires_at") = Val ea ->
  Coerce.new_Date ea = Val d ->
  (Api.near_expiry d (now w) = false ->
     Api.proactive_refresh token w = (Ok token, w))
  /\ (Api.near_expiry d (now w) = true ->
      exists v w',
        Auth.refreshAccessToken token w = (Ok v, w')
        /\ Api.proactive_refresh token w
           = (Ok (if Coerce.truthy v then v else token), w')).
Proof.
  intros Hea Hd.
  assert (E : Api.proactive_refresh token w
              = if Api.near_expiry d (now w) then
                  match Auth.refreshAccessToken token w with
                  | (Ok v, w') => (Ok (if Coerce.truthy v then v else token), w')
                  | (Throw e, w') => (Throw e, w')
                  | (Fuel, w') => (Fuel, w')
                  end
                else (Ok token, w)).
  { unfold Api.proactive_refresh, bind, lift, Runtime.Date_now, ret.
    rewrite Hea, Hd. destruct (Api.near_expiry d (now w)); reflexivity. }
  rewrite E. split; intros Hn; rewrite Hn.
  - reflexivity.
  - destruct (refresh_run token w) as (v & w' & H & _).
    exists v, w'. split; [exact H|]. rewrite H. reflexivity.
Qed.

(** The primary call (lines 27-36), once the proactive phase is over. *)
Lemma primary_call_run (endpoint : jsstring) (options : Api.RequestInit)
    (token token' : value) (w w1 : World) (req : Request) :
  fst (Auth.loadToken w) = Ok token ->
  Coerce.truthy token = true ->
  Api.proactive_refresh token w = (Ok token', w1) ->
  Api.authorized_request (base_url w1) endpoint options token' = Val req ->
  Api.primary_call endpoint options w
  = (match snd (server w1 (trace w1) req) with
     | Some resp => Ok (token', base_url w1, resp)
     | None => Throw FetchError
     end, log (EvFetch req) (fst (server w1 (trace w1) req)) w1).
Proof.
  intros Hl Ht Hp Hr. unfold Api.primary_call. unfold bind at 1.
  rewrite loadToken_run in *. simpl in Hl. inversion Hl as [Hl'].
  rewrite Hl', Ht. cbv beta iota delta [negb].
  unfold bind at 1. rewrite Hp. unfold bind at 1.
  rewrite getApiBaseUrl_run. unfold bind at 1. unfold lift. rewrite Hr.
  unfold bind. rewrite fetch_run.
  destruct (snd (server w1 (trace w1) req)); reflexivity.
Qed.

(** [settle] decides from the response alone: it sends nothing and writes
    nothing. *)
Lemma settle_world (response : Response) (w : World) :
  snd (Api.settle response w) = w.
Proof.
  unfold Api.settle. unfold_run.
  repeat (case_step; simpl in * ); reflexivity.
Qed.

(** The reactive phase (lines 40-62): one refresh; absent ends the call
    with the "Authentication expired" error; a record is used for one
    retry, whose response settles the call. *)
Lemma reactive_run (baseUrl endpoint : jsstring) (options : Api.RequestInit)
    (token : value) (w : World) :
  exists v w',
    Auth.refreshAccessToken token w = (Ok v, w')
    /\ (Coerce.truthy v = false ->
        Api.reactive_refresh baseUrl endpoint options token w
        = (Throw (Error Api.authentication_expired), w'))
    /\ (Coerce.truthy v = true ->
        forall req,
          Api.authorized_request baseUrl endpoint options v = Val req ->
          Api.reactive_refresh baseUrl endpoint options token w
          = match snd (server w' (trace w') req) with
            | Some retry =>
                (fst (Api.settle retry
                        (log (EvFetch req) (fst (server w' (trace w') req)) w')),
                 log (EvFetch req) (fst (server w' (trace w') req)) w')
            | None =>
                (Throw FetchError,
                 log (EvFetch req) (fst (server w' (trace w') req)) w')
            end).
Proof.
  destruct (refresh_run token w) as (v & w' & H & _).
  exists v, w'. split; [exact H|].
  assert (E : Api.reactive_refresh baseUrl endpoint options token w
              = if Coerce.truthy v then
                  match Api.authorized_request baseUrl endpoint options v with
                  | Val req =>
                      match Runtime.fetch req w' with
                      | (Ok retry, w2) => Api.settle retry w2
                      | (Throw e, w2) => (Throw e, w2)
                      | (Fuel, w2) => (Fuel, w2)
                      end
                  | Err e => (Throw e, w')
                  end
                else (Throw (Error Api.authentication_expired), w')).
  { unfold Api.reactive_refresh. unfold bind at 1. rewrite H.
    destruct (Coerce.truthy v); [|reflexivity].
    unfold bind, lift.
    destruct (Api.authorized_request baseUrl endpoint options v); reflexivity. }
  rewrite E. split; intros Ht; rewrite Ht.
  - reflexivity.
  - intros req Hr. rewrite Hr, fetch_run.
    destruct (snd (server w' (trace w') req)) as [retry|]; [|reflexivity].
    rewrite (surjective_pairing (Api.settle retry _)) at 1.
    now rewrite settle_world.
Qed.

(** What the proactive phase returns is truthy when it was given a truthy
    token, and the phase leaves the environment as it was. *)
Lemma proactive_inv (token token' : value) (w w1 : World) :
  Coerce.truthy token = true ->
  Api.proactive_refresh token w = (Ok token', w1) ->
  Coerce.truthy token' = true /\ env_api_url w1 = env_api_url w.
Proof.
  intros Ht. unfold Api.proactive_refresh, bind, lift, Runtime.Date_now, ret.
  destruct (Coerce.get_prop token (js "expires_at")) as [ea|]; [|discriminate].
  destruct (Coerce.new_Date ea) as [d|]; [|discriminate].
  destruct (Api.near_expiry d (now w)).
  - destruct (refresh_run token w) as (v & w' & H & _ & _ & He & _).
    rewrite H. intros E. inversion E; subst.
    split; [|exact He]. destruct (Coerce.truthy v) eqn:Tv; assumption.
  - intros E. inversion E; subst. split; [assumption | reflexivity].
Qed.

(** A primary call that was answered was made with a truthy token and the
    client's base URL. *)
Lemma primary_call_inv (endpoint : jsstring) (options : Api.RequestInit)
    (w w1 : World) (token : value) (baseUrl : jsstring) (response : Response) :
  Api.primary_call endpoint options w = (Ok (token, baseUrl, response), w1) ->
  Coerce.truthy token = true /\ baseUrl = base_url w1
  /\ env_api_url w1 = env_api_url w.
Proof.
  unfold Api.primary_call. unfold bind at 1. rewrite loadToken_run.
  set (tok := match file (disk w) with File _ c => _ | _ => _ end).
  destruct (Coerce.truthy tok) eqn:Ht; [|discriminate].
  cbv beta iota delta [negb]. unfold bind at 1.
  destruct (Api.proactive_refresh tok w) as [[t'| |] w'] eqn:Hp; try discriminate.
  destruct (proactive_inv _ _ _ _ Ht Hp) as [Ht' He].
  unfold bind at 1. rewrite getApiBaseUrl_run. unfold bind at 1, lift.
  destruct (Api.authorized_request (base_url w') endpoint options t');
    [|discriminate].
  unfold bind. rewrite fetch_run.
  destruct (snd (server w' (trace w') a)); [|discriminate].
  intros E. inversion E; subst. split; [assumption|]. split; [|exact He].
  unfold base_url. reflexivity.
Qed.


(** What an authorized request carries. *)
Lemma authorized_request_shape (baseUrl endpoint : jsstring)
    (options : Api.RequestInit) (token : value) (req : Request) :
  Api.authorized_request baseUrl endpoint options token = Val req ->
  url req = baseUrl ++ endpoint
  /\ method req = Api.opt_method options
  /\ body req = Api.opt_body options
  /\ exists a s, Coerce.get_prop token (js "access_token") = Val a
                 /\ Coerce.ToString a = Val s
                 /\ headers req = Api.layered_headers s options.
Proof.
  unfold Api.authorized_request, rbind.
  destruct (Coerce.get_prop token (js "access_token")) as [a|] eqn:Ha;
    [|discriminate].
  destruct (Coerce.ToString a) as [s|] eqn:Hs; [|discriminate].
  intros E. inversion E; subst; simpl.
  split; [reflexivity|]. split; [reflexivity|]. split; [reflexivity|].
  exists a, s. split; [reflexivity|]. split; [exact Hs | reflexivity].
Qed.

(** ** C1: the reactive refresh *)




(** ** C2: the proactive refresh *)




(** ** JSON: what is written is read back *)

Section QuoteParse.
Local Open Scope N_scope.

Lemma hex_val_chr (d : N) : d < 16 -> hex_val (hex_chr d) = Some d.
Proof.
  intros H. unfold hex_chr, hex_val, is_digit.
  destruct (d <? 10) eqn:E.
  - apply N.ltb_lt in E.
    replace (48 <=? d + 48) with true by (symmetry; apply N.leb_le; lia).
    replace (d + 48 <=? 57) with true by (symmetry; apply N.leb_le; lia).
    simpl. f_equal. lia.
  - apply N.ltb_ge in E.
    replace (d + 87 <=? 57) with false by (symmetry; apply N.leb_gt; lia).
    rewrite andb_false_r.
    replace (97 <=? d + 87) with true by (symmetry; apply N.leb_le; lia).
    replace (d + 87 <=? 102) with true by (symmetry; apply N.leb_le; lia).
    simpl. f_equal. lia.
Qed.

Lemma hex4_digits (c : N) :
  c < 65536 ->
  JSON.hex4 (hex_chr (c / 4096)) (hex_chr ((c / 256) mod 16))
            (hex_chr ((c / 16) mod 16)) (hex_chr (c mod 16)) = Some c.
Proof.
  intros H. unfold JSON.hex4.
  assert (H1 : c / 4096 < 16) by (apply N.Div0.div_lt_upper_bound; lia).
  rewrite !hex_val_chr; try assumption; try (apply N.mod_lt; lia).
  f_equal.
  pose proof (N.div_mod c 16 ltac:(lia)) as D0.
  pose proof (N.div_mod (c / 16) 16 ltac:(lia)) as D1.
  pose proof (N.div_mod (c / 256) 16 ltac:(lia)) as D2.
  assert (E1 : c / 16 / 16 = c / 256) by (rewrite N.Div0.div_div; reflexivity).
  assert (E2 : c / 256 / 16 = c / 4096) by (rewrite N.Div0.div_div; reflexivity).
  rewrite E1 in D1. rewrite E2 in D2. lia.
Qed.

Lemma parse_chars_plain (c : N) (x : jsstring) :
  32 <= c -> c <> 34 -> c <> 92 ->
  JSON.parse_chars (c :: x) = JSON.opt_cons c (JSON.parse_chars x).
Proof.
  intros H1 H2 H3. cbn [JSON.parse_chars]. unfold dquote, backslash.
  apply N.eqb_neq in H2, H3. rewrite H2, H3.
  replace (c <? 32) with false by (symmetry; apply N.ltb_ge; lia).
  reflexivity.
Qed.

Lemma parse_chars_escape (e u : N) (x : jsstring) :
  e <> 117 -> JSON.unescape e = Some u ->
  JSON.parse_chars (92 :: e :: x) = JSON.opt_cons u (JSON.parse_chars x).
Proof.
  intros H1 H2. cbn [JSON.parse_chars]. unfold dquote, backslash.
  change (92 =? 34) with false. change (92 =? 92) with true.
  cbv beta iota. apply N.eqb_neq in H1. rewrite H1, H2. reflexivity.
Qed.

Lemma parse_chars_uesc (c : N) (x : jsstring) :
  c < 65536 ->
  JSON.parse_chars (JSON.uesc c ++ x) = JSON.opt_cons c (JSON.parse_chars x).
Proof.
  intros H. unfold JSON.uesc. cbn [app JSON.parse_chars].
  unfold dquote, backslash.
  change (92 =? 34) with false. change (92 =? 92) with true.
  change (117 =? 117) with true. cbv beta iota.
  rewrite hex4_digits by assumption. reflexivity.
Qed.

Lemma parse_chars_quote1 (c : N) (x : jsstring) :
  c < 65536 \/ 32 <= c ->
  JSON.parse_chars (JSON.quote1 c ++ x) = JSON.opt_cons c (JSON.parse_chars x).
Proof.
  intros H. unfold JSON.quote1.
  destruct (c =? 8) eqn:E1;
    [apply N.eqb_eq in E1; subst; now apply parse_chars_escape|].
  destruct (c =? 9) eqn:E2;
    [apply N.eqb_eq in E2; subst; now apply parse_chars_escape|].
  destruct (c =? 10) eqn:E3;
    [apply N.eqb_eq in E3; subst; now apply parse_chars_escape|].
  destruct (c =? 12) eqn:E4;
    [apply N.eqb_eq in E4; subst; now apply parse_chars_escape|].
  destruct (c =? 13) eqn:E5;
    [apply N.eqb_eq in E5; subst; now apply parse_chars_escape|].
  destruct (c =? 34) eqn:E6;
    [apply N.eqb_eq in E6; subst; now apply parse_chars_escape|].
  destruct (c =? 92) eqn:E7;
    [apply N.eqb_eq in E7; subst; now apply parse_chars_escape|].
  apply N.eqb_neq in E6, E7.
  destruct (c <? 32) eqn:E8.
  - apply N.ltb_lt in E8. apply parse_chars_uesc. lia.
  - apply N.ltb_ge in E8. now apply parse_chars_plain.
Qed.

Lemma surrogate_plain (c : N) :
  JSON.is_high c = true \/ JSON.is_low c = true ->
  32 <= c /\ c <> 34 /\ c <> 92 /\ c < 65536.
Proof.
  unfold JSON.is_high, JSON.is_low.
  intros [H | H]; apply andb_true_iff in H as [H1 H2];
    apply N.leb_le in H1, H2; lia.
Qed.

(** Reading back a quoted string gives the string, whatever follows the
    closing quote. *)
Lemma parse_chars_quote (s rest : jsstring) :
  JSON.parse_chars (JSON.quote_chars s ++ dquote :: rest) = Some (s, rest).
Proof.
  remember (List.length s) as n eqn:Hn.
  assert (Hle : (List.length s <= n)%nat) by lia. clear Hn.
  revert s Hle. induction n as [|n IH]; intros s Hle.
  - destruct s; [reflexivity | simpl in Hle; lia].
  - destruct s as [|c r]; [reflexivity|]. simpl in Hle.
    cbn [JSON.quote_chars].
    destruct (JSON.is_high c) eqn:Hh.
    + destruct (surrogate_plain c (or_introl Hh)) as (P1 & P2 & P3 & P4).
      destruct r as [|d r'].
      * rewrite parse_chars_uesc by assumption. reflexivity.
      * destruct (JSON.is_low d) eqn:Hl.
        -- destruct (surrogate_plain d (or_intror Hl)) as (Q1 & Q2 & Q3 & Q4).
           cbn [app]. rewrite parse_chars_plain by assumption.
           rewrite parse_chars_plain by assumption.
           rewrite IH by (simpl in Hle; lia). reflexivity.
        -- rewrite <- app_assoc, parse_chars_uesc by assumption.
           rewrite IH by lia. reflexivity.
    + destruct (JSON.is_low c) eqn:Hl.
      * destruct (surrogate_plain c (or_intror Hl)) as (P1 & P2 & P3 & P4).
        rewrite <- app_assoc, parse_chars_uesc by assumption.
        rewrite IH by lia. reflexivity.
      * rewrite <- app_assoc, parse_chars_quote1.
        -- rewrite IH by lia. reflexivity.
        -- destruct (N.lt_ge_cases c 32); [left; lia | right; assumption].
Qed.

Lemma wf_plain (c : N) (x : jsstring) :
  JSON.is_high c = false -> JSON.is_low c = false ->
  Runtime.toWellFormed (c :: x) = c :: Runtime.toWellFormed x.
Proof.
  intros H1 H2. cbn [Runtime.toWellFormed]. now rewrite H1, H2.
Qed.

Lemma not_surrogate (c : N) :
  c < 55296 -> JSON.is_high c = false /\ JSON.is_low c = false.
Proof.
  intros H. unfold JSON.is_high, JSON.is_low. split;
    (replace (_ <=? c) with false by (symmetry; apply N.leb_gt; lia));
    reflexivity.
Qed.

Lemma hex_chr_ascii (d : N) : d < 16 -> hex_chr d < 55296.
Proof.
  intros H. unfold hex_chr. destruct (d <? 10); lia.
Qed.

Lemma wf_uesc (c : N) (x : jsstring) :
  c < 65536 ->
  Runtime.toWellFormed (JSON.uesc c ++ x) = JSON.uesc c ++ Runtime.toWellFormed x.
Proof.
  intros H. unfold JSON.uesc, backslash. cbn [app].
  assert (H1 : c / 4096 < 16) by (apply N.Div0.div_lt_upper_bound; lia).
  rewrite !wf_plain; try reflexivity;
    try (apply not_surrogate; lia);
    try (apply not_surrogate, hex_chr_ascii; (apply N.mod_lt; lia) || assumption).
Qed.

Lemma wf_quote1 (c : N) (x : jsstring) :
  JSON.is_high c = false -> JSON.is_low c = false ->
  Runtime.toWellFormed (JSON.quote1 c ++ x) = JSON.quote1 c ++ Runtime.toWellFormed x.
Proof.
  intros H1 H2. unfold JSON.quote1, backslash.
  repeat match goal with
         | |- context [if ?b then _ else _] =>
             destruct b eqn:?; [try reflexivity|]
         end.
  - apply wf_uesc. match goal with H : (c <? 32) = true |- _ =>
      apply N.ltb_lt in H end. lia.
  - cbn [app]. now apply wf_plain.
Qed.

(** The text of a quoted string survives the file: it has no surrogate
    outside a pair. *)
Lemma wf_quote_chars (s rest : jsstring) :
  Runtime.toWellFormed (JSON.quote_chars s ++ rest)
  = JSON.quote_chars s ++ Runtime.toWellFormed rest.
Proof.
  remember (List.length s) as n eqn:Hn.
  assert (Hle : (List.length s <= n)%nat) by lia. clear Hn.
  revert s Hle. induction n as [|n IH]; intros s Hle.
  - destruct s; [reflexivity | simpl in Hle; lia].
  - destruct s as [|c r]; [reflexivity|]. simpl in Hle.
    cbn [JSON.quote_chars].
    destruct (JSON.is_high c) eqn:Hh.
    + destruct (surrogate_plain c (or_introl Hh)) as (P1 & P2 & P3 & P4).
      destruct r as [|d r'].
      * now apply wf_uesc.
      * destruct (JSON.is_low d) eqn:Hl.
        -- cbn [app Runtime.toWellFormed]. rewrite Hh, Hl.
           rewrite IH by (simpl in Hle; lia). reflexivity.
        -- rewrite <- app_assoc, wf_uesc by assumption.
           rewrite IH by lia. reflexivity.
    + destruct (JSON.is_low c) eqn:Hl.
      * destruct (surrogate_plain c (or_intror Hl)) as (P1 & P2 & P3 & P4).
        rewrite <- app_assoc, wf_uesc by assumption.
        rewrite IH by lia. reflexivity.
      * rewrite <- !app_assoc, wf_quote1 by assumption.
        rewrite IH by lia. reflexivity.
Qed.

End QuoteParse.

(** More fuel does not change what the parser has found. *)
Lemma parse_fuel_step (f : nat) :
  (forall s x, JSON.parse_value f s = Some x -> JSON.parse_value (S f) s = Some x)
  /\ (forall s x, JSON.parse_elems f s = Some x -> JSON.parse_elems (S f) s = Some x)
  /\ (forall s x, JSON.parse_members f s = Some x ->
      JSON.parse_members (S f) s = Some x).
Proof.
  induction f as [|f (IHv & IHe & IHm)].
  - repeat split; intros s x H; discriminate H.
  - remember (S f) as g eqn:Hg.
    repeat split; intros s x H; rewrite Hg in H.
    + cbn [JSON.parse_value] in H |- *.
      destruct (JSON.skip_ws s) as [|c r]; [discriminate|].
      destruct ((c =? dquote)%N); [exact H|].
      destruct ((c =? 91)%N).
      { destruct (JSON.after 93 (JSON.skip_ws r)); [exact H|].
        destruct (JSON.parse_elems f r) as [[vs r'']|] eqn:E; [|discriminate].
        now rewrite (IHe _ _ E). }
      destruct ((c =? 123)%N); [|exact H].
      destruct (JSON.after 125 (JSON.skip_ws r)); [exact H|].
      destruct (JSON.parse_members f r) as [[ms r'']|] eqn:E; [|discriminate].
      now rewrite (IHm _ _ E).
    + cbn [JSON.parse_elems] in H |- *.
      destruct (JSON.parse_value f s) as [[v r]|] eqn:E; [|discriminate].
      rewrite (IHv _ _ E).
      destruct (JSON.skip_ws r) as [|c r']; [discriminate|].
      destruct ((c =? 93)%N); [exact H|].
      destruct ((c =? 44)%N); [|discriminate].
      destruct (JSON.parse_elems f r') as [[vs r'']|] eqn:E'; [|discriminate].
      now rewrite (IHe _ _ E').
    + cbn [JSON.parse_members] in H |- *.
      destruct (JSON.after dquote (JSON.skip_ws s)) as [r|]; [|discriminate].
      destruct (JSON.parse_chars r) as [[k r1]|]; [|discriminate].
      destruct (JSON.after 58 (JSON.skip_ws r1)) as [r2|]; [|discriminate].
      destruct (JSON.parse_value f r2) as [[v r3]|] eqn:E; [|discriminate].
      rewrite (IHv _ _ E).
      destruct (JSON.skip_ws r3) as [|c r']; [discriminate|].
      destruct ((c =? 125)%N); [exact H|].
      destruct ((c =? 44)%N); [|discriminate].
      destruct (JSON.parse_members f r') as [[ms r'']|] eqn:E'; [|discriminate].
      now rewrite (IHm _ _ E').
Qed.

Lemma parse_value_fuel (f f' : nat) (s : jsstring) (x : value * jsstring) :
  (f <= f')%nat -> JSON.parse_value f s = Some x -> JSON.parse_value f' s = Some x.
Proof.
  intros Hle H. induction Hle as [|f' _ IH]; [exact H|].
  now apply parse_fuel_step.
Qed.

(** ** C10: the headers of the caller *)







(** The primary call, when it is answered, has sent an authorized
    request last. *)
Lemma primary_call_sent (endpoint : jsstring) (options : Api.RequestInit)
    (w w1 : World) (token : value) (baseUrl : jsstring) (response : Response) :
  Api.primary_call endpoint options w = (Ok (token, baseUrl, response), w1) ->
  exists w0 req,
    Api.authorized_request baseUrl endpoint options token = Val req
    /\ trace w1 = trace w0 ++ [EvFetch req]
    /\ snd (server w0 (trace w0) req) = Some response.
Proof.
  unfold Api.primary_call. unfold bind at 1. rewrite loadToken_run.
  set (tok := match file (disk w) with File _ c => _ | _ => _ end).
  destruct (Coerce.truthy tok) eqn:Ht; [|discriminate].
  cbv beta iota delta [negb]. unfold bind at 1.
  destruct (Api.proactive_refresh tok w) as [[t'| |] w'] eqn:Hp; try discriminate.
  unfold bind at 1. rewrite getApiBaseUrl_run. unfold bind at 1, lift.
  destruct (Api.authorized_request (base_url w') endpoint options t') as [req|]
    eqn:Hr; [|discriminate].
  unfold bind. rewrite fetch_run.
  destruct (snd (server w' (trace w') req)) eqn:Hs; [|discriminate].
  intros E. inversion E; subst. exists w', req. repeat split; assumption.
Qed.



(** ** C5: the device-flow poll loop *)

Lemma keeps_ret {A} (a : A) : keeps_disk (ret a).
Proof. intros w. reflexivity. Qed.

Lemma keeps_throw {A} (e : exn) : keeps_disk (@throw A e).
Proof. intros w. reflexivity. Qed.

Lemma keeps_lift {A} (r : result A) : keeps_disk (lift r).
Proof. intros w. unfold lift. destruct r; reflexivity. Qed.

Lemma keeps_bind {A B} (m : M A) (f : A -> M B) :
  keeps_disk m -> (forall a, keeps_disk (f a)) -> keeps_disk (bind m f).
Proof.
  intros Hm Hf w. unfold bind. specialize (Hm w).
  destruct (m w) as [[a|e|] w']; simpl in *; try assumption.
  rewrite Hf. exact Hm.
Qed.

Lemma keeps_try_catch {A} (m : M A) (h : exn -> M A) :
  keeps_disk m -> (forall e, keeps_disk (h e)) -> keeps_disk (try_catch m h).
Proof.
  intros Hm Hh w. unfold try_catch. specialize (Hm w).
  destruct (m w) as [[a|e|] w']; simpl in *; try assumption.
  rewrite Hh. exact Hm.
Qed.

Lemma keeps_fetch (r : Request) : keeps_disk (Runtime.fetch r).
Proof. intros w. rewrite fetch_run. reflexivity. Qed.

Lemma keeps_json (r : Response) : keeps_disk (Runtime.json r).
Proof. intros w. unfold Runtime.json. destruct (JSON.parse (text r)); reflexivity. Qed.

Lemma keeps_console_log (s : jsstring) : keeps_disk (Login.console_log s).
Proof. intros w. reflexivity. Qed.

Lemma keeps_show_prop (v : value) (k : jsstring) : keeps_disk (Login.show_prop v k).
Proof.
  unfold Login.show_prop. apply keeps_bind; [apply keeps_lift|].
  intros a. apply keeps_lift.
Qed.

Ltac keeps :=
  repeat first
    [ apply keeps_ret | apply keeps_throw | apply keeps_lift
    | apply keeps_fetch | apply keeps_json | apply keeps_console_log
    | apply keeps_show_prop
    | apply keeps_bind; [|intros ?]
    | apply keeps_try_catch; [|intros ?]
    | match goal with
      | |- keeps_disk (if ?b then _ else _) => destruct b
      | |- keeps_disk (match ?x with _ => _ end) => destruct x
      end
    | (intros ?; reflexivity) ].

Lemma keeps_requestDeviceCode : keeps_disk Login.requestDeviceCode.
Proof.
  unfold Login.requestDeviceCode, Login.API_BASE_URL, Runtime.json_or_empty.
  keeps.
Qed.

Lemma keeps_poll_iteration (deviceCode interval : value) :
  keeps_disk (Login.poll_iteration deviceCode interval).
Proof.
  unfold Login.poll_iteration, Login.API_BASE_URL. keeps.
Qed.

Lemma keeps_pollForToken (fuel : nat) :
  forall deviceCode interval,
    keeps_disk (Login.pollForToken fuel deviceCode interval).
Proof.
  induction fuel as [|fuel IH]; intros deviceCode interval; simpl.
  - intros w. reflexivity.
  - apply keeps_bind; [apply keeps_poll_iteration|].
    intros [data|interval']; [apply keeps_ret | apply IH].
Qed.

Lemma keeps_authorize : keeps_disk Login.authorize.
Proof.
  unfold Login.authorize. apply keeps_bind; [apply keeps_requestDeviceCode|].
  intros deviceCode. keeps.
Qed.

Lemma keeps_poll (fuel : nat) (deviceCode : value) :
  keeps_disk (Login.poll fuel deviceCode).
Proof.
  unfold Login.poll. apply keeps_bind; [apply keeps_lift|]. intros dc.
  apply keeps_bind; [apply keeps_lift|]. intros iv. apply keeps_pollForToken.
Qed.

Lemma keeps_banner : keeps_disk Login.banner.
Proof. unfold Login.banner. keeps. Qed.

(** A turn of the loop up to the parsed answer. *)
Lemma poll_iteration_run (deviceCode interval : value) (ms : number)
    (w : World) (r : Response) (data : value) :
  Coerce.js_mul interval (VNum (Dec 1 3)) = Val ms ->
  snd (poll_answer w ms deviceCode) = Some r ->
  JSON.parse (text r) = Some data ->
  Login.poll_iteration deviceCode interval w
  = (has_token <- lift (Coerce.has_prop (js "access_token") data) ;;
     if has_token then ret (Login.Return data)
     else
       error <- lift (Coerce.get_prop data (js "error")) ;;
       if Coerce.strict_eq_str error (js "authorization_pending") then
         Runtime.stdout_write (js ".") ;;;
         ret (Login.Continue interval)
       else if Coerce.strict_eq_str error (js "slow_down") then
         interval' <- lift (Coerce.js_plus interval (VNum (Dec 5 0))) ;;
         ret (Login.Continue interval')
       else if Coerce.strict_eq_str error (js "expired_token") then
         throw (Error Login.timed_out)
       else
         description <- lift (Coerce.get_prop data (js "error_description")) ;;
         err <- lift (Runtime.new_Error
                        (if Coerce.truthy description then description
                         else if Coerce.truthy error then error
                         else VStr (js "Authentication failed"))) ;;
         throw err) (polled w ms deviceCode).
Proof.
  intros Hms Ha Hp. unfold Login.poll_iteration.
  unfold bind at 1. unfold lift at 1. rewrite Hms.
  unfold bind at 1. unfold Runtime.sleep. fold (slept w ms).
  unfold bind at 1. unfold Login.API_BASE_URL, bind at 1, Runtime.getenv_api_url, ret.
  change (env_api_url (slept w ms)) with (env_api_url w). fold (login_base w).
  unfold bind at 1. rewrite fetch_run. unfold poll_answer in Ha.
  rewrite Ha. unfold bind at 1. unfold Runtime.json. rewrite Hp.
  reflexivity.
Qed.





(** ** C8: what is saved is loaded *)

Lemma skip_ws_app (ws x : jsstring) :
  all_ws ws -> JSON.skip_ws (ws ++ x) = JSON.skip_ws x.
Proof.
  unfold all_ws. induction ws as [|c ws IH]; simpl; [reflexivity|].
  intros H. apply andb_true_iff in H as [H1 H2]. rewrite H1. now apply IH.
Qed.

Lemma skip_ws_head (c : N) (x : jsstring) :
  JSON.is_ws c = false -> JSON.skip_ws (c :: x) = c :: x.
Proof. intros H. simpl. now rewrite H. Qed.

Lemma all_ws_app (a b : jsstring) : all_ws a -> all_ws b -> all_ws (a ++ b).
Proof.
  unfold all_ws. intros Ha Hb. rewrite forallb_app, Ha, Hb. reflexivity.
Qed.

(** One step of each parser. *)
Lemma parse_value_S (f : nat) (s : jsstring) :
  JSON.parse_value (S f) s
  = match JSON.skip_ws s with
    | [] => None
    | c :: r =>
        if (c =? dquote)%N then
          match JSON.parse_chars r with
          | Some (str, r') => Some (VStr str, r')
          | None => None
          end
        else if (c =? 91)%N then
          match JSON.after 93 (JSON.skip_ws r) with
          | Some r' => Some (VArr [], r')
          | None => match JSON.parse_elems f r with
                    | Some (vs, r') => Some (VArr vs, r')
                    | None => None
                    end
          end
        else if (c =? 123)%N then
          match JSON.after 125 (JSON.skip_ws r) with
          | Some r' => Some (VObj [], r')
          | None => match JSON.parse_members f r with
                    | Some (ms, r') => Some (JSON.build_obj ms, r')
                    | None => None
                    end
          end
        else
          match JSON.after_word (js "true") (c :: r) with
          | Some r' => Some (VBool true, r')
          | None =>
          match JSON.after_word (js "false") (c :: r) with
          | Some r' => Some (VBool false, r')
          | None =>
          match JSON.after_word (js "null") (c :: r) with
          | Some r' => Some (VNull, r')
          | None =>
          match JSON.parse_number (c :: r) with
          | Some (n, r') => Some (VNum n, r')
          | None => None
          end end end end
    end.
Proof. reflexivity. Qed.

Lemma parse_elems_S (f : nat) (s : jsstring) :
  JSON.parse_elems (S f) s
  = match JSON.parse_value f s with
    | None => None
    | Some (v, r) =>
        match JSON.skip_ws r with
        | [] => None
        | c :: r' =>
            if (c =? 93)%N then Some ([v], r')
            else if (c =? 44)%N then
              match JSON.parse_elems f r' with
              | Some (vs, r'') => Some (v :: vs, r'')
              | None => None
              end
            else None
        end
    end.
Proof. destruct f; reflexivity. Qed.

Lemma parse_members_S (f : nat) (s : jsstring) :
  JSON.parse_members (S f) s
  = match JSON.after dquote (JSON.skip_ws s) with
    | None => None
    | Some r =>
        match JSON.parse_chars r with
        | None => None
        | Some (k, r1) =>
            match JSON.after 58 (JSON.skip_ws r1) with
            | None => None
            | Some r2 =>
                match JSON.parse_value f r2 with
                | None => None
                | Some (v, r3) =>
                    match JSON.skip_ws r3 with
                    | [] => None
                    | c :: r' =>
                        if (c =? 125)%N then Some ([(k, v)], r')
                        else if (c =? 44)%N then
                          match JSON.parse_members f r' with
                          | Some (ms, r'') => Some ((k, v) :: ms, r'')
                          | None => None
                          end
                        else None
                    end
                end
            end
        end
    end.
Proof. destruct f; reflexivity. Qed.

(** ** JSON: the fuel of the parser

    Every parser consumes at least one character, so the fuel that
    [JSON.parse] gives is never what makes it fail. *)

Lemma skip_ws_length (s : jsstring) :
  (List.length (JSON.skip_ws s) <= List.length s)%nat.
Proof.
  induction s as [|c r IH]; cbn [JSON.skip_ws]; [lia|].
  destruct (JSON.is_ws c); cbn [List.length]; lia.
Qed.

Lemma after_length (c : N) (s r : jsstring) :
  JSON.after c s = Some r -> List.length s = S (List.length r).
Proof.
  destruct s as [|c' s']; cbn [JSON.after]; [discriminate|].
  destruct ((c' =? c)%N); [|discriminate].
  intros H. injection H as <-. reflexivity.
Qed.

Lemma after_word_length (p s r : jsstring) :
  JSON.after_word p s = Some r ->
  List.length s = (List.length p + List.length r)%nat.
Proof.
  revert s. induction p as [|x p IH]; intros s; cbn [JSON.after_word].
  - intros H. injection H as <-. reflexivity.
  - destruct (JSON.after x s) as [r'|] eqn:E; [|discriminate].
    intros H. apply IH in H. apply after_length in E. cbn [List.length]. lia.
Qed.

Lemma opt_cons_length (c : N) (x : option (jsstring * jsstring)) k r :
  JSON.opt_cons c x = Some (k, r) -> exists k', x = Some (k', r).
Proof.
  destruct x as [[k' r']|]; cbn [JSON.opt_cons]; [|discriminate].
  intros H. injection H as _ <-. now exists k'.
Qed.

Lemma parse_chars_length (n : nat) :
  forall s k r, (List.length s <= n)%nat ->
    JSON.parse_chars s = Some (k, r) -> (List.length r < List.length s)%nat.
Proof.
  induction n as [|n IH]; intros s k r Hn H.
  - destruct s; [discriminate H | cbn [List.length] in Hn; lia].
  - destruct s as [|c s1]; [discriminate H|].
    cbn [JSON.parse_chars] in H. cbn [List.length] in Hn |- *.
    destruct ((c =? dquote)%N).
    { injection H as _ <-. lia. }
    destruct ((c =? backslash)%N).
    { destruct s1 as [|e s2]; [discriminate H|].
      destruct ((e =? 117)%N).
      - destruct s2 as [|h1 [|h2 [|h3 [|h4 s3]]]]; try discriminate H.
        destruct (JSON.hex4 h1 h2 h3 h4); [|discriminate H].
        apply opt_cons_length in H. destruct H as (k' & H).
        apply IH in H; cbn [List.length] in *; lia.
      - destruct (JSON.unescape e); [|discriminate H].
        apply opt_cons_length in H. destruct H as (k' & H).
        apply IH in H; cbn [List.length] in *; lia. }
    destruct ((c <? 32)%N); [discriminate H|].
    apply opt_cons_length in H. destruct H as (k' & H).
    apply IH in H; lia.
Qed.

Lemma span_digits_length (s : jsstring) :
  forall ds r, span_digits s = (ds, r) ->
    List.length s = (List.length ds + List.length r)%nat.
Proof.
  induction s as [|c s IH]; intros ds r H; cbn [span_digits] in H.
  - injection H as <- <-. reflexivity.
  - destruct (is_digit c).
    + destruct (span_digits s) as [ds' r'] eqn:E. injection H as <- <-.
      cbn [List.length]. rewrite (IH _ _ eq_refl). lia.
    + injection H as <- <-. reflexivity.
Qed.

(** A leading character the grammar makes optional is dropped or not:
    what follows is no longer than the text. *)
Lemma minus_length (s r1 : jsstring) (b : bool) :
  match s with
  | 45%N :: r => (true, r)
  | _ => (false, s)
  end = (b, r1) ->
  (List.length r1 <= List.length s)%nat.
Proof.
  destruct s as [|c r]; [intros H; injection H as _ <-; lia|].
  destruct c as [|p]; [intros H; injection H as _ <-; lia|].
  repeat (destruct p as [p|p|];
          try (intros H; injection H as _ <-; cbn [List.length]; lia)).
Qed.

Lemma sign_length (s r1 : jsstring) (b : bool) :
  match s with
  | 45%N :: r' => (true, r')
  | 43%N :: r' => (false, r')
  | _ => (false, s)
  end = (b, r1) ->
  (List.length r1 <= List.length s)%nat.
Proof.
  destruct s as [|c r]; [intros H; injection H as _ <-; lia|].
  destruct c as [|p]; [intros H; injection H as _ <-; lia|].
  repeat (destruct p as [p|p|];
          try (intros H; injection H as _ <-; cbn [List.length]; lia)).
Qed.

Lemma fraction_length (s2 fp s3 : jsstring) :
  match s2 with
  | 46%N :: r => let (fp, s3) := span_digits r in
                 match fp with
                 | [] => None
                 | _ => Some (fp, s3)
                 end
  | _ => Some ([], s2)
  end = Some (fp, s3) ->
  (List.length s3 <= List.length s2)%nat.
Proof.
  destruct s2 as [|c r]; [intros H; injection H as _ <-; lia|].
  destruct c as [|p]; [intros H; injection H as _ <-; lia|].
  repeat (destruct p as [p|p|]; try (intros H; injection H as _ <-; lia)).
  destruct (span_digits r) as [fp' s3'] eqn:E.
  apply span_digits_length in E.
  destruct fp'; [discriminate|].
  intros H. injection H as _ <-. cbn [List.length] in *. lia.
Qed.

Lemma exponent_length (s3 s4 : jsstring) (e : Z) :
  match s3 with
  | c :: r =>
      if ((c =? 101) || (c =? 69))%N then
        let (eneg, r1) := match r with
                          | 45%N :: r' => (true, r')
                          | 43%N :: r' => (false, r')
                          | _ => (false, r)
                          end in
        let (ep, s4) := span_digits r1 in
        match ep with
        | [] => None
        | _ => Some (((if eneg then -1 else 1) * digits_val 0 ep)%Z, s4)
        end
      else Some (0%Z, s3)
  | [] => Some (0%Z, s3)
  end = Some (e, s4) ->
  (List.length s4 <= List.length s3)%nat.
Proof.
  destruct s3 as [|c r]; [intros H; injection H as _ <-; lia|].
  destruct ((c =? 101) || (c =? 69))%N;
    [|intros H; injection H as _ <-; lia].
  destruct (match r with
            | 45%N :: r' => (true, r')
            | 43%N :: r' => (false, r')
            | _ => (false, r)
            end) as [eneg r1] eqn:Hs.
  apply sign_length in Hs.
  destruct (span_digits r1) as [ep s4'] eqn:E.
  apply span_digits_length in E.
  destruct ep; [discriminate|].
  intros H. injection H as _ <-. cbn [List.length] in *. lia.
Qed.

Lemma parse_number_length (s r : jsstring) (n : number) :
  JSON.parse_number s = Some (n, r) -> (List.length r < List.length s)%nat.
Proof.
  unfold JSON.parse_number.
  destruct (match s with
            | 45%N :: r => (true, r)
            | _ => (false, s)
            end) as [neg s1] eqn:Hs.
  apply minus_length in Hs.
  destruct (span_digits s1) as [ip s2] eqn:E.
  apply span_digits_length in E.
  destruct ip as [|d ip']; [discriminate|].
  destruct ((d =? 48)%N && negb match ip' with [] => true | _ => false end);
    [discriminate|].
  match goal with
  | |- match ?x with Some _ => _ | None => _ end = _ -> _ =>
      destruct x as [[fp s3]|] eqn:Ef; [|discriminate]
  end.
  apply fraction_length in Ef.
  match goal with
  | |- match ?x with Some _ => _ | None => _ end = _ -> _ =>
      destruct x as [[e s4]|] eqn:Ee; [|discriminate]
  end.
  apply exponent_length in Ee.
  intros H. injection H as _ <-. cbn [List.length] in *. lia.
Qed.

Lemma after_word_shorter (p s r : jsstring) :
  JSON.after_word p s = Some r -> p <> [] ->
  (List.length r < List.length s)%nat.
Proof.
  intros H Hp. apply after_word_length in H.
  destruct p; [congruence | cbn [List.length] in H; lia].
Qed.

Lemma js_not_empty (c : ascii) (s : string) : js (String c s) <> [].
Proof. discriminate. Qed.

(** What a parser has read with some fuel it reads with any fuel that is
    at least twice the number of characters it consumed. *)
Lemma parse_fuel_bound (f : nat) :
  (forall s v r, JSON.parse_value f s = Some (v, r) ->
     (List.length r < List.length s)%nat
     /\ forall g, (2 * (List.length s - List.length r) <= g + 1)%nat ->
                  JSON.parse_value g s = Some (v, r))
  /\ (forall s vs r, JSON.parse_elems f s = Some (vs, r) ->
     (List.length r < List.length s)%nat
     /\ forall g, (2 * (List.length s - List.length r) <= g)%nat ->
                  JSON.parse_elems g s = Some (vs, r))
  /\ (forall s ms r, JSON.parse_members f s = Some (ms, r) ->
     (List.length r < List.length s)%nat
     /\ forall g, (2 * (List.length s - List.length r) <= g)%nat ->
                  JSON.parse_members g s = Some (ms, r)).
Proof.
  induction f as [|f (IHv & IHe & IHm)].
  - repeat split; intros; discriminate.
  - split; [|split].
    + intros s v r H. rewrite parse_value_S in H.
      pose proof (skip_ws_length s) as Hws.
      destruct (JSON.skip_ws s) as [|c r0] eqn:Es; [discriminate|].
      cbn [List.length] in Hws.
      destruct ((c =? dquote)%N) eqn:E1.
      { destruct (JSON.parse_chars r0) as [[str r']|] eqn:Ec; [|discriminate].
        injection H as <- <-.
        pose proof (parse_chars_length _ _ _ _ (le_n _) Ec).
        split; [lia|]. intros [|g] Hg; [lia|].
        rewrite parse_value_S, Es, E1, Ec. reflexivity. }
      destruct ((c =? 91)%N) eqn:E2.
      { pose proof (skip_ws_length r0).
        destruct (JSON.after 93 (JSON.skip_ws r0)) as [r'|] eqn:Ea.
        - injection H as <- <-. pose proof (after_length _ _ _ Ea).
          split; [lia|]. intros [|g] Hg; [lia|].
          rewrite parse_value_S, Es, E1, E2, Ea. reflexivity.
        - destruct (JSON.parse_elems f r0) as [[vs r']|] eqn:Ee; [|discriminate].
          injection H as <- <-. destruct (IHe _ _ _ Ee) as [Hl Hg'].
          split; [lia|]. intros [|g] Hg; [lia|].
          rewrite parse_value_S, Es, E1, E2, Ea.
          rewrite (Hg' g) by lia. reflexivity. }
      destruct ((c =? 123)%N) eqn:E3.
      { pose proof (skip_ws_length r0).
        destruct (JSON.after 125 (JSON.skip_ws r0)) as [r'|] eqn:Ea.
        - injection H as <- <-. pose proof (after_length _ _ _ Ea).
          split; [lia|]. intros [|g] Hg; [lia|].
          rewrite parse_value_S, Es, E1, E2, E3, Ea. reflexivity.
        - destruct (JSON.parse_members f r0) as [[ms r']|] eqn:Ee; [|discriminate].
          injection H as <- <-. destruct (IHm _ _ _ Ee) as [Hl Hg'].
          split; [lia|]. intros [|g] Hg; [lia|].
          rewrite parse_value_S, Es, E1, E2, E3, Ea.
          rewrite (Hg' g) by lia. reflexivity. }
      assert (Hlen : (List.length r < List.length (c :: r0))%nat).
      { destruct (JSON.after_word (js "true") (c :: r0)) as [r'|] eqn:Et.
        { injection H as _ <-. eapply after_word_shorter; [exact Et|apply js_not_empty]. }
        destruct (JSON.after_word (js "false") (c :: r0)) as [r'|] eqn:Ef.
        { injection H as _ <-. eapply after_word_shorter; [exact Ef|apply js_not_empty]. }
        destruct (JSON.after_word (js "null") (c :: r0)) as [r'|] eqn:En.
        { injection H as _ <-. eapply after_word_shorter; [exact En|apply js_not_empty]. }
        destruct (JSON.parse_number (c :: r0)) as [[n r']|] eqn:Ep; [|discriminate].
        injection H as _ <-. eapply parse_number_length; exact Ep. }
      cbn [List.length] in Hlen.
      split; [lia|]. intros [|g] Hg; [lia|].
      rewrite parse_value_S, Es, E1, E2, E3. exact H.
    + intros s vs r H. rewrite parse_elems_S in H.
      destruct (JSON.parse_value f s) as [[v r1]|] eqn:Ev; [|discriminate].
      destruct (IHv _ _ _ Ev) as [Hl1 Hg1].
      pose proof (skip_ws_length r1) as Hws.
      destruct (JSON.skip_ws r1) as [|c r'] eqn:Es; [discriminate|].
      cbn [List.length] in Hws.
      destruct ((c =? 93)%N) eqn:E1.
      { injection H as <- <-. split; [lia|]. intros [|g] Hg; [lia|].
        rewrite parse_elems_S. rewrite (Hg1 g) by lia.
        rewrite Es, E1. reflexivity. }
      destruct ((c =? 44)%N) eqn:E2; [|discriminate].
      destruct (JSON.parse_elems f r') as [[vs' r'']|] eqn:Ee; [|discriminate].
      injection H as <- <-. destruct (IHe _ _ _ Ee) as [Hl2 Hg2].
      split; [lia|]. intros [|g] Hg; [lia|].
      rewrite parse_elems_S. rewrite (Hg1 g) by lia.
      rewrite Es, E1, E2. rewrite (Hg2 g) by lia. reflexivity.
    + intros s ms r H. rewrite parse_members_S in H.
      pose proof (skip_ws_length s) as Hws0.
      destruct (JSON.after dquote (JSON.skip_ws s)) as [r0|] eqn:Eq; [|discriminate].
      pose proof (after_length _ _ _ Eq) as Hq.
      destruct (JSON.parse_chars r0) as [[k r1]|] eqn:Ec; [|discriminate].
      pose proof (parse_chars_length _ _ _ _ (le_n _) Ec) as Hc.
      pose proof (skip_ws_length r1) as Hws1.
      destruct (JSON.after 58 (JSON.skip_ws r1)) as [r2|] eqn:Ek; [|discriminate].
      pose proof (after_length _ _ _ Ek) as Hk.
      destruct (JSON.parse_value f r2) as [[v r3]|] eqn:Ev; [|discriminate].
      destruct (IHv _ _ _ Ev) as [Hl1 Hg1].
      pose proof (skip_ws_length r3) as Hws.
      destruct (JSON.skip_ws r3) as [|c r'] eqn:Es; [discriminate|].
      cbn [List.length] in Hws.
      destruct ((c =? 125)%N) eqn:E1.
      { injection H as <- <-. split; [lia|]. intros [|g] Hg; [lia|].
        rewrite parse_members_S, Eq, Ec, Ek. rewrite (Hg1 g) by lia.
        rewrite Es, E1. reflexivity. }
      destruct ((c =? 44)%N) eqn:E2; [|discriminate].
      destruct (JSON.parse_members f r') as [[ms' r'']|] eqn:Ee; [|discriminate].
      injection H as <- <-. destruct (IHm _ _ _ Ee) as [Hl2 Hg2].
      split; [lia|]. intros [|g] Hg; [lia|].
      rewrite parse_members_S, Eq, Ec, Ek. rewrite (Hg1 g) by lia.
      rewrite Es, E1, E2. rewrite (Hg2 g) by lia. reflexivity.
Qed.

(** The fuel [JSON.parse] gives its parser is enough: a text that can be
    read with some fuel is read with that one, so [None] is a text that is
    not JSON. *)
Theorem parse_fuel_enough (text : jsstring) (f : nat) (v : value) (r : jsstring) :
  JSON.parse_value f text = Some (v, r) ->
  JSON.parse_value (2 * List.length text + 2) text = Some (v, r).
Proof.
  intros H. destruct (parse_fuel_bound f) as (Hv & _).
  destruct (Hv _ _ _ H) as [_ Hg]. apply Hg. lia.
Qed.

Corollary parse_complete (text : jsstring) (v : value) :
  JSON.parse text = Some v
  <-> exists f r, JSON.parse_value f text = Some (v, r) /\ JSON.skip_ws r = [].
Proof.
  unfold JSON.parse. split.
  - destruct (JSON.parse_value _ text) as [[v' r]|] eqn:E; [|discriminate].
    destruct (JSON.skip_ws r) eqn:Er; [|discriminate].
    intros H. injection H as <-. eauto.
  - intros (f & r & H & Hr). rewrite (parse_fuel_enough _ _ _ _ H), Hr.
    reflexivity.
Qed.

Lemma wrap_parts (gap indent l r p : jsstring) (ps : list jsstring) :
  JSON.wrap gap indent l r (p :: ps)
  = l ++ lead gap indent
      ++ JSON.join (44%N :: lead gap indent) (p :: ps)
      ++ trail gap indent ++ r.
Proof.
  unfold JSON.wrap, lead, trail. destruct gap as [|g gap]; [reflexivity|].
  change (js ",") with [44%N]. cbn [app]. reflexivity.
Qed.

Lemma all_ws_lead (gap indent : jsstring) :
  all_ws gap -> all_ws indent -> all_ws (lead gap indent).
Proof.
  intros Hg Hi. unfold lead. destruct gap as [|g gap]; [reflexivity|].
  apply (all_ws_app [JSON.newline]); [reflexivity|]. now apply all_ws_app.
Qed.

Lemma all_ws_trail (gap indent : jsstring) :
  all_ws indent -> all_ws (trail gap indent).
Proof.
  intros Hi. unfold trail. destruct gap as [|g gap]; [reflexivity|].
  now apply (all_ws_app [JSON.newline]).
Qed.

Lemma join_cons (sep p q : jsstring) (ps : list jsstring) :
  JSON.join sep (p :: q :: ps) = p ++ sep ++ JSON.join sep (q :: ps).
Proof. reflexivity. Qed.

(** The elements of an array, once their texts read back. *)
Lemma elems_read (F : value -> jsstring) (ws1 ws3 : jsstring) :
  all_ws ws1 -> all_ws ws3 ->
  forall l, l <> [] ->
    Forall (fun x => reads_as x (F x)) l ->
    forall f rest,
      (2 * List.length (JSON.join (44%N :: ws1) (map F l)) + 1 <= f)%nat ->
      JSON.parse_elems f (ws1 ++ JSON.join (44%N :: ws1) (map F l)
                              ++ ws3 ++ 93%N :: rest)
      = Some (l, rest).
Proof.
  intros H1 H3. induction l as [|x l IH]; [congruence|].
  intros _ HF f rest Hf. inversion HF as [|? ? [_ Hx] HF']; subst.
  destruct f as [|f]; [lia|]. rewrite parse_elems_S.
  destruct l as [|y l].
  - cbn [map JSON.join] in *. rewrite Hx by (assumption || lia).
    rewrite skip_ws_app by assumption. reflexivity.
  - cbn [map] in *. rewrite join_cons in *.
    rewrite <- !app_assoc. rewrite Hx by (try assumption; rewrite length_app in Hf; lia).
    cbn [app]. rewrite skip_ws_head by reflexivity.
    change ((44 =? 93)%N) with false. change ((44 =? 44)%N) with true.
    cbv beta iota.
    rewrite (IH ltac:(discriminate) HF' f rest).
    + reflexivity.
    + rewrite !length_app in Hf. cbn [List.length] in Hf. lia.
Qed.

(** The properties of an object, once the texts of their values read
    back. *)
Lemma members_read (F : value -> jsstring) (gap ws1 ws3 : jsstring) :
  all_ws gap -> all_ws ws1 -> all_ws ws3 ->
  forall o : list (jsstring * value), o <> [] ->
    Forall (fun kv => reads_as (snd kv) (F (snd kv))) o ->
    forall f rest,
      (2 * List.length (JSON.join (44%N :: ws1)
                          (map (fun kv => JSON.member gap (fst kv) (F (snd kv))) o))
       + 1 <= f)%nat ->
      JSON.parse_members f
        (ws1 ++ JSON.join (44%N :: ws1)
                  (map (fun kv => JSON.member gap (fst kv) (F (snd kv))) o)
             ++ ws3 ++ 125%N :: rest)
      = Some (o, rest).
Proof.
  intros Hg H1 H3. induction o as [|[k x] o IH]; [congruence|].
  intros _ HF f rest Hf. inversion HF as [|? ? [_ Hx] HF']; subst.
  cbn [fst snd] in Hx.
  assert (Hsp : all_ws match gap with [] => [] | _ => js " " end)
    by (destruct gap; reflexivity).
  assert (Hlen : forall t, (List.length t < List.length (JSON.member gap k t))%nat).
  { intros t. unfold JSON.member, JSON.quote. cbn [app List.length].
    rewrite !length_app. lia. }
  destruct f as [|f]; [lia|]. rewrite parse_members_S.
  rewrite skip_ws_app by assumption.
  destruct o as [|[k' y] o].
  - cbn [map JSON.join fst snd] in *.
    unfold JSON.member at 1, JSON.quote. cbn [app].
    rewrite skip_ws_head by reflexivity. cbn [JSON.after].
    change ((dquote =? dquote)%N) with true. cbv beta iota.
    rewrite <- !app_assoc. cbn [app]. rewrite parse_chars_quote.
    change (js ":") with [58%N]. cbn [app].
    rewrite skip_ws_head by reflexivity. cbn [JSON.after].
    change ((58 =? 58)%N) with true. cbv beta iota.
    rewrite Hx by (try assumption; specialize (Hlen (F x)); lia).
    rewrite skip_ws_app by assumption. reflexivity.
  - cbn [map fst snd] in *. rewrite join_cons in *.
    unfold JSON.member at 1, JSON.quote. cbn [app].
    rewrite skip_ws_head by reflexivity. cbn [JSON.after].
    change ((dquote =? dquote)%N) with true. cbv beta iota.
    rewrite <- !app_assoc. cbn [app]. rewrite parse_chars_quote.
    change (js ":") with [58%N]. cbn [app].
    rewrite skip_ws_head by reflexivity. cbn [JSON.after].
    change ((58 =? 58)%N) with true. cbv beta iota.
    rewrite Hx by (try assumption; specialize (Hlen (F x));
                   rewrite length_app in Hf; lia).
    rewrite skip_ws_head by reflexivity.
    change ((44 =? 125)%N) with false. change ((44 =? 44)%N) with true.
    cbv beta iota. rewrite <- ?app_assoc.
    rewrite (IH ltac:(discriminate) HF' f rest).
    + reflexivity.
    + rewrite !length_app in Hf. cbn [List.length] in Hf. lia.
Qed.

Lemma omap_map {A B} (f : A -> option B) (g : A -> B) (l : list A) :
  Forall (fun x => f x = Some (g x)) l -> JSON.omap f l = map g l.
Proof.
  induction 1 as [|x l Hx _ IH]; cbn [JSON.omap map]; [reflexivity|].
  rewrite Hx. f_equal. exact IH.
Qed.

Lemma serialize_arr (gap indent : jsstring) (l : list value) :
  JSON.serialize gap indent (VArr l)
  = Some (JSON.wrap gap indent (js "[") (js "]")
            (map (fun x => match JSON.serialize gap (indent ++ gap) x with
                           | Some t => t
                           | None => js "null"
                           end) l)).
Proof. reflexivity. Qed.

Lemma serialize_obj (gap indent : jsstring) (o : list (jsstring * value)) :
  JSON.serialize gap indent (VObj o)
  = Some (JSON.wrap gap indent (js "{") (js "}")
            (JSON.omap (fun kx =>
                          match JSON.serialize gap (indent ++ gap) (snd kx) with
                          | Some t => Some (JSON.member gap (fst kx) t)
                          | None => None
                          end) o)).
Proof. reflexivity. Qed.

Lemma reads_as_atom (v : value) (t : jsstring) (c : N) (t' : jsstring) :
  t = c :: t' ->
  JSON.is_ws c = false -> (c =? 93)%N = false -> (c =? 125)%N = false ->
  (forall f rest, JSON.parse_value (S f) (t ++ rest) = Some (v, rest)) ->
  reads_as v t.
Proof.
  intros Ht H1 H2 H3 Hp. split; [exists c, t'; repeat split; assumption|].
  intros f ws rest Hws Hf. destruct f as [|f]; [subst t; simpl in Hf; lia|].
  specialize (Hp f rest). rewrite parse_value_S in Hp |- *.
  rewrite skip_ws_app by assumption. subst t. cbn [app] in Hp |- *.
  rewrite skip_ws_head in Hp |- * by assumption. exact Hp.
Qed.

Lemma join_head (sep p : jsstring) (ps : list jsstring) :
  exists x, JSON.join sep (p :: ps) = p ++ x.
Proof.
  destruct ps as [|q ps].
  - exists []. cbn [JSON.join]. now rewrite app_nil_r.
  - eexists. apply join_cons.
Qed.

(** Every clean value is written as a text that reads back as the
    value. *)
Lemma serialize_reads_back (v : value) :
  clean v ->
  forall gap indent, all_ws gap -> all_ws indent ->
    exists t, JSON.serialize gap indent v = Some t /\ reads_as v t.
Proof.
  induction v as [ | |b|n|s|l IH|o IH] using value_induction;
    intros Hc gap indent Hg Hi.
  - contradiction.
  - exists (js "null"). split; [reflexivity|].
    apply reads_as_atom with 110%N (js "ull"); try reflexivity.
  - destruct b.
    + exists (js "true"). split; [reflexivity|].
      apply reads_as_atom with 116%N (js "rue"); try reflexivity.
    + exists (js "false"). split; [reflexivity|].
      apply reads_as_atom with 102%N (js "alse"); try reflexivity.
  - contradiction.
  - exists (JSON.quote s). split; [reflexivity|].
    apply reads_as_atom with dquote (JSON.quote_chars s ++ [dquote]);
      try reflexivity.
    intros f rest. rewrite parse_value_S. unfold JSON.quote. cbn [app].
    rewrite skip_ws_head by reflexivity.
    change ((dquote =? dquote)%N) with true. cbv beta iota.
    rewrite <- app_assoc. cbn [app]. now rewrite parse_chars_quote.
  - (* arrays *)
    rewrite serialize_arr. eexists. split; [reflexivity|].
    set (F := fun x => match JSON.serialize gap (indent ++ gap) x with
                       | Some t => t
                       | None => js "null"
                       end).
    assert (HF : Forall (fun x => reads_as x (F x)) l).
    { cbn [clean] in Hc. induction IH as [|x l Hx _ IHl]; [constructor|].
      destruct Hc as [Hcx Hcl]. constructor; [|now apply IHl].
      destruct (Hx Hcx gap (indent ++ gap) Hg (all_ws_app _ _ Hi Hg))
        as (t & Ht & Hr).
      unfold F. now rewrite Ht. }
    destruct l as [|x l].
    + apply reads_as_atom with 91%N [93%N]; try reflexivity.
    + cbn [map]. rewrite wrap_parts. change (js "[") with [91%N].
      change (js "]") with [93%N]. cbn [app].
      fold (map F l). change (F x :: map F l) with (map F (x :: l)).
      pose proof (all_ws_lead gap indent Hg Hi) as Hl.
      pose proof (all_ws_trail gap indent Hi) as Ht.
      split; [eexists; eexists; repeat split; reflexivity|].
      intros f ws rest Hws Hf. destruct f as [|f]; [simpl in Hf; lia|].
      rewrite parse_value_S, skip_ws_app by assumption. cbn [app].
      rewrite skip_ws_head by reflexivity.
      change ((91 =? dquote)%N) with false. change ((91 =? 91)%N) with true.
      cbv beta iota. rewrite <- !app_assoc. rewrite skip_ws_app by assumption.
      assert (Hafter : forall z,
                 JSON.after 93 (JSON.skip_ws
                                  (JSON.join (44%N :: lead gap indent)
                                     (map F (x :: l)) ++ z)) = None).
      { intros z. inversion HF as [|? ? [(c & t' & Hh & Hn & H93 & _) _] _]; subst.
        destruct (join_head (44%N :: lead gap indent) (F x) (map F l)) as [y Hy].
        cbn [map]. rewrite Hy, Hh. cbn [app].
        rewrite skip_ws_head by assumption. cbn [JSON.after]. now rewrite H93. }
      change (F x :: map F l) with (map F (x :: l)). rewrite Hafter.
      change ([93%N] ++ rest) with (93%N :: rest).
      rewrite (elems_read F _ _ Hl Ht (x :: l)); try assumption.
      * reflexivity.
      * discriminate.
      * cbn [List.length] in Hf. rewrite !length_app in Hf. lia.
  - (* objects *)
    rewrite serialize_obj.
    set (F := fun x => match JSON.serialize gap (indent ++ gap) x with
                       | Some t => t
                       | None => js "null"
                       end).
    cbn [clean] in Hc. destruct Hc as [Hcan Hc].
    assert (HF : Forall (fun kv => reads_as (snd kv) (F (snd kv))
                                   /\ JSON.serialize gap (indent ++ gap) (snd kv)
                                      = Some (F (snd kv))) o).
    { clear Hcan. induction IH as [|[k x] o Hx _ IHo]; [constructor|].
      destruct Hc as [Hcx Hco]. constructor; [|now apply IHo].
      destruct (Hx Hcx gap (indent ++ gap) Hg (all_ws_app _ _ Hi Hg))
        as (t & Ht & Hr).
      cbn [snd] in *. unfold F. rewrite Ht. split; [assumption | reflexivity]. }
    rewrite (omap_map _ (fun kv => JSON.member gap (fst kv) (F (snd kv)))).
    2:{ eapply Forall_impl; [|exact HF]. intros kv [_ E]. cbv beta.
        now rewrite E. }
    assert (HF' : Forall (fun kv => reads_as (snd kv) (F (snd kv))) o).
    { eapply Forall_impl; [|exact HF]. intros kv [R _]. exact R. }
    eexists. split; [reflexivity|].
    destruct o as [|[k x] o].
    + apply reads_as_atom with 123%N [125%N]; try reflexivity.
    + cbn [map]. rewrite wrap_parts. change (js "{") with [123%N].
      change (js "}") with [125%N]. cbn [app].
      pose proof (all_ws_lead gap indent Hg Hi) as Hl.
      pose proof (all_ws_trail gap indent Hi) as Ht.
      split; [eexists; eexists; repeat split; reflexivity|].
      intros f ws rest Hws Hf. destruct f as [|f]; [simpl in Hf; lia|].
      rewrite parse_value_S, skip_ws_app by assumption. cbn [app].
      rewrite skip_ws_head by reflexivity.
      change ((123 =? dquote)%N) with false. change ((123 =? 91)%N) with false.
      change ((123 =? 123)%N) with true.
      cbv beta iota. rewrite <- !app_assoc. rewrite skip_ws_app by assumption.
      set (G := fun kv : jsstring * value => JSON.member gap (fst kv) (F (snd kv))).
      assert (Hafter : forall z,
                 JSON.after 125 (JSON.skip_ws
                                   (JSON.join (44%N :: lead gap indent)
                                      (map G ((k, x) :: o)) ++ z)) = None).
      { intros z.
        destruct (join_head (44%N :: lead gap indent) (G (k, x)) (map G o))
          as [y Hy].
        cbn [map]. rewrite Hy. unfold G at 1. unfold JSON.member, JSON.quote.
        cbn [app fst]. rewrite skip_ws_head by reflexivity. reflexivity. }
      change (JSON.member gap (fst (k, x)) (F (snd (k, x))) :: map G o)
        with (map G ((k, x) :: o)).
      rewrite Hafter. unfold G.
      change ([125%N] ++ rest) with (125%N :: rest).
      rewrite (members_read F gap _ _ Hg Hl Ht ((k, x) :: o)); try assumption.
      * unfold JSON.build_obj. rewrite Hcan. reflexivity.
      * discriminate.
      * cbn [List.length] in Hf. rewrite !length_app in Hf.
        cbn [map] in Hf |- *. lia.
Qed.

Lemma stable_nil : stable [].
Proof. intros rest. reflexivity. Qed.

Lemma stable_app (a b : jsstring) : stable a -> stable b -> stable (a ++ b).
Proof.
  intros Ha Hb rest. now rewrite <- !app_assoc, Ha, Hb.
Qed.

Lemma stable_cons (c : N) (t : jsstring) :
  (c < 55296)%N -> stable t -> stable (c :: t).
Proof.
  intros Hc Ht rest. cbn [app]. destruct (not_surrogate c Hc) as [H1 H2].
  rewrite wf_plain by assumption. now rewrite Ht.
Qed.

Lemma stable_ws (s : jsstring) : all_ws s -> stable s.
Proof.
  unfold all_ws. induction s as [|c s IH]; [intros _; apply stable_nil|].
  cbn [forallb]. intros H. apply andb_true_iff in H as [H1 H2].
  apply stable_cons; [|now apply IH].
  unfold JSON.is_ws in H1.
  repeat (apply orb_true_iff in H1 as [H1 | H1]);
    apply N.eqb_eq in H1; subst; reflexivity.
Qed.

Lemma stable_quote (s : jsstring) : stable (JSON.quote s).
Proof.
  intros rest. unfold JSON.quote. cbn [app].
  rewrite wf_plain by reflexivity. rewrite <- !app_assoc, wf_quote_chars.
  cbn [app]. rewrite wf_plain by reflexivity. reflexivity.
Qed.

Lemma stable_join (sep : jsstring) (parts : list jsstring) :
  stable sep -> Forall stable parts -> stable (JSON.join sep parts).
Proof.
  intros Hs. induction 1 as [|p ps Hp Hps IH]; [apply stable_nil|].
  destruct ps as [|q ps]; [exact Hp|]. rewrite join_cons.
  apply stable_app; [exact Hp|]. apply stable_app; [exact Hs | exact IH].
Qed.

Lemma stable_wrap (gap indent l r : jsstring) (parts : list jsstring) :
  all_ws gap -> all_ws indent -> stable l -> stable r ->
  Forall stable parts -> stable (JSON.wrap gap indent l r parts).
Proof.
  intros Hg Hi Hl Hr Hp. destruct parts as [|p ps].
  - now apply stable_app.
  - rewrite wrap_parts.
    pose proof (stable_ws _ (all_ws_lead gap indent Hg Hi)) as H1.
    pose proof (stable_ws _ (all_ws_trail gap indent Hi)) as H3.
    repeat apply stable_app; try assumption.
    apply stable_join; [|assumption].
    apply stable_cons; [reflexivity | assumption].
Qed.

(** The text of a clean value goes through the file unchanged. *)
Lemma serialize_stable (v : value) :
  clean v ->
  forall gap indent t, all_ws gap -> all_ws indent ->
    JSON.serialize gap indent v = Some t -> stable t.
Proof.
  induction v as [ | |b|n|s|l IH|o IH] using value_induction;
    intros Hc gap indent t Hg Hi Ht.
  - contradiction.
  - inversion Ht; subst. intros rest. reflexivity.
  - destruct b; inversion Ht; subst; intros rest; reflexivity.
  - contradiction.
  - inversion Ht; subst. apply stable_quote.
  - rewrite serialize_arr in Ht. inversion Ht; subst. clear Ht.
    apply stable_wrap; try assumption; try (intros rest; reflexivity).
    cbn [clean] in Hc. induction IH as [|x l Hx _ IHl]; [constructor|].
    destruct Hc as [Hcx Hcl]. cbn [map]. constructor; [|now apply IHl].
    destruct (JSON.serialize gap (indent ++ gap) x) as [t|] eqn:E.
    + apply (Hx Hcx gap (indent ++ gap) t Hg (all_ws_app _ _ Hi Hg) E).
    + intros rest. reflexivity.
  - rewrite serialize_obj in Ht. inversion Ht; subst. clear Ht.
    apply stable_wrap; try assumption; try (intros rest; reflexivity).
    cbn [clean] in Hc. destruct Hc as [_ Hc].
    induction IH as [|[k x] o Hx _ IHo]; [constructor|].
    destruct Hc as [Hcx Hco]. cbn [JSON.omap snd fst] in *.
    destruct (JSON.serialize gap (indent ++ gap) x) as [t|] eqn:E;
      [|now apply IHo].
    constructor; [|now apply IHo].
    unfold JSON.member. apply stable_app; [apply stable_quote|].
    apply stable_app; [intros rest; reflexivity|].
    apply stable_app.
    + destruct gap; intros rest; reflexivity.
    + apply (Hx Hcx gap (indent ++ gap) t Hg (all_ws_app _ _ Hi Hg) E).
Qed.

(** [JSON.parse] reads a clean value back from the text
    [JSON.stringify(v, null, 2)] wrote to the file. *)
Theorem stringify_parse (v : value) :
  clean v ->
  exists t, JSON.stringify2 v = Some t
            /\ Runtime.toWellFormed t = t
            /\ JSON.parse t = Some v.
Proof.
  intros Hc.
  destruct (serialize_reads_back v Hc (js "  ") [] eq_refl eq_refl)
    as (t & Ht & _ & Hr).
  exists t. split; [exact Ht|]. split.
  - pose proof (serialize_stable v Hc (js "  ") [] t eq_refl eq_refl Ht []) as S.
    cbn [Runtime.toWellFormed] in S. rewrite !app_nil_r in S. exact S.
  - unfold JSON.parse.
    specialize (Hr (2 * List.length t + 2)%nat [] [] eq_refl ltac:(lia)).
    cbn [app] in Hr. rewrite app_nil_r in Hr. rewrite Hr. reflexivity.
Qed.

Lemma clean_token (t : Auth.TokenData) : clean (Auth.token_value t).
Proof.
  unfold Auth.token_value, Auth.user_value. cbn [clean].
  repeat split; reflexivity.
Qed.

Lemma saveToken_inv (v : value) (w w' : World) :
  Auth.saveToken v w = (Ok tt, w') ->
  exists t m, JSON.stringify2 v = Some t
              /\ file (disk w') = File m (Runtime.toWellFormed t).
Proof.
  unfold Auth.saveToken. unfold_run.
  destruct (JSON.stringify2 v) as [t|].
  - repeat (case_step; simpl in * ); intros H; inversion H; subst;
      eexists; eexists; split; reflexivity.
  - repeat (case_step; simpl in * ); intros H; discriminate H.
Qed.

(** C8.  A credential record that has been saved is loaded back
    unchanged: after a [saveToken] that succeeded, [loadToken] returns the
    record that was saved; and [saveToken] succeeds whenever the token
    file can be written. *)
Theorem save_then_load :
  forall (t : Auth.TokenData) (w : World),
    (forall w', Auth.saveToken (Auth.token_value t) w = (Ok tt, w') ->
                Auth.loadToken w' = (Ok (Auth.token_value t), w'))
    /\ (can_save (disk w) = true ->
        exists w', Auth.saveToken (Auth.token_value t) w = (Ok tt, w')
                   /\ Auth.loadToken w' = (Ok (Auth.token_value t), w')).
Proof.
  intros t w.
  destruct (stringify_parse (Auth.token_value t) (clean_token t))
    as (j & Hj & Hwf & Hp).
  assert (H : forall w', Auth.saveToken (Auth.token_value t) w = (Ok tt, w') ->
                         Auth.loadToken w' = (Ok (Auth.token_value t), w')).
  { intros w' Hs. destruct (saveToken_inv _ _ _ Hs) as (j' & m & Hj' & Hf).
    rewrite Hj in Hj'. inversion Hj'; subst j'.
    rewrite loadToken_run, Hf, Hwf, Hp. reflexivity. }
  split; [exact H|]. intros Hc.
  eexists. split; [apply (saveToken_run _ j w Hj Hc)|].
  apply H. apply (saveToken_run _ j w Hj Hc).
Qed.

Lemma save_then_load_witness :
  let w := Scenario.world NoFile Scenario.t0 Scenario.offline in
  exists w', Auth.saveToken (Auth.token_value Scenario.ann) w = (Ok tt, w')
             /\ Auth.loadToken w' = (Ok (Auth.token_value Scenario.ann), w').
Proof.
  intros w. apply (save_then_load Scenario.ann w). reflexivity.
Defined.

(** ** Dates: what [toISOString] writes, [Date.parse] reads *)

Lemma all_from_spec (ok : Z -> bool) (n : nat) :
  forall z, all_from ok n z = true ->
  forall k, z <= k < z + Z.of_nat n -> ok k = true.
Proof.
  induction n as [|n IH]; intros z H k Hk; [lia|].
  cbn [all_from] in H. apply andb_true_iff in H as [H1 H2].
  destruct (Z.eq_dec k z) as [-> | N]; [exact H1|].
  apply (IH (z + 1) H2). lia.
Qed.

Lemma era_days_ok : all_from era_day_ok (Z.to_nat 146097) 0 = true.
Proof. vm_compute. reflexivity. Qed.

Lemma digit_chr_ok (x : Z) :
  0 <= x <= 9 -> is_digit (digit_chr x) = true /\ digit_val (digit_chr x) = x.
Proof.
  intros H. unfold is_digit, digit_chr, digit_val. split.
  - apply andb_true_iff. split; apply N.leb_le; lia.
  - lia.
Qed.

Lemma take_digits_digit (k : nat) (acc x : Z) (r : jsstring) :
  0 <= x <= 9 ->
  Date.take_digits (S k) acc (digit_chr x :: r)
  = Date.take_digits k (10 * acc + x) r.
Proof.
  intros H. destruct (digit_chr_ok x H) as [H1 H2].
  cbn [Date.take_digits]. now rewrite H1, H2.
Qed.

Lemma mod10 (n : Z) : 0 <= n mod 10 <= 9.
Proof. pose proof (Z.mod_pos_bound n 10 ltac:(lia)). lia. Qed.

Lemma take_pad2 (n : Z) (rest : jsstring) :
  0 <= n < 100 -> Date.take_digits 2 0 (Date.pad2 n ++ rest) = Some (n, rest).
Proof.
  intros H. unfold Date.pad2. cbn [app].
  rewrite !take_digits_digit by apply mod10. cbn [Date.take_digits].
  f_equal. f_equal. Z.to_euclidean_division_equations. lia.
Qed.

Lemma take_pad3 (n : Z) (rest : jsstring) :
  0 <= n < 1000 -> Date.take_digits 3 0 (Date.pad3 n ++ rest) = Some (n, rest).
Proof.
  intros H. unfold Date.pad3, Date.pad2. cbn [app].
  rewrite !take_digits_digit by apply mod10. cbn [Date.take_digits].
  f_equal. f_equal. Z.to_euclidean_division_equations. lia.
Qed.

Lemma take_pad4 (n : Z) (rest : jsstring) :
  0 <= n < 10000 -> Date.take_digits 4 0 (Date.pad4 n ++ rest) = Some (n, rest).
Proof.
  intros H. unfold Date.pad4, Date.pad3, Date.pad2. cbn [app].
  rewrite !take_digits_digit by apply mod10. cbn [Date.take_digits].
  f_equal. f_equal. Z.to_euclidean_division_equations. lia.
Qed.

Lemma take_pad6 (n : Z) (rest : jsstring) :
  0 <= n < 1000000 ->
  Date.take_digits 6 0 (Date.pad6 n ++ rest) = Some (n, rest).
Proof.
  intros H. unfold Date.pad6, Date.pad4, Date.pad3, Date.pad2. cbn [app].
  rewrite !take_digits_digit by apply mod10. cbn [Date.take_digits].
  f_equal. f_equal. Z.to_euclidean_division_equations. lia.
Qed.

Lemma parse_year_string (y : Z) (rest : jsstring) :
  -1000000 < y < 1000000 ->
  Date.parse_year (Date.year_string y ++ rest) = Some (y, rest).
Proof.
  intros H. unfold Date.year_string.
  destruct ((0 <=? y) && (y <=? 9999)) eqn:E.
  - apply andb_true_iff in E as [E1 E2]. apply Z.leb_le in E1, E2.
    pose proof (take_pad4 y rest ltac:(lia)) as T.
    unfold Date.pad4 in *. cbn [app] in *. unfold Date.parse_year.
    destruct (digit_chr_ok (y / 1000 mod 10) (mod10 _)) as [D _].
    unfold is_digit in D. apply andb_true_iff in D as [D1 D2].
    apply N.leb_le in D1, D2.
    replace (digit_chr (y / 1000 mod 10) =? 43)%N with false
      by (symmetry; apply N.eqb_neq; lia).
    replace (digit_chr (y / 1000 mod 10) =? 45)%N with false
      by (symmetry; apply N.eqb_neq; lia).
    exact T.
  - destruct (y <? 0) eqn:N.
    + apply Z.ltb_lt in N. change (js "-") with [45%N]. cbn [app].
      unfold Date.parse_year. change (45 =? 43)%N with false.
      change (45 =? 45)%N with true. cbv beta iota.
      rewrite take_pad6 by lia.
      replace (Z.abs y =? 0) with false by (symmetry; apply Z.eqb_neq; lia).
      f_equal. f_equal. lia.
    + apply Z.ltb_ge in N. change (js "+") with [43%N]. cbn [app].
      unfold Date.parse_year. change (43 =? 43)%N with true. cbv beta iota.
      rewrite take_pad6 by lia. f_equal. f_equal. lia.
Qed.

Lemma civil_from_days_eq (z : Z) :
  Date.civil_from_days z
  = let era := (z + 719468) / 146097 in
    let '(yoe, m, d) := civil_of_doe (z + 719468 - era * 146097) in
    (yoe + era * 400 + (if m <=? 2 then 1 else 0), m, d).
Proof. reflexivity. Qed.

Lemma days_from_civil_eq (y m d : Z) :
  Date.days_from_civil y m d
  = let y' := y - (if m <=? 2 then 1 else 0) in
    let era := y' / 400 in
    era * 146097 + doe_of_civil (y' - era * 400) m d - 719468.
Proof. reflexivity. Qed.

(** The calendar date of a day number is a valid date, and gives the day
    number back. *)
Lemma civil_roundtrip (z : Z) :
  let '(y, m, d) := Date.civil_from_days z in
  1 <= m <= 12 /\ 1 <= d <= 31 /\ Date.days_from_civil y m d = z
  /\ (z + 719468) / 146097 * 400 <= y <= (z + 719468) / 146097 * 400 + 400.
Proof.
  rewrite civil_from_days_eq. cbv zeta.
  set (era := (z + 719468) / 146097).
  set (doe := z + 719468 - era * 146097).
  assert (Hdoe : 0 <= doe < 146097).
  { unfold doe, era. pose proof (Z.mod_pos_bound (z + 719468) 146097 ltac:(lia)).
    rewrite Z.mod_eq in H by lia. lia. }
  pose proof (all_from_spec era_day_ok _ 0 era_days_ok doe ltac:(lia)) as Hok.
  unfold era_day_ok in Hok.
  destruct (civil_of_doe doe) as [[yoe m] d].
  repeat (apply andb_true_iff in Hok as [Hok ?]).
  repeat match goal with
         | H : (_ <=? _) = true |- _ => apply Z.leb_le in H
         | H : (_ =? _) = true |- _ => apply Z.eqb_eq in H
         end.
  split; [lia|]. split; [lia|]. split.
  - rewrite days_from_civil_eq. cbv zeta.
    replace (yoe + era * 400 + (if m <=? 2 then 1 else 0)
             - (if m <=? 2 then 1 else 0)) with (yoe + era * 400) by lia.
    assert (E : (yoe + era * 400) / 400 = era).
    { rewrite Z.div_add by lia. rewrite Z.div_small by lia. lia. }
    rewrite E. replace (yoe + era * 400 - era * 400) with yoe by lia.
    unfold doe in *. lia.
  - destruct (m <=? 2); lia.
Qed.

(** [Date.parse] reads back the instant [toISOString] wrote, for every
    valid time value. *)
Theorem date_roundtrip (t : Z) :
  Z.abs t <= Date.max_time -> Date.parse (Date.iso_string t) = Some t.
Proof.
  intros Ht. unfold Date.max_time in Ht. unfold Date.iso_string.
  unfold Date.ms_per_day.
  set (day := t / 86400000). set (tid := t mod 86400000).
  assert (Htid : 0 <= tid < 86400000) by (apply Z.mod_pos_bound; lia).
  assert (Hday : -100000000 <= day <= 100000000).
  { unfold day. Z.to_euclidean_division_equations. lia. }
  assert (Et : day * 86400000 + tid = t).
  { unfold day, tid. pose proof (Z.div_mod t 86400000 ltac:(lia)). lia. }
  pose proof (civil_roundtrip day) as C.
  destruct (Date.civil_from_days day) as [[y m] d].
  destruct C as (Hm & Hd & Hdays & Hy).
  assert (Hyb : -1000000 < y < 1000000).
  { revert Hy. Z.to_euclidean_division_equations. lia. }
  unfold Date.parse. rewrite parse_year_string by assumption.
  change (js "-") with [45%N]. change (js "T") with [84%N].
  change (js ":") with [58%N]. change (js ".") with [46%N].
  change (js "Z") with [90%N].
  cbn [app Date.expect]. change (45 =? 45)%N with true. cbv beta iota.
  rewrite take_pad2 by lia. cbn [app Date.expect].
  change (45 =? 45)%N with true. cbv beta iota.
  rewrite take_pad2 by lia. cbn [app Date.expect].
  change (84 =? 84)%N with true. cbv beta iota.
  assert (Hh : 0 <= tid / 3600000 < 24)
    by (Z.to_euclidean_division_equations; lia).
  assert (Hmi : 0 <= tid / 60000 mod 60 < 60) by (apply Z.mod_pos_bound; lia).
  assert (Hs : 0 <= tid / 1000 mod 60 < 60) by (apply Z.mod_pos_bound; lia).
  assert (Hms : 0 <= tid mod 1000 < 1000) by (apply Z.mod_pos_bound; lia).
  rewrite take_pad2 by lia. cbn [app Date.expect].
  change (58 =? 58)%N with true. cbv beta iota.
  rewrite take_pad2 by lia. cbn [app Date.expect].
  change (58 =? 58)%N with true. cbv beta iota.
  rewrite take_pad2 by lia. cbn [app Date.expect].
  change (46 =? 46)%N with true. cbv beta iota.
  rewrite take_pad3 by lia. cbn [app Date.expect].
  change (90 =? 90)%N with true. cbv beta iota.
  replace (1 <=? m) with true by (symmetry; apply Z.leb_le; lia).
  replace (m <=? 12) with true by (symmetry; apply Z.leb_le; lia).
  replace (1 <=? d) with true by (symmetry; apply Z.leb_le; lia).
  replace (d <=? 31) with true by (symmetry; apply Z.leb_le; lia).
  replace (tid / 3600000 <=? 23) with true by (symmetry; apply Z.leb_le; lia).
  replace (tid / 60000 mod 60 <=? 59) with true
    by (symmetry; apply Z.leb_le; lia).
  replace (tid / 1000 mod 60 <=? 59) with true
    by (symmetry; apply Z.leb_le; lia).
  cbn [andb orb]. rewrite Hdays. unfold Date.ms_per_day.
  replace (day * 86400000 + tid / 3600000 * 3600000
           + tid / 60000 mod 60 * 60000 + tid / 1000 mod 60 * 1000
           + tid mod 1000) with t.
  - unfold Date.TimeClip, Date.max_time.
    replace (Z.abs t <=? 8640000000000000) with true
      by (symmetry; apply Z.leb_le; lia).
    reflexivity.
  - rewrite <- Et at 1. clear - Htid. Z.to_euclidean_division_equations. lia.
Qed.

(** ** A refreshed record, from the file to the next request *)

Lemma updated_record (t : Auth.TokenData) (access iso : jsstring) :
  updated_token (Auth.token_value t) (VStr access) iso
  = Auth.token_value (refreshed_record t access iso).
Proof. reflexivity. Qed.

(** After a successful refresh of a credential record, the file holds the
    refreshed record: [loadToken] returns it, and the expiry the next
    request reads from it is the instant [expires_in] seconds after the
    refresh. *)
Theorem refreshed_record_persists (t : Auth.TokenData) (w : World)
    (r : Response) (data : value) (access : jsstring) (secs : Z) :
  let rt := VStr (Auth.refresh_token t) in
  let expires := now (answered w rt) + 1000 * secs in
  let t' := refreshed_record t access (Date.iso_string expires) in
  snd (server w (trace w) (refresh_call w rt)) = Some r ->
  Runtime.ok r = true ->
  JSON.parse (text r) = Some data ->
  Coerce.get_prop data (js "access_token") = Val (VStr access) ->
  Coerce.get_prop data (js "expires_in") = Val (VNum (num_of_Z secs)) ->
  Z.abs expires <= Date.max_time ->
  can_save (disk w) = true ->
  exists w',
    Auth.refreshAccessToken (Auth.token_value t) w = (Ok (Auth.token_value t'), w')
    /\ Auth.loadToken w' = (Ok (Auth.token_value t'), w')
    /\ Coerce.new_Date (VStr (Auth.expires_at t')) = Val (Some expires).
Proof.
  intros rt expires t' Hs Hok Hp Ha He Hb Hc.
  destruct (stringify_parse (Auth.token_value t') (clean_token t'))
    as (j & Hj & Hwf & Hparse).
  pose proof (expiry_string_seconds (now (answered w rt)) secs Hb) as Hi.
  fold expires in Hi.
  pose proof (refresh_success (Auth.token_value t) rt w r data (VStr access)
                (VNum (num_of_Z secs)) (Date.iso_string expires) j
                eq_refl Hs Hok Hp Ha He Hi) as Hrun.
  rewrite updated_record in Hrun. specialize (Hrun Hj Hc).
  eexists. split; [exact Hrun|]. split.
  - rewrite loadToken_run. cbn [disk set_disk saved file].
    rewrite Hwf, Hparse. reflexivity.
  - cbn [Auth.expires_at t' refreshed_record]. unfold Coerce.new_Date.
    cbn [Coerce.ToPrimitive rbind]. now rewrite date_roundtrip.
Qed.

(** * Further properties of the code *)

(** ** The answer to a request *)

(** What [settle] makes of a response. *)
Lemma settle_run (r : Response) (w : World) :
  Api.settle r w
  = (if negb (Runtime.ok r) then
       match JSON.parse (text r) with
       | Some error =>
           match Coerce.get_prop error (js "error") with
           | Val e =>
               match Runtime.new_Error
                       (if Coerce.truthy e then e
                        else VStr (js "API error: "
                                   ++ num_to_string (num_of_Z (status r)))) with
               | Val err => Throw err
               | Err x => Throw x
               end
           | Err x => Throw x
           end
       | None =>
           Throw (Error (js "API error: " ++ num_to_string (num_of_Z (status r))))
       end
     else if status r =? 204 then Ok (VObj [])
     else match JSON.parse (text r) with
          | Some v => Ok v
          | None => Throw SyntaxError
          end, w).
Proof.
  unfold Api.settle. unfold_run.
  destruct (negb (Runtime.ok r)).
  - destruct (JSON.parse (text r)) as [error|]; [|reflexivity].
    destruct (Coerce.get_prop error (js "error")) as [e|x]; [|reflexivity].
    destruct (Runtime.new_Error _); reflexivity.
  - destruct (status r =? 204); [reflexivity|].
    destruct (JSON.parse (text r)); reflexivity.
Qed.


Lemma status_texts : all_from status_text_ok 900 100 = true.
Proof. vm_compute. reflexivity. Qed.

Lemma status_text (s : Z) :
  100 <= s <= 999 -> num_to_string (num_of_Z s) = three_digits s.
Proof.
  intros H. apply str_eqb_eq.
  apply (all_from_spec status_text_ok 900 100 status_texts). lia.
Qed.



(** ** The requests of a call *)

Lemma proactive_trace (token : value) (w : World) :
  Coerce.truthy token = true ->
  exists r w1,
    Api.proactive_refresh token w = (r, w1)
    /\ env_api_url w1 = env_api_url w
    /\ (trace w1 = trace w
        \/ exists rt, trace w1
                      = trace w ++ [EvFetch (Auth.refresh_request (base_url w) rt)])
    /\ (forall token', r = Ok token' -> Coerce.truthy token' = true)
    /\ r <> Fuel.
Proof.
  intros Ht.
  destruct (truthy_get_prop token (js "expires_at") Ht) as [ea Hea].
  destruct (truthy_get_prop token (js "refresh_token") Ht) as [rt Hrt].
  destruct (Coerce.new_Date ea) as [d|e] eqn:Hd.
  - destruct (proactive_run token ea d w Hea Hd) as [Hfar Hnear].
    destruct (Api.near_expiry d (now w)) eqn:Hn.
    + destruct (Hnear eq_refl) as (v & w' & Hr & Hp).
      destruct (refresh_run token w) as (v' & w'' & Hr' & _ & _ & Henv & _ & Htr).
      rewrite Hr in Hr'. injection Hr' as <- <-.
      destruct (Htr rt Hrt) as [Htr' _].
      exists (Ok (if Coerce.truthy v then v else token)), w'.
      split; [exact Hp|]. split; [exact Henv|]. split.
      * right. exists rt. exact Htr'.
      * split; [|discriminate]. intros token' H. injection H as <-.
        destruct (Coerce.truthy v) eqn:Hv; assumption.
    + exists (Ok token), w. split; [exact (Hfar eq_refl)|].
      split; [reflexivity|]. split; [now left|].
      split; [|discriminate]. intros token' H. injection H as <-. exact Ht.
  - exists (Throw e), w. split.
    + unfold Api.proactive_refresh. unfold_run. rewrite Hea, Hd. reflexivity.
    + split; [reflexivity|]. split; [now left|]. split; [|discriminate].
      intros token' H. discriminate H.
Qed.

Lemma reactive_trace (baseUrl endpoint : jsstring) (options : Api.RequestInit)
    (token : value) (w : World) :
  Coerce.truthy token = true ->
  exists r w1 rt,
    Api.reactive_refresh baseUrl endpoint options token w = (r, w1)
    /\ r <> Fuel
    /\ (trace w1 = trace w ++ [EvFetch (Auth.refresh_request (base_url w) rt)]
        \/ exists req,
             trace w1 = trace w ++ [EvFetch (Auth.refresh_request (base_url w) rt);
                                    EvFetch req]
             /\ url req = baseUrl ++ endpoint
             /\ method req = Api.opt_method options
             /\ body req = Api.opt_body options).
Proof.
  intros Ht.
  destruct (truthy_get_prop token (js "refresh_token") Ht) as [rt Hrt].
  destruct (reactive_run baseUrl endpoint options token w)
    as (v & w' & Hr & Hfalsy & Htruthy).
  destruct (refresh_run token w) as (v' & w'' & Hr' & _ & _ & _ & _ & Htr).
  rewrite Hr in Hr'. injection Hr' as <- <-.
  destruct (Htr rt Hrt) as [Htr' _].
  destruct (Coerce.truthy v) eqn:Hv.
  - destruct (Api.authorized_request baseUrl endpoint options v) as [req|e] eqn:Hreq.
    + specialize (Htruthy eq_refl req eq_refl).
      destruct (authorized_request_shape _ _ _ _ _ Hreq) as (Hu & Hm & Hb & _).
      destruct (snd (server w' (trace w') req)) as [retry|].
      * exists (fst (Api.settle retry (log (EvFetch req) (fst (server w' (trace w') req)) w'))),
               (log (EvFetch req) (fst (server w' (trace w') req)) w'), rt.
        split; [exact Htruthy|]. split.
        -- rewrite settle_run. cbn [fst].
           destruct (negb (Runtime.ok retry)).
           ++ destruct (JSON.parse (text retry)) as [er|]; [|discriminate].
              destruct (Coerce.get_prop er (js "error")); [|discriminate].
              destruct (Runtime.new_Error _); discriminate.
           ++ destruct (status retry =? 204); [discriminate|].
              destruct (JSON.parse (text retry)); discriminate.
        -- right. exists req. cbn [trace log]. rewrite Htr', <- app_assoc.
           repeat split; assumption.
      * exists (Throw FetchError),
               (log (EvFetch req) (fst (server w' (trace w') req)) w'), rt.
        split; [exact Htruthy|]. split; [discriminate|].
        right. exists req. cbn [trace log]. rewrite Htr', <- app_assoc.
        repeat split; assumption.
    + exists (Throw e), w', rt. split.
      * unfold Api.reactive_refresh. unfold bind at 1. rewrite Hr.
        rewrite Hv. cbn [negb]. unfold bind, lift. rewrite Hreq. reflexivity.
      * split; [discriminate|]. left. exact Htr'.
  - exists (Throw (Error Api.authentication_expired)), w', rt.
    split; [exact (Hfalsy eq_refl)|]. split; [discriminate|]. left. exact Htr'.
Qed.

(** X2.  Whatever the service answers, a call sends at most four requests
    and does nothing else: at most one refresh before the call to the
    endpoint, that call, and after it either nothing, or one refresh, or
    one refresh and one more call to the endpoint.  Every refresh goes to
    the base URL of the client, and every call has the URL, method and
    body of the caller.  The call returns or throws. *)
Theorem apiRequest_protocol (endpoint : jsstring) (options : Api.RequestInit)
    (w : World) :
  let result := Api.apiRequest endpoint options w in
  fst result <> Fuel
  /\ exists pre call post,
       trace (snd result) = trace w ++ pre ++ call ++ post
       /\ (List.length pre <= 1)%nat
       /\ Forall (is_refresh_of (base_url w)) pre
       /\ (List.length call <= 1)%nat
       /\ Forall (is_call_of (base_url w) endpoint options) call
       /\ (post = []
           \/ (exists r, post = [r] /\ call <> [] /\ is_refresh_of (base_url w) r)
           \/ (exists r c, post = [r; c] /\ call <> []
                           /\ is_refresh_of (base_url w) r
                           /\ is_call_of (base_url w) endpoint options c)).
Proof.
  intros result. subst result.
  unfold Api.apiRequest, Api.primary_call, bind.
  rewrite loadToken_run. cbv beta iota.
  set (token := match file (disk w) with
                | File _ c => match JSON.parse c with
                              | Some v => v
                              | None => VNull
                              end
                | _ => VNull
                end).
  destruct (Coerce.truthy token) eqn:Ht; cbn [negb].
  2:{ cbn [throw fst snd]. split; [discriminate|].
      exists [], [], []. rewrite !app_nil_r.
      repeat split; auto. }
  destruct (proactive_trace token w Ht)
    as (r & w1 & Hp & Henv & Htr & Htruthy & Hnf).
  assert (Hbase : base_url w1 = base_url w)
    by (unfold base_url; now rewrite Henv).
  assert (Hpre : exists pre, trace w1 = trace w ++ pre
                             /\ (List.length pre <= 1)%nat
                             /\ Forall (is_refresh_of (base_url w)) pre).
  { destruct Htr as [E | (rt & E)].
    - exists []. rewrite app_nil_r. auto.
    - exists [EvFetch (Auth.refresh_request (base_url w) rt)].
      repeat split; auto. constructor; [now exists rt | constructor]. }
  destruct Hpre as (pre & Hpre & Hlen & Hall).
  rewrite Hp.
  destruct r as [token'|e|]; [| | congruence].
  2:{ cbn [fst snd]. split; [discriminate|].
      exists pre, [], []. rewrite !app_nil_r. repeat split; auto. }
  rewrite getApiBaseUrl_run. unfold lift.
  destruct (Api.authorized_request (base_url w1) endpoint options token')
    as [req|e] eqn:Hreq.
  2:{ cbn [fst snd]. split; [discriminate|].
      exists pre, [], []. rewrite !app_nil_r. repeat split; auto. }
  destruct (authorized_request_shape _ _ _ _ _ Hreq) as (Hu & Hm & Hb & _).
  rewrite Hbase in Hu.
  assert (Hcall : Forall (is_call_of (base_url w) endpoint options) [EvFetch req]).
  { constructor; [|constructor]. exists req. auto. }
  rewrite fetch_run.
  set (w2 := log (EvFetch req) (fst (server w1 (trace w1) req)) w1).
  assert (Htr2 : trace w2 = trace w ++ pre ++ [EvFetch req])
    by (unfold w2; cbn [trace log]; rewrite Hpre, <- app_assoc; reflexivity).
  destruct (snd (server w1 (trace w1) req)) as [resp|].
  2:{ cbn [fst snd]. split; [discriminate|].
      exists pre, [EvFetch req], []. rewrite !app_nil_r.
      repeat split; auto. }
  unfold ret. cbv beta iota.
  destruct (status resp =? 401).
  - destruct (reactive_trace (base_url w1) endpoint options token' w2
                (Htruthy _ eq_refl)) as (r & w3 & rt & Hr & Hnf3 & Htr3).
    assert (Hb2 : base_url w2 = base_url w) by exact Hbase.
    rewrite Hb2 in Htr3. rewrite Hbase in Htr3.
    rewrite Hr. cbn [fst snd]. split; [exact Hnf3|].
    destruct Htr3 as [E | (c & E & Hcu & Hcm & Hcb)].
    + exists pre, [EvFetch req], [EvFetch (Auth.refresh_request (base_url w) rt)].
      rewrite E, Htr2, <- !app_assoc.
      repeat split; auto.
      right. left. eexists. split; [reflexivity|].
      split; [discriminate|]. now exists rt.
    + exists pre, [EvFetch req],
        [EvFetch (Auth.refresh_request (base_url w) rt); EvFetch c].
      rewrite E, Htr2, <- !app_assoc.
      repeat split; auto.
      right. right. do 2 eexists. split; [reflexivity|].
      split; [discriminate|]. split; [now exists rt|].
      exists c. auto.
  - rewrite settle_world. split.
    + rewrite settle_run. cbn [fst].
      destruct (negb (Runtime.ok resp)).
      * destruct (JSON.parse (text resp)) as [er|]; [|discriminate].
        destruct (Coerce.get_prop er (js "error")); [|discriminate].
        destruct (Runtime.new_Error _); discriminate.
      * destruct (status resp =? 204); [discriminate|].
        destruct (JSON.parse (text resp)); discriminate.
    + exists pre, [EvFetch req], []. rewrite !app_nil_r.
      repeat split; auto.
Qed.

(** ** A record without an expiry *)

(** X3.  A stored record without [expires_at] is never refreshed before
    the call, whatever the clock says: the call to the endpoint is the
    first request, sent with the stored token. *)
Theorem no_expiry_no_refresh (endpoint : jsstring) (options : Api.RequestInit)
    (w : World) (token : value) (req : Request) :
  fst (Auth.loadToken w) = Ok token ->
  Coerce.truthy token = true ->
  Coerce.get_prop token (js "expires_at") = Val VUndef ->
  Api.authorized_request (base_url w) endpoint options token = Val req ->
  Api.proactive_refresh token w = (Ok token, w)
  /\ trace (snd (Api.primary_call endpoint options w)) = trace w ++ [EvFetch req]
  /\ disk (snd (Api.primary_call endpoint options w)) = disk w.
Proof.
  intros Hload Ht Hea Hreq.
  destruct (proactive_run token VUndef None w Hea eq_refl) as [Hfar _].
  specialize (Hfar eq_refl). split; [exact Hfar|].
  rewrite (primary_call_run endpoint options token token w w req
             Hload Ht Hfar Hreq).
  split; reflexivity.
Qed.

(** ** After a refresh *)

Lemma token_expires_at (t : Auth.TokenData) :
  Coerce.get_prop (Auth.token_value t) (js "expires_at")
  = Val (VStr (Auth.expires_at t)).
Proof. reflexivity. Qed.

Lemma token_refresh_token (t : Auth.TokenData) :
  Coerce.get_prop (Auth.token_value t) (js "refresh_token")
  = Val (VStr (Auth.refresh_token t)).
Proof. reflexivity. Qed.

(** X4.  After a successful refresh of a credential record the file holds
    the refreshed record, and the request that follows reads its expiry
    as the instant [expires_in] seconds after the refresh.  With an
    [expires_in] of 60 seconds or more that request sends its call at
    once; with less than 60 seconds it refreshes again first. *)
Theorem refresh_then_request (t : Auth.TokenData) (w : World)
    (r : Response) (data : value) (access : jsstring) (secs : Z) :
  let rt := VStr (Auth.refresh_token t) in
  let expires := now (answered w rt) + 1000 * secs in
  let t' := Auth.token_value (refreshed_record t access (Date.iso_string expires)) in
  snd (server w (trace w) (refresh_call w rt)) = Some r ->
  Runtime.ok r = true ->
  JSON.parse (text r) = Some data ->
  Coerce.get_prop data (js "access_token") = Val (VStr access) ->
  Coerce.get_prop data (js "expires_in") = Val (VNum (num_of_Z secs)) ->
  Z.abs expires <= Date.max_time ->
  can_save (disk w) = true ->
  exists w',
    Auth.refreshAccessToken (Auth.token_value t) w = (Ok t', w')
    /\ Auth.loadToken w' = (Ok t', w')
    /\ (60 <= secs ->
        forall endpoint options req,
          Api.authorized_request (base_url w') endpoint options t' = Val req ->
          trace (snd (Api.primary_call endpoint options w'))
          = trace w' ++ [EvFetch req])
    /\ (secs < 60 ->
        exists v w'',
          Auth.refreshAccessToken t' w' = (Ok v, w'')
          /\ Api.proactive_refresh t' w'
             = (Ok (if Coerce.truthy v then v else t'), w'')
          /\ trace w'' = trace w' ++ [EvFetch (refresh_call w' rt)]).
Proof.
  intros rt expires t' Hs Hok Hp Ha He Hb Hc.
  destruct (refreshed_record_persists t w r data access secs Hs Hok Hp Ha He Hb Hc)
    as (w' & Hr & Hl & Hd).
  set (rec := refreshed_record t access (Date.iso_string expires)) in *.
  assert (Hnow : now w' = now (answered w rt)).
  { destruct (refresh_run (Auth.token_value t) w)
      as (v' & w'' & Hr' & _ & _ & _ & _ & Htr).
    rewrite Hr in Hr'. injection Hr' as <- <-.
    destruct (Htr rt (token_refresh_token t)) as [_ Hn]. rewrite Hn. reflexivity. }
  pose proof (token_expires_at rec) as Hea.
  destruct (proactive_run (Auth.token_value rec) _ (Some expires) w' Hea Hd)
    as [Hfar Hnear].
  exists w'. split; [exact Hr|]. split; [exact Hl|]. split.
  - intros Hsecs endpoint options req Hreq.
    assert (Hn : Api.near_expiry (Some expires) (now w') = false).
    { unfold Api.near_expiry. apply Z.ltb_ge. rewrite Hnow. unfold expires. lia. }
    rewrite (primary_call_run endpoint options (Auth.token_value rec)
               (Auth.token_value rec) w' w' req).
    + reflexivity.
    + rewrite Hl. reflexivity.
    + reflexivity.
    + exact (Hfar Hn).
    + exact Hreq.
  - intros Hsecs.
    assert (Hn : Api.near_expiry (Some expires) (now w') = true).
    { unfold Api.near_expiry. apply Z.ltb_lt. rewrite Hnow. unfold expires. lia. }
    destruct (Hnear Hn) as (v & w'' & Hr2 & Hp2).
    exists v, w''. split; [exact Hr2|]. split; [exact Hp2|].
    destruct (refresh_run (Auth.token_value rec) w')
      as (v' & w3 & Hr' & _ & _ & _ & _ & Htr).
    rewrite Hr2 in Hr'. injection Hr' as <- <-.
    destruct (Htr rt (token_refresh_token rec)) as [Htr' _]. exact Htr'.
Qed.

(** [ann]'s token is refreshed for an hour: the request that follows
    sends its call at once. *)
Lemma refresh_then_request_witness :
  let w := Scenario.world (Scenario.stored Scenario.ann) Scenario.t0
             Scenario.healthy in
  exists w' req,
    fst (Auth.loadToken w')
    = Ok (Auth.token_value
            (refreshed_record Scenario.ann (js "A2")
               (js "2023-11-14T23:13:20.005Z")))
    /\ trace (snd (Api.primary_call (js "/x") Api.no_options w'))
       = trace w' ++ [EvFetch req].
Proof.
  intros w.
  destruct (refresh_then_request Scenario.ann w
              {| status := 200; text := Scenario.refreshed_body |}
              (VObj [(js "access_token", VStr (js "A2"));
                     (js "expires_in", VNum (num_of_Z 3600))])
              (js "A2") 3600)
    as (w' & Hr & Hl & Hfar & _);
    [reflexivity | reflexivity | vm_compute; reflexivity | reflexivity
     | reflexivity | vm_compute; discriminate | reflexivity |].
  vm_compute in Hr. injection Hr as <-.
  exists (snd (Auth.refreshAccessToken (Auth.token_value Scenario.ann) w)).
  eexists. split.
  - vm_compute. reflexivity.
  - apply Hfar; [lia|]. vm_compute. reflexivity.
Defined.

(** A record without [expires_at], well after [ann]'s token expired: the
    call is the only request. *)
Lemma no_expiry_no_refresh_witness :
  let w := Scenario.world (Cases.holding Cases.undated) Scenario.t0
             Scenario.healthy in
  exists req,
    trace (snd (Api.primary_call (js "/x") Api.no_options w)) = [EvFetch req]
    /\ Scenario.is_refresh req = false.
Proof.
  intros w.
  edestruct (no_expiry_no_refresh (js "/x") Api.no_options w Cases.undated)
    as (_ & Htr & _);
    [vm_compute; reflexivity | reflexivity | reflexivity
     | vm_compute; reflexivity |].
  eexists. split; [exact Htr | reflexivity].
Defined.

(** ** Deleting and saving the token file *)

Lemma deleteToken_run (w : World) :
  Auth.deleteToken w
  = (Ok tt,
     match file (disk w), writable (disk w) with
     | NoFile, _ => w
     | _, true => set_disk {| dir := dir (disk w); file := NoFile;
                              writable := true |} w
     | _, false => w
     end).
Proof.
  unfold Auth.deleteToken, try_catch, Runtime.unlinkSync, ret.
  destruct (file (disk w)); destruct (writable (disk w)); reflexivity.
Qed.

(** X5.  [deleteToken] never throws, sends nothing and keeps the
    directory.  When the store can be written the file is gone afterwards:
    [loadToken] gives absent and every request fails with "Not
    authenticated" before anything is sent.  When there is no file,
    nothing changes, so deleting twice is deleting once. *)
Theorem deleteToken_removes (w : World) :
  exists w',
    Auth.deleteToken w = (Ok tt, w')
    /\ trace w' = trace w
    /\ dir (disk w') = dir (disk w)
    /\ (file (disk w) = NoFile -> w' = w)
    /\ Auth.deleteToken w' = (Ok tt, w')
    /\ (writable (disk w) = true ->
        file (disk w') = NoFile
        /\ Auth.loadToken w' = (Ok VNull, w')
        /\ forall endpoint options,
             Api.apiRequest endpoint options w'
             = (Throw (Error Api.not_authenticated), w')).
Proof.
  eexists. split; [apply deleteToken_run|].
  split; [|split; [|split; [|split]]].
  - destruct (file (disk w)), (writable (disk w)); reflexivity.
  - destruct (file (disk w)), (writable (disk w)); reflexivity.
  - intros H. rewrite H. reflexivity.
  - rewrite deleteToken_run.
    destruct (file (disk w)) eqn:Hf, (writable (disk w)) eqn:Hw;
      cbn [disk set_disk file writable]; rewrite ?Hf, ?Hw; reflexivity.
  - intros Hw. rewrite Hw.
    assert (Hn : file (disk match file (disk w) with
                            | NoFile => w
                            | _ => set_disk {| dir := dir (disk w); file := NoFile;
                                               writable := true |} w
                            end) = NoFile).
    { destruct (file (disk w)) eqn:Hf; [exact Hf | reflexivity | reflexivity]. }
    split; [exact Hn|]. split.
    + rewrite loadToken_run, Hn. reflexivity.
    + intros endpoint options.
      unfold Api.apiRequest, Api.primary_call, bind.
      rewrite loadToken_run, Hn. reflexivity.
Qed.

(** [ann]'s record is deleted: the next request fails with "Not
    authenticated" and sends nothing. *)
Lemma deleteToken_removes_witness :
  let w := Scenario.world (Scenario.stored Scenario.ann) Scenario.t0
             Scenario.healthy in
  exists w',
    Auth.deleteToken w = (Ok tt, w')
    /\ Api.apiRequest (js "/x") Api.no_options w'
       = (Throw (Error Api.not_authenticated), w').
Proof.
  intros w.
  destruct (deleteToken_removes w) as (w' & Hd & _ & _ & _ & _ & Hgone).
  exists w'. split; [exact Hd|].
  destruct Hgone as (_ & _ & Hreq); [reflexivity|]. apply Hreq.
Defined.

(** X6.  A [saveToken] that succeeds creates a missing directory with
    mode 0o700 and a missing file with mode 0o600; a directory and a file
    that exist keep the modes they have.  The file then holds the text
    [JSON.stringify(tokenData, null, 2)], and nothing was sent. *)
Theorem saveToken_modes (tokenData : value) (w w' : World) :
  Auth.saveToken tokenData w = (Ok tt, w') ->
  (dir (disk w) = None -> dir (disk w') = Some 448)
  /\ (forall m, dir (disk w) = Some m -> dir (disk w') = Some m)
  /\ (exists j m, JSON.stringify2 tokenData = Some j
                  /\ file (disk w') = File m (Runtime.toWellFormed j)
                  /\ (file (disk w) = NoFile -> m = 384)
                  /\ (forall m0 c, file (disk w) = File m0 c -> m = m0))
  /\ trace w' = trace w.
Proof.
  intros H.
  destruct (saveToken_inv _ _ _ H) as (j & m & Hj & _).
  destruct (can_save (disk w)) eqn:Hc.
  2:{ destruct (saveToken_fails tokenData w Hc) as (e & w1 & E & _).
      rewrite E in H. discriminate H. }
  rewrite (saveToken_run _ _ _ Hj Hc) in H. injection H as <-.
  unfold saved. cbn [disk set_disk dir file trace].
  split; [intros E; rewrite E; reflexivity|].
  split; [intros m0 E; rewrite E; reflexivity|].
  split; [|reflexivity].
  exists j. eexists. split; [exact Hj|]. split; [reflexivity|]. split.
  - intros E. rewrite E. reflexivity.
  - intros m0 c E. rewrite E. reflexivity.
Qed.

(** An empty store: the directory and the file are created with modes
    0o700 and 0o600. *)
Lemma saveToken_modes_witness :
  let w := {| disk := {| dir := None; file := NoFile; writable := true |};
              env_api_url := None; now := 0; server := Scenario.offline;
              trace := [] |} in
  let w' := snd (Auth.saveToken (Auth.token_value Scenario.ann) w) in
  dir (disk w') = Some 448
  /\ exists j, file (disk w') = File 384 j.
Proof.
  intros w w'.
  destruct (saveToken_modes (Auth.token_value Scenario.ann) w w')
    as (Hd & _ & (j & m & _ & Hf & Hm & _) & _); [reflexivity|].
  split; [apply Hd; reflexivity|].
  rewrite (Hm eq_refl) in Hf. eexists. exact Hf.
Defined.

(** ** The login flow: the device code *)

Lemma banner_run (w : World) :
  exists w0, Login.banner w = (Ok tt, w0)
             /\ disk w0 = disk w /\ env_api_url w0 = env_api_url w
             /\ server w0 = server w /\ now w0 = now w
             /\ exists l, trace w0 = trace w ++ l
                          /\ Forall (fun e => exists s, e = EvStdout s) l.
Proof.
  eexists. split; [reflexivity|]. cbn.
  repeat split; try lia.
  eexists. split.
  - rewrite <- app_assoc. reflexivity.
  - repeat constructor; eexists; reflexivity.
Qed.

Lemma main_handler (fuel : nat) (w w1 : World) (e : exn) :
  (deviceCode <- Login.authorize ;;
   token <- Login.poll fuel deviceCode ;;
   Login.save_and_report token) (snd (Login.banner w)) = (Throw e, w1) ->
  Login.main fuel w
  = (Ok 1, log (EvStderr ([JSON.newline] ++ js "Error: " ++ Login.message_of e
                          ++ [JSON.newline])) 0 w1).
Proof.
  intros H. unfold Login.main. unfold bind at 1.
  destruct (banner_run w) as (w0 & Hb & _). rewrite Hb in *. cbn [snd] in H.
  unfold try_catch. rewrite H.
  unfold Login.console_error, bind, Runtime.stderr_write, ret.
  rewrite <- !app_assoc. reflexivity.
Qed.

Lemma requestDeviceCode_run (w : World) :
  let req := Login.device_code_request (login_base w) in
  let w' := log (EvFetch req) (fst (server w (trace w) req)) w in
  Login.requestDeviceCode w
  = (match snd (server w (trace w) req) with
     | None => Throw FetchError
     | Some r =>
         if negb (Runtime.ok r) then
           match JSON.parse (text r) with
           | Some error =>
               match Coerce.get_prop error (js "error") with
               | Val e =>
                   match Runtime.new_Error
                           (if Coerce.truthy e then e
                            else VStr (js "Failed to get device code: "
                                       ++ num_to_string (num_of_Z (status r)))) with
                   | Val err => Throw err
                   | Err x => Throw x
                   end
               | Err x => Throw x
               end
           | None =>
               Throw (Error (js "Failed to get device code: "
                             ++ num_to_string (num_of_Z (status r))))
           end
         else match JSON.parse (text r) with
              | Some v => Ok v
              | None => Throw SyntaxError
              end
     end, w').
Proof.
  intros req w'. unfold Login.requestDeviceCode, Login.API_BASE_URL.
  unfold bind at 1 2. unfold Runtime.getenv_api_url, ret.
  fold (login_base w). fold req. unfold bind at 1. rewrite fetch_run. fold w'.
  destruct (snd (server w (trace w) req)) as [r|]; [|reflexivity].
  unfold_run.
  destruct (negb (Runtime.ok r)).
  - destruct (JSON.parse (text r)) as [error|]; [|reflexivity].
    destruct (Coerce.get_prop error (js "error")) as [e|x]; [|reflexivity].
    destruct (Runtime.new_Error _); reflexivity.
  - destruct (JSON.parse (text r)); reflexivity.
Qed.

(** X7.  When the device-code request is refused (a response that is not
    2xx), the login ends there: [main] has sent that one request, prints
    one line on the error stream and exits with status 1, without a poll,
    a sleep or a write.  The line carries the non-empty string [error] of
    the JSON body, else ["Failed to get device code: "] and the status
    code. *)
Theorem login_device_code_refused (fuel : nat) (w : World) (r : Response) :
  let w0 := snd (Login.banner w) in
  let req := Login.device_code_request (login_base w) in
  let w1 := log (EvFetch req) (fst (server w0 (trace w0) req)) w0 in
  snd (server w0 (trace w0) req) = Some r ->
  Runtime.ok r = false ->
  disk (snd (Login.main fuel w)) = disk w
  /\ (forall v e, JSON.parse (text r) = Some v ->
        Coerce.get_prop v (js "error") = Val (VStr e) -> e <> [] ->
        exits_with_error fuel w w1 e)
  /\ (100 <= status r <= 999 ->
      (JSON.parse (text r) = None
       \/ exists v e, JSON.parse (text r) = Some v
                      /\ Coerce.get_prop v (js "error") = Val e
                      /\ Coerce.truthy e = false) ->
      exits_with_error fuel w w1
        (js "Failed to get device code: " ++ three_digits (status r))).
Proof.
  intros w0 req w1 Hs Hok. unfold exits_with_error.
  destruct (banner_run w) as (w0' & Hb & Hd & He & _).
  assert (Hw0 : w0 = w0') by (unfold w0; rewrite Hb; reflexivity).
  assert (Hbase : login_base w0 = login_base w)
    by (unfold login_base; rewrite Hw0, He; reflexivity).
  pose proof (requestDeviceCode_run w0) as Hrun. cbv zeta in Hrun.
  rewrite Hbase in Hrun. fold req in Hrun. rewrite Hs, Hok in Hrun.
  cbn [negb] in Hrun.
  assert (Hmain : forall e,
             fst (Login.requestDeviceCode w0) = Throw e ->
             Login.main fuel w
             = (Ok 1, log (EvStderr ([JSON.newline] ++ js "Error: "
                                     ++ Login.message_of e ++ [JSON.newline])) 0
                        (log (EvFetch req) (fst (server w0 (trace w0) req)) w0))).
  { intros e E. apply main_handler. fold w0.
    unfold bind at 1. unfold Login.authorize. unfold bind at 1.
    rewrite Hrun in E |- *. cbn [fst] in E. rewrite E. reflexivity. }
  split; [|split].
  - assert (exists e, fst (Login.requestDeviceCode w0) = Throw e) as [e E].
    { rewrite Hrun. cbn [fst].
      destruct (JSON.parse (text r)) as [er|]; [|eauto].
      destruct (Coerce.get_prop er (js "error")); [|eauto].
      destruct (Runtime.new_Error _); eauto. }
    rewrite (Hmain e E). cbn [snd log disk]. rewrite Hw0. exact Hd.
  - intros v e Hp He' Hne.
    rewrite (Hmain (Error e)); [reflexivity|].
    rewrite Hrun, Hp, He'. destruct e; [congruence|reflexivity].
  - intros Hst Hcase.
    rewrite (Hmain (Error (js "Failed to get device code: "
                           ++ three_digits (status r)))); [reflexivity|].
    rewrite Hrun. destruct Hcase as [Hp | (v & e & Hp & He' & Hf)].
    + rewrite Hp, (status_text _ Hst). reflexivity.
    + rewrite Hp, He', Hf, (status_text _ Hst). reflexivity.
Qed.

(** The service refuses the device code with [{"error":"invalid_client"}]:
    the login prints that error and exits with status 1 after one
    request. *)
Lemma login_device_code_refused_witness :
  let w := Scenario.world NoFile Scenario.t0
             (Cases.answering 400 (Scenario.error_body "invalid_client")) in
  fst (Login.main 5 w) = Ok 1
  /\ Scenario.fetches (trace (snd (Login.main 5 w))) = 1%nat
  /\ disk (snd (Login.main 5 w)) = disk w.
Proof.
  intros w.
  edestruct (login_device_code_refused 5 w) as (Hd & He & _);
    [vm_compute; reflexivity | reflexivity |].
  specialize (He (VObj [(js "error", VStr (js "invalid_client"))])
                 (js "invalid_client")) as E.
  unfold exits_with_error in E.
  rewrite E; [|vm_compute; reflexivity | reflexivity | vm_compute; discriminate].
  split; [reflexivity|]. split; [|exact Hd].
  vm_compute. reflexivity.
Defined.

(** ** The login flow: saving the token *)

Lemma login_saveToken_run (token a rt ei u : value) (iso j : jsstring)
    (w : World) :
  Coerce.get_prop token (js "access_token") = Val a ->
  Coerce.get_prop token (js "refresh_token") = Val rt ->
  Coerce.get_prop token (js "expires_in") = Val ei ->
  Auth.expiry_string (now w) ei = Val iso ->
  Coerce.get_prop token (js "user") = Val u ->
  JSON.stringify2 (VObj [(js "access_token", a); (js "refresh_token", rt);
                         (js "expires_at", VStr iso); (js "user", u)]) = Some j ->
  can_save (disk w) = true ->
  Login.saveToken token w = (Ok tt, set_disk (saved (disk w) j) w).
Proof.
  intros Ha Hrt Hei Hiso Hu Hj Hc. unfold can_save in Hc.
  apply andb_true_iff in Hc as [Hw Hf].
  unfold Login.saveToken. unfold_run. rewrite Ha, Hrt, Hei, Hu.
  destruct w as [[d f wr] env t srv tr]; cbn [disk dir file writable now] in *.
  subst wr.
  destruct d; cbn [negb set_disk disk dir file writable now];
    rewrite Hiso, Hj; unfold saved; cbn [dir file];
    destruct f; try discriminate; reflexivity.
Qed.

(** A failed [saveToken] of the login flow leaves the token file as it
    was. *)
Lemma login_saveToken_file (token : value) (w : World) :
  forall r w', Login.saveToken token w = (r, w') ->
  r <> Ok tt -> file (disk w') = file (disk w).
Proof.
  intros r w'. unfold Login.saveToken. unfold_run.
  destruct w as [[d f wr] env t srv tr].
  cbn [disk dir file writable now set_disk env_api_url server trace].
  destruct d, wr; cbn [negb disk dir file writable now];
    repeat (case_step; cbn [disk dir file writable now]);
    intros H Hr; injection H as <- <-; try reflexivity; congruence.
Qed.

Lemma expiry_string_missing (t : Z) :
  Auth.expiry_string t VUndef = Err RangeError.
Proof.
  unfold Auth.expiry_string. cbn [Coerce.js_mul Coerce.ToNumber Coerce.ToPrimitive rbind].
  cbn [num_mul]. unfold num_of_Z, dec_norm.
  destruct (t =? 0); [reflexivity|].
  destruct (strip_zeros _ t 0). reflexivity.
Qed.

Lemma user_name (u : Auth.User) :
  Coerce.get_prop (Auth.user_value u) (js "name") = Val (VStr (Auth.name u)).
Proof. reflexivity. Qed.

Lemma user_email (u : Auth.User) :
  Coerce.get_prop (Auth.user_value u) (js "email") = Val (VStr (Auth.email u)).
Proof. reflexivity. Qed.

Lemma save_and_report_run (token : value) (u : Auth.User) (w w' : World) :
  Login.saveToken token w = (Ok tt, w') ->
  Coerce.get_prop token (js "user") = Val (Auth.user_value u) ->
  exists w'',
    Login.save_and_report token w = (Ok 0, w'')
    /\ disk w'' = disk w'
    /\ exists l, trace w'' = trace w' ++ l
                 /\ In (EvStdout (js "  " ++ [10003%N] ++ js " Connected as "
                                  ++ Auth.name u ++ js " (" ++ Auth.email u
                                  ++ js ")" ++ [JSON.newline])) l.
Proof.
  intros Hs Hu. unfold Login.save_and_report. unfold bind at 1. rewrite Hs.
  unfold Login.show_prop, Login.console_log, Runtime.stdout_write.
  unfold bind, lift, ret. rewrite Hu, user_name, user_email.
  cbn [Coerce.ToString].
  eexists. split; [reflexivity|]. cbn [disk log trace].
  split; [reflexivity|].
  eexists. split.
  - rewrite <- !app_assoc. reflexivity.
  - do 3 (apply in_or_app; right). apply in_or_app. left. left.
    rewrite <- ?app_assoc. reflexivity.
Qed.

Lemma main_returns (fuel : nat) (w w1 : World) (z : Z) :
  (deviceCode <- Login.authorize ;;
   token <- Login.poll fuel deviceCode ;;
   Login.save_and_report token) (snd (Login.banner w)) = (Ok z, w1) ->
  Login.main fuel w = (Ok z, w1).
Proof.
  intros H. unfold Login.main. unfold bind at 1.
  destruct (banner_run w) as (w0 & Hb & _). rewrite Hb in *. cbn [snd] in H.
  unfold try_catch. rewrite H. reflexivity.
Qed.

Lemma login_save_then_load_run (token : value) (a rt : jsstring)
    (u : Auth.User) (secs : Z) (w : World) :
  Coerce.get_prop token (js "access_token") = Val (VStr a) ->
  Coerce.get_prop token (js "refresh_token") = Val (VStr rt) ->
  Coerce.get_prop token (js "expires_in") = Val (VNum (num_of_Z secs)) ->
  Coerce.get_prop token (js "user") = Val (Auth.user_value u) ->
  Z.abs (now w + 1000 * secs) <= Date.max_time ->
  can_save (disk w) = true ->
  exists w',
    Login.saveToken token w = (Ok tt, w')
    /\ trace w' = trace w
    /\ Auth.loadToken w'
       = (Ok (Auth.token_value
                {| Auth.access_token := a;
                   Auth.refresh_token := rt;
                   Auth.expires_at := Date.iso_string (now w + 1000 * secs);
                   Auth.user := u |}), w').
Proof.
  intros Ha Hrt Hei Hu Hb Hc.
  set (record := {| Auth.access_token := a;
                    Auth.refresh_token := rt;
                    Auth.expires_at := Date.iso_string (now w + 1000 * secs);
                    Auth.user := u |}).
  destruct (stringify_parse (Auth.token_value record) (clean_token record))
    as (j & Hj & Hwf & Hparse).
  pose proof (expiry_string_seconds (now w) secs Hb) as Hiso.
  change (Auth.token_value record)
    with (VObj [(js "access_token", VStr a); (js "refresh_token", VStr rt);
                (js "expires_at", VStr (Date.iso_string (now w + 1000 * secs)));
                (js "user", Auth.user_value u)]) in Hj.
  pose proof (login_saveToken_run token (VStr a) (VStr rt)
                (VNum (num_of_Z secs)) (Auth.user_value u)
                (Date.iso_string (now w + 1000 * secs)) j w
                Ha Hrt Hei Hiso Hu Hj Hc) as Hrun.
  eexists. split; [exact Hrun|]. split; [reflexivity|].
  rewrite loadToken_run. cbn [disk set_disk saved file].
  rewrite Hwf, Hparse. reflexivity.
Qed.

(** X8.  The file the login writes is the file the client reads.  From a
    token response with the strings [access_token] and [refresh_token], a
    whole number of seconds [expires_in] and a [user], the login stores
    the record of exactly these four fields: [loadToken] returns it,
    [token_type] and [expires_in] are not in it, and its [expires_at] is
    read back as the instant [expires_in] seconds after the save. *)
Theorem login_save_then_load (token : value) (a rt : jsstring) (u : Auth.User)
    (secs : Z) (w : World) :
  let expires := now w + 1000 * secs in
  let record := {| Auth.access_token := a;
                   Auth.refresh_token := rt;
                   Auth.expires_at := Date.iso_string expires;
                   Auth.user := u |} in
  Coerce.get_prop token (js "access_token") = Val (VStr a) ->
  Coerce.get_prop token (js "refresh_token") = Val (VStr rt) ->
  Coerce.get_prop token (js "expires_in") = Val (VNum (num_of_Z secs)) ->
  Coerce.get_prop token (js "user") = Val (Auth.user_value u) ->
  Z.abs expires <= Date.max_time ->
  can_save (disk w) = true ->
  exists w',
    Login.saveToken token w = (Ok tt, w')
    /\ trace w' = trace w
    /\ Auth.loadToken w' = (Ok (Auth.token_value record), w')
    /\ Coerce.new_Date (VStr (Auth.expires_at record)) = Val (Some expires).
Proof.
  intros expires record Ha Hrt Hei Hu Hb Hc.
  destruct (login_save_then_load_run token a rt u secs w Ha Hrt Hei Hu Hb Hc)
    as (w' & Hs & Htr & Hl).
  exists w'. split; [exact Hs|]. split; [exact Htr|]. split; [exact Hl|].
  cbn [Auth.expires_at record]. unfold Coerce.new_Date.
  cbn [Coerce.ToPrimitive rbind]. now rewrite date_roundtrip.
Qed.

Lemma login_save_then_load_witness :
  let w := Scenario.world NoFile Scenario.t0 Scenario.offline in
  exists w',
    Login.saveToken Cases.token_response w = (Ok tt, w')
    /\ fst (Auth.loadToken w')
       = Ok (Auth.token_value
               {| Auth.access_token := js "A1";
                  Auth.refresh_token := js "R1";
                  Auth.expires_at := js "2023-11-14T23:13:20.000Z";
                  Auth.user := Auth.user Scenario.ann |}).
Proof.
  intros w.
  destruct (login_save_then_load Cases.token_response (js "A1") (js "R1")
              (Auth.user Scenario.ann) 3600 w)
    as (w' & Hs & _ & Hl & _);
    [vm_compute; reflexivity | vm_compute; reflexivity | vm_compute; reflexivity
     | vm_compute; reflexivity | vm_compute; discriminate | reflexivity |].
  exists w'. split; [exact Hs|]. rewrite Hl. vm_compute. reflexivity.
Defined.

Lemma login_disk (fuel : nat) (w w1 w2 : World) (deviceCode token : value) :
  Login.authorize (snd (Login.banner w)) = (Ok deviceCode, w1) ->
  Login.poll fuel deviceCode w1 = (Ok token, w2) ->
  disk w2 = disk w.
Proof.
  intros Ha Hp.
  pose proof (keeps_poll fuel deviceCode w1) as K1. rewrite Hp in K1.
  pose proof (keeps_authorize (snd (Login.banner w))) as K2. rewrite Ha in K2.
  pose proof (keeps_banner w) as K3. cbn [snd] in *. congruence.
Qed.

(** X9.  When the user approves, the login ends well: from the token
    response the loop returned, [main] stores the record, tells the user
    who is connected and returns (exit status 0); the file then loads as
    that record. *)
Theorem login_success (fuel : nat) (w w1 w2 : World)
    (deviceCode token : value) (a rt : jsstring) (u : Auth.User) (secs : Z) :
  let record := {| Auth.access_token := a;
                   Auth.refresh_token := rt;
                   Auth.expires_at := Date.iso_string (now w2 + 1000 * secs);
                   Auth.user := u |} in
  Login.authorize (snd (Login.banner w)) = (Ok deviceCode, w1) ->
  Login.poll fuel deviceCode w1 = (Ok token, w2) ->
  Coerce.get_prop token (js "access_token") = Val (VStr a) ->
  Coerce.get_prop token (js "refresh_token") = Val (VStr rt) ->
  Coerce.get_prop token (js "expires_in") = Val (VNum (num_of_Z secs)) ->
  Coerce.get_prop token (js "user") = Val (Auth.user_value u) ->
  Z.abs (now w2 + 1000 * secs) <= Date.max_time ->
  can_save (disk w) = true ->
  fst (Login.main fuel w) = Ok 0
  /\ fst (Auth.loadToken (snd (Login.main fuel w)))
     = Ok (Auth.token_value record)
  /\ In (EvStdout (js "  " ++ [10003%N] ++ js " Connected as "
                   ++ Auth.name u ++ js " (" ++ Auth.email u
                   ++ js ")" ++ [JSON.newline]))
        (trace (snd (Login.main fuel w))).
Proof.
  intros record Ha Hp Hat Hrt Hei Hu Hb Hc.
  rewrite <- (login_disk fuel w w1 w2 deviceCode token Ha Hp) in Hc.
  destruct (login_save_then_load_run token a rt u secs w2 Hat Hrt Hei Hu Hb Hc)
    as (w3 & Hs & _ & Hl).
  destruct (save_and_report_run token u w2 w3 Hs Hu)
    as (w4 & Hr & Hd & l & Htr & Hin).
  rewrite (main_returns fuel w w4 0).
  - cbn [fst snd]. split; [reflexivity|]. split.
    + rewrite loadToken_run, Hd. rewrite loadToken_run in Hl.
      injection Hl as Hl. rewrite Hl. reflexivity.
    + rewrite Htr. apply in_or_app. right. exact Hin.
  - unfold bind at 1. rewrite Ha. unfold bind at 1. rewrite Hp. exact Hr.
Qed.

(** The user approves after two polls: the login returns and the file
    holds [ann]'s record. *)
Lemma login_success_witness :
  let w := Scenario.world NoFile Scenario.t0 Scenario.approving in
  fst (Login.main 5 w) = Ok 0
  /\ exists iso,
       fst (Auth.loadToken (snd (Login.main 5 w)))
       = Ok (Auth.token_value
               {| Auth.access_token := js "A1";
                  Auth.refresh_token := js "R1";
                  Auth.expires_at := iso;
                  Auth.user := Auth.user Scenario.ann |}).
Proof.
  intros w.
  edestruct (login_success 5 w) as (H0 & Hl & _);
    [vm_compute; reflexivity | vm_compute; reflexivity
     | vm_compute; reflexivity | vm_compute; reflexivity
     | instantiate (1 := 3600); vm_compute; reflexivity
     | instantiate (1 := Auth.user Scenario.ann); vm_compute; reflexivity
     | vm_compute; discriminate | reflexivity |].
  split; [exact H0|]. eexists. exact Hl.
Defined.

Lemma login_saveToken_inv (token : value) (w w' : World) :
  Login.saveToken token w = (Ok tt, w') ->
  can_save (disk w) = true
  /\ exists ei iso, Coerce.get_prop token (js "expires_in") = Val ei
                    /\ Auth.expiry_string (now w) ei = Val iso.
Proof.
  unfold Login.saveToken, can_save. unfold_run.
  destruct w as [[d f wr] env t srv tr].
  destruct d, wr, f;
    cbn [negb disk dir file writable now set_disk andb];
    repeat (case_step; cbn [disk dir file writable now set_disk]);
    intros H; try discriminate H; (split; [reflexivity | eauto]).
Qed.

Lemma login_saveToken_no_fuel (token : value) (w : World) :
  fst (Login.saveToken token w) <> Fuel.
Proof.
  unfold Login.saveToken. unfold_run.
  destruct w as [[d f wr] env t srv tr].
  destruct d, wr;
    cbn [negb disk dir file writable now set_disk];
    repeat (case_step; cbn [disk dir file writable now set_disk fst]);
    discriminate.
Qed.

(** X10.  When the token response has no [expires_in], or the store
    cannot be written, the login fails after the user has approved:
    [main] exits with status 1 and the token file is as it was before. *)
Theorem login_save_failure (fuel : nat) (w w1 w2 : World)
    (deviceCode token : value) :
  Login.authorize (snd (Login.banner w)) = (Ok deviceCode, w1) ->
  Login.poll fuel deviceCode w1 = (Ok token, w2) ->
  Coerce.get_prop token (js "expires_in") = Val VUndef
  \/ can_save (disk w) = false ->
  fst (Login.main fuel w) = Ok 1
  /\ file (disk (snd (Login.main fuel w))) = file (disk w).
Proof.
  intros Ha Hp Hcause.
  pose proof (login_disk fuel w w1 w2 deviceCode token Ha Hp) as Hd.
  destruct (Login.saveToken token w2) as [r w3] eqn:Hs.
  assert (Hr : r <> Ok tt).
  { intros ->. destruct (login_saveToken_inv token w2 w3 Hs)
      as (Hc & ei & iso & Hei & Hiso).
    destruct Hcause as [Hu | Hn].
    - rewrite Hu in Hei. injection Hei as <-.
      rewrite expiry_string_missing in Hiso. discriminate Hiso.
    - rewrite Hd in Hc. congruence. }
  pose proof (login_saveToken_file token w2 r w3 Hs Hr) as Hf.
  pose proof (login_saveToken_no_fuel token w2) as Hnf. rewrite Hs in Hnf.
  destruct r as [[]|e|]; [congruence| |cbn [fst] in Hnf; congruence].
  rewrite (main_handler fuel w w3 e).
  - cbn [fst snd log disk]. split; [reflexivity|]. rewrite Hf, Hd. reflexivity.
  - unfold bind at 1. rewrite Ha. unfold bind at 1. rewrite Hp.
    unfold Login.save_and_report. unfold bind at 1. rewrite Hs. reflexivity.
Qed.

(** The service approves with a token response that has no [expires_in]:
    the login exits with status 1 and there is still no token file. *)
Lemma login_save_failure_witness :
  let w := Scenario.world NoFile Scenario.t0 Cases.approving_undated in
  fst (Login.main 5 w) = Ok 1
  /\ file (disk (snd (Login.main 5 w))) = NoFile.
Proof.
  intros w.
  eapply (login_save_failure 5 w);
    [vm_compute; reflexivity | vm_compute; reflexivity
     | left; vm_compute; reflexivity].
Defined.

(** ** The poll loop as a whole *)

Lemma poll_iteration_cases (deviceCode interval : value) (w : World) :
  match Coerce.js_mul interval (VNum (Dec 1 3)) with
  | Err e => Login.poll_iteration deviceCode interval w = (Throw e, w)
  | Val ms =>
      exists r (dot : bool),
        Login.poll_iteration deviceCode interval w
        = (r, if dot then log (EvStdout (js ".")) 0 (polled w ms deviceCode)
              else polled w ms deviceCode)
        /\ (forall i, r = Ok (Login.Continue i) ->
              i = interval
              \/ Coerce.js_plus interval (VNum (Dec 5 0)) = Val i)
  end.
Proof.
  destruct (Coerce.js_mul interval (VNum (Dec 1 3))) as [ms|e] eqn:Hms.
  2:{ unfold Login.poll_iteration. unfold bind at 1. unfold lift at 1.
      rewrite Hms. reflexivity. }
  destruct (snd (poll_answer w ms deviceCode)) as [r|] eqn:Ha.
  2:{ exists (Throw FetchError), false. split.
      - unfold Login.poll_iteration.
        unfold bind at 1. unfold lift at 1. rewrite Hms.
        unfold bind at 1. unfold Runtime.sleep. fold (slept w ms).
        unfold bind at 1. unfold Login.API_BASE_URL, bind at 1,
          Runtime.getenv_api_url, ret.
        change (env_api_url (slept w ms)) with (env_api_url w).
        fold (login_base w).
        unfold bind at 1. rewrite fetch_run. unfold poll_answer in Ha.
        rewrite Ha. reflexivity.
      - intros i H. discriminate H. }
  destruct (JSON.parse (text r)) as [data|] eqn:Hp.
  2:{ exists (Throw SyntaxError), false. split.
      - unfold Login.poll_iteration.
        unfold bind at 1. unfold lift at 1. rewrite Hms.
        unfold bind at 1. unfold Runtime.sleep. fold (slept w ms).
        unfold bind at 1. unfold Login.API_BASE_URL, bind at 1,
          Runtime.getenv_api_url, ret.
        change (env_api_url (slept w ms)) with (env_api_url w).
        fold (login_base w).
        unfold bind at 1. rewrite fetch_run. unfold poll_answer in Ha.
        rewrite Ha. unfold bind at 1. unfold Runtime.json. rewrite Hp.
        reflexivity.
      - intros i H. discriminate H. }
  rewrite (poll_iteration_run deviceCode interval ms w r data Hms Ha Hp).
  unfold_run.
  destruct (Coerce.has_prop (js "access_token") data) as [[|]|e].
  - exists (Ok (Login.Return data)), false. split; [reflexivity|].
    intros i H. discriminate H.
  - destruct (Coerce.get_prop data (js "error")) as [error|e].
    + destruct (Coerce.strict_eq_str error (js "authorization_pending")).
      { exists (Ok (Login.Continue interval)), true. split; [reflexivity|].
        intros i H. injection H as <-. now left. }
      destruct (Coerce.strict_eq_str error (js "slow_down")).
      { destruct (Coerce.js_plus interval (VNum (Dec 5 0))) as [i'|e] eqn:Hi.
        - exists (Ok (Login.Continue i')), false. split; [reflexivity|].
          intros i H. injection H as <-. now right.
        - exists (Throw e), false. split; [reflexivity|].
          intros i H. discriminate H. }
      destruct (Coerce.strict_eq_str error (js "expired_token")).
      { exists (Throw (Error Login.timed_out)), false. split; [reflexivity|].
        intros i H. discriminate H. }
      destruct (Coerce.get_prop data (js "error_description")) as [d|e].
      * destruct (Runtime.new_Error _) as [err|e].
        -- exists (Throw err), false. split; [reflexivity|].
           intros i H. discriminate H.
        -- exists (Throw e), false. split; [reflexivity|].
           intros i H. discriminate H.
      * exists (Throw e), false. split; [reflexivity|].
        intros i H. discriminate H.
    + exists (Throw e), false. split; [reflexivity|].
      intros i H. discriminate H.
  - exists (Throw e), false. split; [reflexivity|].
    intros i H. discriminate H.
Qed.

Lemma polled_trace (w : World) (ms : number) (deviceCode : value) (dot : bool) :
  trace (if dot then log (EvStdout (js ".")) 0 (polled w ms deviceCode)
         else polled w ms deviceCode)
  = trace w ++ turn_events (login_base w) deviceCode (Runtime.timer_delay ms, dot).
Proof.
  unfold turn_events, polled, slept. destruct dot; cbn [trace log fst snd];
    rewrite <- !app_assoc; reflexivity.
Qed.

Lemma polled_base (w : World) (ms : number) (deviceCode : value) (dot : bool) :
  login_base (if dot then log (EvStdout (js ".")) 0 (polled w ms deviceCode)
              else polled w ms deviceCode) = login_base w.
Proof. destruct dot; reflexivity. Qed.

(** The loop, turn by turn. *)
Lemma pollForToken_turns (fuel : nat) :
  forall deviceCode interval w,
  exists turns,
    trace (snd (Login.pollForToken fuel deviceCode interval w))
    = trace w ++ flat_map (turn_events (login_base w) deviceCode) turns
    /\ (List.length turns <= fuel)%nat
    /\ delays_ok interval (map fst turns).
Proof.
  induction fuel as [|fuel IH]; intros deviceCode interval w.
  - exists []. cbn. rewrite app_nil_r. auto.
  - cbn [Login.pollForToken]. unfold bind at 1.
    pose proof (poll_iteration_cases deviceCode interval w) as Hc.
    destruct (Coerce.js_mul interval (VNum (Dec 1 3))) as [ms|e] eqn:Hms.
    + destruct Hc as (r & dot & Hrun & Hnext). rewrite Hrun.
      set (w' := if dot then log (EvStdout (js ".")) 0 (polled w ms deviceCode)
                 else polled w ms deviceCode) in *.
      assert (Hone : exists turns,
                 trace w'
                 = trace w ++ flat_map (turn_events (login_base w) deviceCode) turns
                 /\ (List.length turns <= S fuel)%nat
                 /\ delays_ok interval (map fst turns)).
      { exists [(Runtime.timer_delay ms, dot)]. split; [|split].
        - unfold w'. rewrite polled_trace. cbn [flat_map].
          rewrite app_nil_r. reflexivity.
        - cbn. lia.
        - cbn [map fst delays_ok]. exists ms. auto. }
      destruct r as [[data|i]|e|];
        [exact Hone | | exact Hone | exact Hone].
      destruct (IH deviceCode i w') as (turns & Htr & Hlen & Hd).
      exists ((Runtime.timer_delay ms, dot) :: turns). split; [|split].
      * rewrite Htr. unfold w' at 1. rewrite polled_trace.
        unfold w'. rewrite polled_base. cbn [flat_map].
        rewrite <- !app_assoc. reflexivity.
      * cbn [List.length]. lia.
      * cbn [map fst delays_ok]. exists ms. split; [exact Hms|].
        split; [reflexivity|].
        destruct (Hnext i eq_refl) as [-> | Hi]; [now left|].
        right. exists i. auto.
    + rewrite Hc. exists []. cbn. rewrite app_nil_r.
      split; [reflexivity|]. split; [lia | exact I].
Qed.

Lemma delays_without_interval (l : list Z) :
  forall interval, interval = VUndef \/ interval = VNum NaN ->
    delays_ok interval l -> Forall (fun d => d = 1) l.
Proof.
  induction l as [|d l IH]; intros interval Hi H; [constructor|].
  cbn [delays_ok] in H. destruct H as (ms & Hms & Hd & Hnext).
  assert (ms = NaN) as ->
    by (destruct Hi as [-> | ->]; cbn in Hms; congruence).
  constructor; [exact Hd|].
  destruct Hnext as [H | (i & Hp & H)].
  - exact (IH interval Hi H).
  - apply (IH i); [|exact H]. right.
    destruct Hi as [-> | ->]; cbn in Hp; congruence.
Qed.

(** X11.  When the device-code response has no [interval], the loop does
    not wait: every turn sleeps for one millisecond before it asks the
    token endpoint again, and a [slow_down] answer does not change
    that. *)
Theorem poll_without_interval (fuel : nat) (deviceCode dc : value) (w : World) :
  Coerce.get_prop deviceCode (js "device_code") = Val dc ->
  Coerce.get_prop deviceCode (js "interval") = Val VUndef ->
  exists turns,
    trace (snd (Login.poll fuel deviceCode w))
    = trace w ++ flat_map (turn_events (login_base w) dc) turns
    /\ Forall (fun t => fst t = 1) turns.
Proof.
  intros Hdc Hi. unfold Login.poll, bind, lift. rewrite Hdc, Hi.
  destruct (pollForToken_turns fuel dc VUndef w) as (turns & Htr & _ & Hd).
  exists turns. split; [exact Htr|].
  apply (delays_without_interval _ VUndef (or_introl eq_refl)) in Hd.
  rewrite Forall_map in Hd. exact Hd.
Qed.

Lemma poll_without_interval_witness :
  let w := Scenario.world NoFile Scenario.t0 Scenario.approving in
  exists turns,
    trace (snd (Login.poll 5 (VObj [(js "device_code", VStr (js "D1"))]) w))
    = trace w ++ flat_map (turn_events (login_base w) (VStr (js "D1"))) turns
    /\ Forall (fun t => fst t = 1) turns.
Proof.
  intros w.
  apply (poll_without_interval 5 (VObj [(js "device_code", VStr (js "D1"))])
           (VStr (js "D1")) w); reflexivity.
Defined.





(** ** Logging out *)

Lemma opt_prop_val (args : value) (k : jsstring) :
  exists x, opt_prop args k = Val x.
Proof.
  destruct args; cbn [opt_prop Coerce.get_prop]; eauto.
  destruct (obj_get o k); eauto.
Qed.

Lemma revoke_run (token : value) (w : World) :
  exists w',
    Status.revoke token w = (Ok tt, w')
    /\ disk w' = disk w
    /\ (forall a, Coerce.get_prop token (js "access_token") = Val (VStr a) ->
          trace w' = trace w ++ [EvFetch (Status.revoke_request (base_url w) a)])
    /\ (trace w' = trace w
        \/ exists a, trace w'
                     = trace w ++ [EvFetch (Status.revoke_request (base_url w) a)]).
Proof.
  unfold Status.revoke, try_catch. unfold bind at 1. rewrite getApiBaseUrl_run.
  unfold bind at 1. unfold lift at 1.
  destruct (Coerce.get_prop token (js "access_token")) as [a|e] eqn:Ha.
  2:{ exists w. repeat split; auto. intros a H. discriminate H. }
  unfold bind at 1. unfold lift at 1. unfold show.
  destruct (Coerce.ToString a) as [s|e] eqn:Hs.
  2:{ exists w. repeat split; auto. intros a' H. injection H as ->.
      discriminate Hs. }
  unfold bind at 1. rewrite fetch_run.
  exists (log (EvFetch (Status.revoke_request (base_url w) s))
              (fst (server w (trace w) (Status.revoke_request (base_url w) s))) w).
  split.
  - destruct (snd (server w (trace w) (Status.revoke_request (base_url w) s)));
      reflexivity.
  - split; [reflexivity|]. split.
    + intros a' H. injection H as ->. cbn in Hs. injection Hs as <-. reflexivity.
    + right. exists s. reflexivity.
Qed.

Lemma vck_logout_run (args token r : value) (w : World) :
  fst (Auth.loadToken w) = Ok token ->
  Coerce.truthy token = true ->
  opt_prop args (js "revoke") = Val r ->
  exists w1 w2,
    (if Status.not_false r then Status.revoke token else ret tt) w = (Ok tt, w1)
    /\ Auth.deleteToken w1 = (Ok tt, w2)
    /\ Status.vck_logout args w
       = (match Coerce.get_prop token (js "user") with
          | Val u =>
              match Coerce.get_prop u (js "email") with
              | Val e =>
                  match show e with
                  | Val email =>
                      Ok (text_result
                            (js "Disconnected " ++ email
                             ++ js " from VibeCodersKit."
                             ++ (if Status.not_false r
                                 then js " Token revoked server-side."
                                 else [])))
                  | Err x => Throw x
                  end
              | Err x => Throw x
              end
          | Err x => Throw x
          end, w2).
Proof.
  intros Hl Ht Hr.
  assert (Hl' : Auth.loadToken w = (Ok token, w)).
  { rewrite loadToken_run in Hl |- *. cbn [fst] in Hl. injection Hl as ->.
    reflexivity. }
  assert (Hstep : exists w1,
             (if Status.not_false r then Status.revoke token else ret tt) w
             = (Ok tt, w1)).
  { destruct (Status.not_false r).
    - destruct (revoke_run token w) as (w1 & H & _). eauto.
    - exists w. reflexivity. }
  destruct Hstep as (w1 & Hstep).
  exists w1. eexists. split; [exact Hstep|]. split; [apply deleteToken_run|].
  unfold Status.vck_logout. unfold bind at 1. rewrite Hl', Ht. cbn [negb].
  unfold bind at 1. unfold lift at 1. rewrite Hr.
  unfold bind at 1. rewrite Hstep.
  unfold bind at 1. rewrite deleteToken_run.
  unfold bind, lift, ret.
  destruct (Coerce.get_prop token (js "user")) as [u|]; [|reflexivity].
  destruct (Coerce.get_prop u (js "email")) as [e|]; [|reflexivity].
  destruct (show e); reflexivity.
Qed.

(** X13.  With nothing stored, the logout tool answers "Already
    disconnected" and does nothing.  With a stored record and a store
    that can be written, the token file is gone when the tool ends,
    whatever the service answers to the revocation and whether or not the
    tool itself ends well: [loadToken] then gives absent.  With
    [revoke: false] nothing is sent; otherwise one request goes to the
    revoke endpoint, with the stored access token as bearer, and nothing
    else is sent. *)
Theorem logout_removes_credential (args token : value) (w : World) :
  let result := Status.vck_logout args w in
  fst (Auth.loadToken w) = Ok token ->
  (Coerce.truthy token = false ->
   result = (Ok (text_result Status.already_disconnected), w))
  /\ (Coerce.truthy token = true ->
      (writable (disk w) = true ->
       file (disk (snd result)) = NoFile
       /\ dir (disk (snd result)) = dir (disk w)
       /\ Auth.loadToken (snd result) = (Ok VNull, snd result))
      /\ (opt_prop args (js "revoke") = Val (VBool false) ->
          trace (snd result) = trace w)
      /\ (opt_prop args (js "revoke") <> Val (VBool false) ->
          forall a,
            Coerce.get_prop token (js "access_token") = Val (VStr a) ->
            trace (snd result)
            = trace w ++ [EvFetch (Status.revoke_request (base_url w) a)])
      /\ (forall (u r : value) (e : jsstring),
            opt_prop args (js "revoke") = Val r ->
            Coerce.get_prop token (js "user") = Val u ->
            Coerce.get_prop u (js "email") = Val (VStr e) ->
            fst result
            = Ok (text_result
                    (js "Disconnected " ++ e ++ js " from VibeCodersKit."
                     ++ (if Status.not_false r
                         then js " Token revoked server-side." else []))))).
Proof.
  intros result Hl. subst result. split.
  - intros Hf. unfold Status.vck_logout. unfold bind at 1.
    rewrite loadToken_run in Hl |- *. cbn [fst] in Hl. injection Hl as ->.
    rewrite Hf. reflexivity.
  - intros Ht.
    destruct (opt_prop_val args (js "revoke")) as [r Hr].
    destruct (vck_logout_run args token r w Hl Ht Hr)
      as (w1 & w2 & Hstep & Hdel & Hrun).
    rewrite Hrun. cbn [fst snd].
    rewrite deleteToken_run in Hdel. injection Hdel as Hw2.
    destruct (revoke_run token w) as (w1' & Hrev & Hd1 & Htr1 & _).
    assert (Hw1 : disk w1 = disk w
                  /\ (Status.not_false r = false -> w1 = w)
                  /\ (Status.not_false r = true -> w1 = w1')).
    { destruct (Status.not_false r).
      - rewrite Hrev in Hstep. injection Hstep as <-.
        repeat split; auto. discriminate.
      - injection Hstep as <-. repeat split; auto. discriminate. }
    destruct Hw1 as (Hd & Hno & Hyes).
    assert (Htr2 : trace w2 = trace w1)
      by (rewrite <- Hw2; destruct (file (disk w1)), (writable (disk w1));
          reflexivity).
    split; [|split; [|split]].
    + intros Hwr.
      assert (Hf2 : file (disk w2) = NoFile).
      { rewrite <- Hw2, Hd, Hwr.
        destruct (file (disk w)) eqn:Hf; [rewrite Hd; exact Hf | reflexivity
                                          | reflexivity]. }
      split; [exact Hf2|]. split.
      * rewrite <- Hw2, Hd, Hwr.
        destruct (file (disk w)); cbn [disk set_disk dir]; rewrite ?Hd;
          reflexivity.
      * rewrite loadToken_run, Hf2. reflexivity.
    + intros Hfalse. rewrite Htr2. rewrite Hfalse in Hr.
      injection Hr as <-. rewrite (Hno eq_refl). reflexivity.
    + intros Hnot a Ha. rewrite Htr2.
      assert (Hnf : Status.not_false r = true).
      { destruct r as [| |[|]| | | |]; try reflexivity.
        rewrite Hr in Hnot. congruence. }
      rewrite (Hyes Hnf). apply Htr1. exact Ha.
    + intros u r' e Hr' Hu He. rewrite Hr in Hr'. injection Hr' as <-.
      rewrite Hu, He. reflexivity.
Qed.

(** Without a network the revocation fails; the token file is removed all
    the same, and the answer says the token was revoked. *)
Lemma logout_removes_credential_witness :
  let w := Scenario.world (Scenario.stored Scenario.ann) Scenario.t0
             Scenario.offline in
  file (disk (snd (Status.vck_logout VUndef w))) = NoFile
  /\ fst (Status.vck_logout VUndef w)
     = Ok (text_result (js "Disconnected ann@example.test from VibeCodersKit. Token revoked server-side.")).
Proof.
  intros w.
  destruct (logout_removes_credential VUndef (Auth.token_value Scenario.ann) w)
    as [_ H]; [vm_compute; reflexivity|].
  destruct H as (Hgone & _ & _ & Htext); [reflexivity|].
  split.
  - apply Hgone. reflexivity.
  - apply (Htext (Auth.user_value (Auth.user Scenario.ann)) VUndef
             (js "ann@example.test")); reflexivity.
Defined.

(** X14.  A stored record without [user] (the file holds [{}], say) makes
    the logout tool throw a [TypeError] when it builds its answer; by then
    the token file has been removed. *)
Theorem logout_incomplete_record (args token : value) (w : World) :
  fst (Auth.loadToken w) = Ok token ->
  Coerce.truthy token = true ->
  Coerce.get_prop token (js "user") = Val VUndef ->
  writable (disk w) = true ->
  fst (Status.vck_logout args w) = Throw TypeError
  /\ file (disk (snd (Status.vck_logout args w))) = NoFile.
Proof.
  intros Hl Ht Hu Hwr.
  destruct (opt_prop_val args (js "revoke")) as [r Hr].
  destruct (vck_logout_run args token r w Hl Ht Hr)
    as (w1 & w2 & Hstep & Hdel & Hrun).
  rewrite Hrun, Hu. cbn [fst snd Coerce.get_prop]. split; [reflexivity|].
  rewrite deleteToken_run in Hdel. injection Hdel as <-.
  assert (Hd : disk w1 = disk w).
  { destruct (Status.not_false r).
    - destruct (revoke_run token w) as (w1' & Hrev & Hd1 & _).
      rewrite Hrev in Hstep. injection Hstep as <-. exact Hd1.
    - injection Hstep as <-. reflexivity. }
  rewrite Hd, Hwr.
  destruct (file (disk w)) eqn:Hf; [rewrite Hd; exact Hf | reflexivity
                                    | reflexivity].
Qed.

Lemma logout_incomplete_record_witness :
  let w := Scenario.world Cases.empty_record Scenario.t0 Scenario.healthy in
  fst (Status.vck_logout VUndef w) = Throw TypeError
  /\ file (disk (snd (Status.vck_logout VUndef w))) = NoFile.
Proof.
  intros w.
  apply (logout_incomplete_record VUndef (VObj []) w);
    [vm_compute; reflexivity | reflexivity | reflexivity | reflexivity].
Defined.

(** ** The resource handlers *)

Lemma settle_no_fuel (r : Response) (w : World) : fst (Api.settle r w) <> Fuel.
Proof.
  rewrite settle_run. cbn [fst].
  destruct (negb (Runtime.ok r)).
  - destruct (JSON.parse (text r)) as [er|]; [|discriminate].
    destruct (Coerce.get_prop er (js "error")); [|discriminate].
    destruct (Runtime.new_Error _); discriminate.
  - destruct (status r =? 204); [discriminate|].
    destruct (JSON.parse (text r)); discriminate.
Qed.

Lemma apiRequest_no_fuel (endpoint : jsstring) (options : Api.RequestInit)
    (w : World) :
  fst (Api.apiRequest endpoint options w) <> Fuel.
Proof.
  unfold Api.apiRequest, Api.primary_call, bind.
  rewrite loadToken_run. cbv beta iota.
  set (token := match file (disk w) with
                | File _ c => match JSON.parse c with
                              | Some v => v
                              | None => VNull
                              end
                | _ => VNull
                end).
  destruct (Coerce.truthy token) eqn:Ht; cbn [negb]; [|discriminate].
  destruct (proactive_trace token w Ht) as (r & w1 & Hp & _ & _ & Htruthy & Hnf).
  rewrite Hp. destruct r as [token'|e|]; [|discriminate|congruence].
  rewrite getApiBaseUrl_run. unfold lift.
  destruct (Api.authorized_request (base_url w1) endpoint options token')
    as [req|e]; [|discriminate].
  rewrite fetch_run.
  destruct (snd (server w1 (trace w1) req)) as [resp|]; [|discriminate].
  unfold ret. cbv beta iota.
  destruct (status resp =? 401).
  - destruct (reactive_trace (base_url w1) endpoint options token'
                (log (EvFetch req) (fst (server w1 (trace w1) req)) w1)
                (Htruthy _ eq_refl)) as (r & w3 & rt & Hr & Hnf3 & _).
    rewrite Hr. exact Hnf3.
  - apply settle_no_fuel.
Qed.

Lemma after_word_app (p s : jsstring) : JSON.after_word p (p ++ s) = Some s.
Proof.
  induction p as [|x p IH]; [reflexivity|].
  cbn [JSON.after_word app JSON.after]. rewrite N.eqb_refl. exact IH.
Qed.

Lemma after_word_inv (p : jsstring) :
  forall s r, JSON.after_word p s = Some r -> s = p ++ r.
Proof.
  induction p as [|x p IH]; intros s r H.
  - cbn in H. injection H as <-. reflexivity.
  - cbn [JSON.after_word] in H. destruct s as [|c s]; [discriminate H|].
    cbn [JSON.after] in H. destruct (N.eqb_spec c x) as [->|]; [|discriminate H].
    cbn [app]. f_equal. apply IH. exact H.
Qed.

(** X15.  The pattern of resource URIs: a text is accepted exactly when
    it is [vibekit://prompt/] followed by at least one character, none of
    them a line terminator; the identifier is what follows the prefix.
    Any other URI makes the [ReadResource] handler throw "Invalid
    resource URI" before anything is loaded or sent; an accepted one is
    answered by a call to [/api/mcp/prompts/] and the identifier, as it
    stands. *)
Theorem read_resource_uri (uri : jsstring) :
  (forall id, Index.match_prompt_uri uri = Some id
              <-> uri = js "vibekit://prompt/" ++ id
                  /\ id <> []
                  /\ forallb (fun c => negb (Index.is_line_terminator c)) id = true)
  /\ (Index.match_prompt_uri uri = None ->
      forall w, Index.read_resource uri w
                = (Throw (Error (js "Invalid resource URI: " ++ uri)), w))
  /\ (forall id, Index.match_prompt_uri uri = Some id ->
      forall w,
        let call := Api.apiRequest (js "/api/mcp/prompts/" ++ id)
                      Api.no_options w in
        snd (Index.read_resource uri w) = snd call
        /\ (forall e, fst call = Throw e -> fst (Index.read_resource uri w) = Throw e)
        /\ (forall o, fst call = Ok (VObj o) ->
              fst (Index.read_resource uri w)
              = Ok (VObj [(js "contents",
                           VArr [VObj [(js "uri", VStr uri);
                                       (js "mimeType", VStr (js "text/plain"));
                                       (js "text",
                                        match obj_get o (js "content") with
                                        | Some c => c
                                        | None => VUndef
                                        end)]])]))).
Proof.
  split; [|split].
  - intros id. unfold Index.match_prompt_uri. split.
    + destruct (JSON.after_word (js "vibekit://prompt/") uri) as [[|c r]|] eqn:E;
        try discriminate.
      destruct (forallb _ (c :: r)) eqn:F; [|discriminate].
      intros H. injection H as <-. apply after_word_inv in E.
      split; [exact E|]. split; [discriminate | exact F].
    + intros (-> & Hne & F). rewrite after_word_app.
      destruct id as [|c r]; [congruence|]. rewrite F. reflexivity.
  - intros H w. unfold Index.read_resource. rewrite H. reflexivity.
  - intros id H w call. subst call.
    assert (E : Index.read_resource uri w
                = match Api.apiRequest (js "/api/mcp/prompts/" ++ id)
                          Api.no_options w with
                  | (Ok v, w') =>
                      (match Coerce.get_prop v (js "content") with
                       | Val c =>
                           Ok (VObj [(js "contents",
                                      VArr [VObj [(js "uri", VStr uri);
                                                  (js "mimeType",
                                                   VStr (js "text/plain"));
                                                  (js "text", c)]])])
                       | Err e => Throw e
                       end, w')
                  | (Throw e, w') => (Throw e, w')
                  | (Fuel, w') => (Fuel, w')
                  end).
    { unfold Index.read_resource. rewrite H. unfold bind, lift, ret.
      destruct (Api.apiRequest _ _ w) as [[v|e|] w']; try reflexivity.
      destruct (Coerce.get_prop v (js "content")); reflexivity. }
    rewrite E.
    pose proof (apiRequest_no_fuel (js "/api/mcp/prompts/" ++ id)
                  Api.no_options w) as Hnf.
    destruct (Api.apiRequest (js "/api/mcp/prompts/" ++ id) Api.no_options w)
      as [[v|e|] w']; cbn [fst snd] in *; [| |congruence].
    + split; [reflexivity|]. split.
      * intros e H'. discriminate H'.
      * intros o H'. injection H' as ->. cbn [Coerce.get_prop].
        destruct (obj_get o (js "content")); reflexivity.
    + split; [reflexivity|]. split; [|intros o H'; discriminate H'].
      intros e' H'. exact H'.
Qed.

Lemma read_resource_uri_witness :
  Index.match_prompt_uri (js "vibekit://prompt/p1") = Some (js "p1")
  /\ (forall w, Index.read_resource (js "vibekit://prompts") w
                = (Throw (Error (js "Invalid resource URI: vibekit://prompts")), w)).
Proof.
  split.
  - apply (read_resource_uri (js "vibekit://prompt/p1")).
    split; [reflexivity|]. split; [vm_compute; discriminate | reflexivity].
  - apply (read_resource_uri (js "vibekit://prompts")). reflexivity.
Defined.

Lemma map_result_null (l : list value) :
  In VNull l -> exists e, Index.map_result Index.resource_of l = Err e.
Proof.
  induction l as [|x l IH]; [contradiction|].
  intros [-> | Hin]; cbn [Index.map_result].
  - exists TypeError. reflexivity.
  - destruct (Index.resource_of x) as [y|e]; cbn [rbind]; [|eauto].
    destruct (IH Hin) as [e ->]. cbn [rbind]. eauto.
Qed.

(** X16.  The [ListResources] handler never fails and never does more
    than its one call to the prompts endpoint: whatever that call throws,
    "Not authenticated" included, the answer is the empty list.  When the
    call returns an array [prompts], the answer has one resource for each
    prompt, in order; when one of them is [null], or [prompts] is not an
    array, the answer is again the empty list. *)
Theorem list_resources_never_fails (w : World) :
  let call := Api.apiRequest (js "/api/mcp/prompts?limit=50") Api.no_options w in
  exists l,
    Index.list_resources w = (Ok (VObj [(js "resources", VArr l)]), snd call)
    /\ (forall e, fst call = Throw e -> l = [])
    /\ (Coerce.truthy (match fst (Auth.loadToken w) with
                       | Ok token => token
                       | _ => VNull
                       end) = false ->
        l = [] /\ snd call = w)
    /\ (forall data ps,
          fst call = Ok data ->
          Coerce.get_prop data (js "prompts") = Val (VArr ps) ->
          (forall rs, Index.map_result Index.resource_of ps = Val rs ->
                      l = rs /\ List.length l = List.length ps)
          /\ (In VNull ps -> l = []))
    /\ (forall data x,
          fst call = Ok data ->
          Coerce.get_prop data (js "prompts") = Val x ->
          (forall ps, x <> VArr ps) -> l = []).
Proof.
  intros call. subst call.
  assert (E : Index.list_resources w
              = match Api.apiRequest (js "/api/mcp/prompts?limit=50")
                        Api.no_options w with
                | (Ok data, w') =>
                    (Ok match Coerce.get_prop data (js "prompts") with
                        | Val prompts =>
                            match Index.array_map Index.resource_of prompts with
                            | Val rs => VObj [(js "resources", VArr rs)]
                            | Err _ => Index.no_resources
                            end
                        | Err _ => Index.no_resources
                        end, w')
                | (Throw e, w') => (Ok Index.no_resources, w')
                | (Fuel, w') => (Fuel, w')
                end).
  { unfold Index.list_resources, try_catch, bind, lift, ret.
    destruct (Api.apiRequest _ _ w) as [[data|e|] w']; try reflexivity.
    destruct (Coerce.get_prop data (js "prompts")) as [prompts|]; [|reflexivity].
    destruct (Index.array_map Index.resource_of prompts); reflexivity. }
  rewrite E.
  pose proof (apiRequest_no_fuel (js "/api/mcp/prompts?limit=50")
                Api.no_options w) as Hnf.
  assert (Hun : Coerce.truthy (match fst (Auth.loadToken w) with
                               | Ok token => token
                               | _ => VNull
                               end) = false ->
                Api.apiRequest (js "/api/mcp/prompts?limit=50") Api.no_options w
                = (Throw (Error Api.not_authenticated), w)).
  { intros Hf. unfold Api.apiRequest, Api.primary_call, bind.
    rewrite loadToken_run in Hf |- *. cbn [fst] in Hf. rewrite Hf. reflexivity. }
  destruct (Api.apiRequest (js "/api/mcp/prompts?limit=50") Api.no_options w)
    as [[data|e|] w']; cbn [fst snd] in *; [| |congruence].
  - destruct (Coerce.get_prop data (js "prompts")) as [prompts|e] eqn:Hp.
    + destruct (Index.array_map Index.resource_of prompts) as [rs|e] eqn:Hm.
      * exists rs. split; [reflexivity|]. split; [intros e H; discriminate H|].
        split; [intros Hf; specialize (Hun Hf); discriminate Hun|]. split.
        -- intros data' ps Hd Hp'. injection Hd as <-. rewrite Hp in Hp'.
           injection Hp' as ->. cbn [Index.array_map] in Hm. split.
           ++ intros rs' Hrs. rewrite Hm in Hrs. injection Hrs as <-.
              split; [reflexivity|].
              clear - Hm. revert rs Hm. induction ps as [|p ps IH]; intros rs Hm.
              ** cbn in Hm. injection Hm as <-. reflexivity.
              ** cbn [Index.map_result] in Hm.
                 destruct (Index.resource_of p); [|discriminate Hm].
                 cbn [rbind] in Hm.
                 destruct (Index.map_result Index.resource_of ps) as [rs'|];
                   [|discriminate Hm].
                 cbn [rbind] in Hm. injection Hm as <-.
                 cbn [List.length]. f_equal. apply IH. reflexivity.
           ++ intros Hin. destruct (map_result_null ps Hin) as [e He].
              rewrite He in Hm. discriminate Hm.
        -- intros data' x Hd Hp' Hx. injection Hd as <-. rewrite Hp in Hp'.
           injection Hp' as ->. destruct x; try discriminate Hm.
           exfalso. exact (Hx l eq_refl).
      * exists []. split; [reflexivity|]. split; [reflexivity|].
        split; [intros Hf; specialize (Hun Hf); discriminate Hun|]. split.
        -- intros data' ps Hd Hp'. injection Hd as <-. rewrite Hp in Hp'.
           injection Hp' as ->. cbn [Index.array_map] in Hm. split.
           ++ intros rs Hrs. rewrite Hm in Hrs. discriminate Hrs.
           ++ reflexivity.
        -- reflexivity.
    + exists []. split; [reflexivity|]. split; [reflexivity|].
      split; [intros Hf; specialize (Hun Hf); discriminate Hun|]. split.
      * intros data' ps Hd Hp'. injection Hd as <-. rewrite Hp in Hp'.
        discriminate Hp'.
      * reflexivity.
  - exists []. split; [reflexivity|]. split; [reflexivity|]. split.
    + intros Hf. specialize (Hun Hf). injection Hun as _ ->. auto.
    + split; [intros data ps H; discriminate H | reflexivity].
Qed.

(** Nothing stored: the list is empty and nothing was sent.  A service
    with one prompt: the list has its resource. *)
Lemma list_resources_never_fails_witness :
  (let w := Scenario.world NoFile Scenario.t0 Scenario.healthy in
   Index.list_resources w = (Ok Index.no_resources, w))
  /\ (let w := Scenario.world (Scenario.stored Scenario.ann) early
                 (Cases.answering 200 Cases.prompts_body) in
      fst (Index.list_resources w)
      = Ok (VObj [(js "resources",
                   VArr [VObj [(js "uri", VStr (js "vibekit://prompt/p1"));
                               (js "name", VStr (js "First"));
                               (js "description", VUndef);
                               (js "mimeType", VStr (js "text/plain"))]])])).
Proof.
  split; intros w.
  - destruct (list_resources_never_fails w) as (l & Hrun & _ & Hun & _).
    destruct Hun as [-> Hw]; [reflexivity|]. rewrite Hrun, Hw. reflexivity.
  - destruct (list_resources_never_fails w) as (l & Hrun & _ & _ & Hok & _).
    edestruct Hok as [Hrs _]; [vm_compute; reflexivity | vm_compute; reflexivity|].
    destruct (Hrs [VObj [(js "uri", VStr (js "vibekit://prompt/p1"));
                          (js "name", VStr (js "First"));
                          (js "description", VUndef);
                          (js "mimeType", VStr (js "text/plain"))]])
      as [-> _]; [vm_compute; reflexivity|].
    rewrite Hrun. reflexivity.
Defined.

(** X17.  The URI the list handler gives a prompt and the pattern of the
    read handler agree: for a prompt whose [id] is a non-empty string
    without a line terminator, the listed URI is accepted and gives that
    [id] back.  A prompt whose [id] is the empty string is listed with a
    URI that the read handler rejects. *)
Theorem resource_uri_round_trip (p : value) (id : jsstring) :
  Coerce.get_prop p (js "id") = Val (VStr id) ->
  exists name d,
    Index.resource_of p
    = Val (VObj [(js "uri", VStr (js "vibekit://prompt/" ++ id));
                 (js "name", name);
                 (js "description", d);
                 (js "mimeType", VStr (js "text/plain"))])
    /\ (id <> [] ->
        forallb (fun c => negb (Index.is_line_terminator c)) id = true ->
        Index.match_prompt_uri (js "vibekit://prompt/" ++ id) = Some id)
    /\ (id = [] ->
        Index.match_prompt_uri (js "vibekit://prompt/" ++ id) = None).
Proof.
  intros Hid.
  assert (exists o, p = VObj o) as [o ->].
  { destruct p; cbn in Hid; try discriminate Hid. eauto. }
  unfold Index.resource_of. rewrite Hid. cbn [rbind show Coerce.ToString].
  cbn [Coerce.get_prop].
  exists (match obj_get o (js "name") with Some x => x | None => VUndef end).
  exists (let d := match obj_get o (js "description") with
                   | Some x => x
                   | None => VUndef
                   end in
          if Coerce.truthy d then d else VUndef).
  split; [|split].
  - destruct (obj_get o (js "name")), (obj_get o (js "description")); reflexivity.
  - intros Hne Hlt. unfold Index.match_prompt_uri. rewrite after_word_app.
    destruct id; [congruence|]. rewrite Hlt. reflexivity.
  - intros ->. unfold Index.match_prompt_uri. rewrite after_word_app. reflexivity.
Qed.

Lemma resource_uri_round_trip_witness :
  Index.match_prompt_uri (js "vibekit://prompt/" ++ js "p1") = Some (js "p1").
Proof.
  destruct (resource_uri_round_trip
              (VObj [(js "id", VStr (js "p1")); (js "name", VStr (js "First"))])
              (js "p1") eq_refl) as (name & d & _ & H & _).
  apply H; [vm_compute; discriminate | reflexivity].
Defined.

(** ** The status tool *)






(** ** What a normal return means *)

Lemma settle_ok (r : Response) (w : World) (v : value) :
  fst (Api.settle r w) = Ok v ->
  Runtime.ok r = true
  /\ (if status r =? 204 then v = VObj [] else JSON.parse (text r) = Some v).
Proof.
  rewrite settle_run. cbn [fst].
  destruct (Runtime.ok r); cbn [negb].
  - destruct (status r =? 204).
    + intros H. injection H as <-. auto.
    + destruct (JSON.parse (text r)); [|discriminate].
      intros H. injection H as <-. auto.
  - destruct (JSON.parse (text r)) as [er|]; [|discriminate].
    destruct (Coerce.get_prop er (js "error")); [|discriminate].
    destruct (Runtime.new_Error _); discriminate.
Qed.

(** X19.  [apiRequest] returns normally only when the service answered
    the caller's call with a 2xx status: the last thing it did was to
    send a request with the caller's URL, method and body, the response to
    that request was 2xx, and the value returned is the parsed body of
    that response, or the empty object for a 204.  (A call that was
    answered otherwise, or not at all, throws.) *)
Theorem apiRequest_success (endpoint : jsstring) (options : Api.RequestInit)
    (w : World) (v : value) :
  fst (Api.apiRequest endpoint options w) = Ok v ->
  exists w0 req r,
    trace (snd (Api.apiRequest endpoint options w)) = trace w0 ++ [EvFetch req]
    /\ snd (server w0 (trace w0) req) = Some r
    /\ url req = base_url w ++ endpoint
    /\ method req = Api.opt_method options
    /\ body req = Api.opt_body options
    /\ Runtime.ok r = true
    /\ (if status r =? 204 then v = VObj [] else JSON.parse (text r) = Some v).
Proof.
  assert (E : Api.apiRequest endpoint options w
              = match Api.primary_call endpoint options w with
                | (Ok (token, baseUrl, response), w1) =>
                    if status response =? 401
                    then Api.reactive_refresh baseUrl endpoint options token w1
                    else Api.settle response w1
                | (Throw e, w1) => (Throw e, w1)
                | (Fuel, w1) => (Fuel, w1)
                end).
  { unfold Api.apiRequest, bind.
    destruct (Api.primary_call endpoint options w)
      as [[[[token baseUrl] response]|e|] w1]; try reflexivity.
    destruct (status response =? 401); reflexivity. }
  rewrite E. clear E.
  destruct (Api.primary_call endpoint options w)
    as [[[[token baseUrl] response]|e|] w1] eqn:Hp; cbn [fst]; try discriminate.
  destruct (primary_call_inv _ _ _ _ _ _ _ Hp) as (Ht & Hb & Henv).
  assert (Hbase : base_url w1 = base_url w)
    by (unfold base_url; now rewrite Henv).
  destruct (primary_call_sent _ _ _ _ _ _ _ Hp) as (w0 & req & Hreq & Htr & Hans).
  destruct (authorized_request_shape _ _ _ _ _ Hreq) as (Hu & Hm & Hbd & _).
  destruct (status response =? 401) eqn:H401.
  - destruct (reactive_run baseUrl endpoint options token w1)
      as (rv & w2 & Hr & Hfalsy & Htruthy).
    destruct (Coerce.truthy rv) eqn:Hrv.
    + destruct (Api.authorized_request baseUrl endpoint options rv)
        as [req2|e] eqn:Hreq2.
      * specialize (Htruthy eq_refl req2 eq_refl).
        destruct (authorized_request_shape _ _ _ _ _ Hreq2) as (Hu2 & Hm2 & Hb2 & _).
        destruct (snd (server w2 (trace w2) req2)) as [retry|] eqn:Hans2.
        -- rewrite Htruthy. cbn [fst snd]. intros Hok.
           destruct (settle_ok _ _ _ Hok) as (Hk & Hv).
           exists w2, req2, retry. cbn [trace log].
           rewrite Hu2, Hb, Hbase. repeat split; auto.
        -- rewrite Htruthy. cbn [fst]. discriminate.
      * unfold Api.reactive_refresh. unfold bind at 1. rewrite Hr, Hrv.
        cbn [negb]. unfold bind, lift. rewrite Hreq2. cbn [fst]. discriminate.
    + rewrite (Hfalsy eq_refl). cbn [fst]. discriminate.
  - rewrite settle_world. intros Hok.
    destruct (settle_ok _ _ _ Hok) as (Hk & Hv).
    exists w0, req, response. rewrite Hu, Hb, Hbase. repeat split; auto.
Qed.

(** A healthy service: the call returns what the service answered. *)
Lemma apiRequest_success_witness :
  let w := Scenario.world (Scenario.stored Scenario.ann) early Scenario.healthy in
  exists w0 req r,
    trace (snd (Api.apiRequest (js "/x") Api.no_options w))
    = trace w0 ++ [EvFetch req]
    /\ snd (server w0 (trace w0) req) = Some r
    /\ Runtime.ok r = true.
Proof.
  intros w.
  destruct (apiRequest_success (js "/x") Api.no_options w
              (VObj [(js "ok", VBool true)]))
    as (w0 & req & r & Htr & Hans & _ & _ & _ & Hok & _);
    [vm_compute; reflexivity|].
  exists w0, req, r. auto.
Defined.

(** ** The two [saveToken] functions *)

(** X20.  The [saveToken] of the login flow and the [saveToken] of the
    token store are the same operation: whenever the fields of the token
    response can be read and its [expires_in] gives a valid date, saving
    the response from the login does exactly what [saveToken] of
    [auth.ts] does with the record of the four fields, in every state of
    the store (same directory and file modes, same text, same failures). *)
Theorem login_saveToken_agrees (token a rt ei u : value) (iso : jsstring)
    (w : World) :
  Coerce.get_prop token (js "access_token") = Val a ->
  Coerce.get_prop token (js "refresh_token") = Val rt ->
  Coerce.get_prop token (js "expires_in") = Val ei ->
  Auth.expiry_string (now w) ei = Val iso ->
  Coerce.get_prop token (js "user") = Val u ->
  Login.saveToken token w
  = Auth.saveToken (VObj [(js "access_token", a); (js "refresh_token", rt);
                          (js "expires_at", VStr iso); (js "user", u)]) w.
Proof.
  intros Ha Hrt Hei Hiso Hu.
  unfold Login.saveToken, Auth.saveToken. unfold_run. rewrite Ha, Hrt, Hei, Hu.
  destruct w as [[d f wr] env t srv tr]; cbn [disk dir file writable now] in *.
  destruct d as [dm|]; cbn [negb].
  - cbn [now]. rewrite Hiso. reflexivity.
  - destruct wr; [|reflexivity].
    cbn [set_disk disk dir file writable now]. rewrite Hiso. reflexivity.
Qed.

Lemma login_saveToken_agrees_witness :
  let w := Scenario.world NoFile Scenario.t0 Scenario.offline in
  Login.saveToken Cases.token_response w
  = Auth.saveToken
      (Auth.token_value
         {| Auth.access_token := js "A1";
            Auth.refresh_token := js "R1";
            Auth.expires_at := js "2023-11-14T23:13:20.000Z";
            Auth.user := Auth.user Scenario.ann |}) w.
Proof.
  intros w.
  apply (login_saveToken_agrees Cases.token_response (VStr (js "A1"))
           (VStr (js "R1")) (VNum (num_of_Z 3600))
           (Auth.user_value (Auth.user Scenario.ann))
           (js "2023-11-14T23:13:20.000Z") w);
    vm_compute; reflexivity.
Defined.

(** ** After a logout *)

(** X21.  After a logout that found a record in a store that can be
    written, every entry point sees no credential: the status tool
    answers "Not connected", a request fails with "Not authenticated"
    before anything is sent, the resource list is empty, and a second
    logout answers "Already disconnected"; none of them sends or writes
    anything. *)
Theorem logout_then_unauthenticated (args token : value) (w : World) :
  fst (Auth.loadToken w) = Ok token ->
  Coerce.truthy token = true ->
  writable (disk w) = true ->
  let w' := snd (Status.vck_logout args w) in
  Status.vck_status w' = (Ok (text_result Status.not_connected), w')
  /\ (forall endpoint options,
        Api.apiRequest endpoint options w'
        = (Throw (Error Api.not_authenticated), w'))
  /\ Index.list_resources w' = (Ok Index.no_resources, w')
  /\ (forall args',
        Status.vck_logout args' w'
        = (Ok (text_result Status.already_disconnected), w')).
Proof.
  intros Hl Ht Hwr w'.
  assert (Hf : file (disk w') = NoFile).
  { destruct (opt_prop_val args (js "revoke")) as [r Hr].
    destruct (vck_logout_run args token r w Hl Ht Hr)
      as (w1 & w2 & Hstep & Hdel & Hrun).
    subst w'. rewrite Hrun. cbn [snd].
    rewrite deleteToken_run in Hdel. injection Hdel as <-.
    assert (Hd : disk w1 = disk w).
    { destruct (Status.not_false r).
      - destruct (revoke_run token w) as (w1' & Hrev & Hd1 & _).
        rewrite Hrev in Hstep. injection Hstep as <-. exact Hd1.
      - injection Hstep as <-. reflexivity. }
    rewrite Hd, Hwr.
    destruct (file (disk w)) eqn:Hf; [rewrite Hd; exact Hf | reflexivity
                                      | reflexivity]. }
  assert (Hload : Auth.loadToken w' = (Ok VNull, w'))
    by (rewrite loadToken_run, Hf; reflexivity).
  assert (Hreq : forall endpoint options,
             Api.apiRequest endpoint options w'
             = (Throw (Error Api.not_authenticated), w')).
  { intros endpoint options. unfold Api.apiRequest, Api.primary_call, bind.
    rewrite Hload. reflexivity. }
  split; [|split; [exact Hreq|split]].
  - unfold Status.vck_status. unfold bind at 1. rewrite Hload. reflexivity.
  - unfold Index.list_resources, try_catch. unfold bind at 1.
    rewrite Hreq. reflexivity.
  - intros args'. unfold Status.vck_logout. unfold bind at 1.
    rewrite Hload. reflexivity.
Qed.

Lemma logout_then_unauthenticated_witness :
  let w := Scenario.world (Scenario.stored Scenario.ann) Scenario.t0
             Scenario.healthy in
  let w' := snd (Status.vck_logout VUndef w) in
  Status.vck_status w' = (Ok (text_result Status.not_connected), w')
  /\ Index.list_resources w' = (Ok Index.no_resources, w').
Proof.
  intros w w'.
  destruct (logout_then_unauthenticated VUndef (Auth.token_value Scenario.ann) w)
    as (Hs & _ & Hl & _);
    [vm_compute; reflexivity | reflexivity | reflexivity |].
  split; [exact Hs | exact Hl].
Defined.
